(** * cover-crew-matcher: the candidate matching and scoring engine

    A shallow embedding of [supabase/functions/match-substitutes/index.ts]
    (the edge function that ranks substitutes for an assignment request)
    and the properties its specification states about it.

    Numbers.  The source computes on JavaScript numbers.  They are modelled
    by [num]: a real number, one of the two infinities, or NaN.  Finite
    values are exact reals (rounding to binary64 is not modelled, nor are
    overflow to an infinity and underflow to 0) and zero carries no sign
    (it behaves as +0); NaN and the infinities follow the language rules,
    because the source reaches them: a property missing from a JSON object
    reads as [undefined], which is NaN in arithmetic, and a division by a
    zero speed is an infinity.  In the distance formula the exact result
    and the binary64 one can differ by more than the last digits: for two
    points that are nearly antipodal the quantity [a] can round to just
    above 1, which makes the distance NaN, and the square of a very small
    half-angle underflows to 0.  The statements about distances are kept
    to those that such a difference does not overturn: where they need the
    distance to be a number they take it as a hypothesis, and none
    concludes from a distance of 0 that two points are the same.

    Store.  The five tables the function touches are lists of rows; each
    call of the database client can fail, as told by an oracle [fault],
    and [Date.now()] reads a clock oracle, one tick per read.

    What is left out: the CORS preflight branch, the decoding of the
    request body (the handler is given [request_id]), the text of the
    [explanation] string (its three numbers are kept), and the column
    types of the database ([score] is rounded by its column; the rows are
    kept as the handler sends them). *)

From Stdlib Require Import Reals Lra Lia List String ZArith Bool.
From Stdlib Require Import Sorting.Sorted Sorting.Permutation.
Import ListNotations.

(* ================================================================== *)
(** * Part I: definitions *)
(* ================================================================== *)

(** ** JavaScript numbers *)

Inductive num : Type :=
| NaN : num
| NInf : num
| Fin (r : R) : num
| PInf : num.

Declare Scope num_scope.
Delimit Scope num_scope with num.
Bind Scope num_scope with num.

Module Num.

(** Unary minus. *)
Definition neg (x : num) : num :=
  match x with
  | NaN => NaN
  | NInf => PInf
  | Fin r => Fin (- r)
  | PInf => NInf
  end.

(** [x + y]. *)
Definition add (x y : num) : num :=
  match x, y with
  | NaN, _ | _, NaN => NaN
  | Fin a, Fin b => Fin (a + b)
  | PInf, NInf | NInf, PInf => NaN
  | PInf, _ | _, PInf => PInf
  | NInf, _ | _, NInf => NInf
  end.

(** [x - y]. *)
Definition sub (x y : num) : num := add x (neg y).

(** The infinity of the sign of [a] times the sign [s] ([true] is plus);
    NaN when [a] is zero. *)
Definition signed_inf (s : bool) (a : R) : num :=
  if Rlt_dec 0 a then (if s then PInf else NInf)
  else if Rlt_dec a 0 then (if s then NInf else PInf)
  else NaN.

(** [x * y]. *)
Definition mul (x y : num) : num :=
  match x, y with
  | NaN, _ | _, NaN => NaN
  | Fin a, Fin b => Fin (a * b)
  | Fin a, PInf | PInf, Fin a => signed_inf true a
  | Fin a, NInf | NInf, Fin a => signed_inf false a
  | PInf, PInf | NInf, NInf => PInf
  | PInf, NInf | NInf, PInf => NInf
  end.

(** [x / y]; a finite number divided by zero is an infinity of its sign,
    and 0/0 is NaN. *)
Definition div (x y : num) : num :=
  match x, y with
  | NaN, _ | _, NaN => NaN
  | Fin a, Fin b => if Req_dec_T b 0 then signed_inf true a else Fin (a / b)
  | Fin _, PInf | Fin _, NInf => Fin 0
  | PInf, Fin b => if Rlt_dec b 0 then NInf else PInf
  | NInf, Fin b => if Rlt_dec b 0 then PInf else NInf
  | PInf, PInf | PInf, NInf | NInf, PInf | NInf, NInf => NaN
  end.

(** [x > y]: false as soon as one side is NaN. *)
Definition gt (x y : num) : bool :=
  match x, y with
  | NaN, _ | _, NaN => false
  | Fin a, Fin b => if Rlt_dec b a then true else false
  | PInf, PInf => false
  | PInf, _ => true
  | _, PInf => false
  | NInf, _ => false
  | _, NInf => true
  end.

(** [x >= y] and [x === y] on numbers. *)
Definition ge (x y : num) : bool :=
  match x, y with
  | NaN, _ | _, NaN => false
  | Fin a, Fin b => if Rlt_dec a b then false else true
  | PInf, _ => true
  | _, NInf => true
  | _, PInf => false
  | NInf, _ => false
  end.

Definition eqb (x y : num) : bool :=
  match x, y with
  | NaN, _ | _, NaN => false
  | Fin a, Fin b => if Req_dec_T a b then true else false
  | PInf, PInf | NInf, NInf => true
  | _, _ => false
  end.

(** [Math.max(x, y)] and [Math.min(x, y)]: NaN when an argument is. *)
Definition max (x y : num) : num :=
  match x, y with
  | NaN, _ | _, NaN => NaN
  | _, _ => if gt y x then y else x
  end.

Definition min (x y : num) : num :=
  match x, y with
  | NaN, _ | _, NaN => NaN
  | _, _ => if gt x y then y else x
  end.

(** [Math.sin], [Math.cos]: NaN outside the finite numbers. *)
Definition sin (x : num) : num :=
  match x with Fin r => Fin (Rtrigo_def.sin r) | _ => NaN end.

Definition cos (x : num) : num :=
  match x with Fin r => Fin (Rtrigo_def.cos r) | _ => NaN end.

(** [Math.sqrt]: NaN below zero. *)
Definition sqrt (x : num) : num :=
  match x with
  | NaN | NInf => NaN
  | PInf => PInf
  | Fin r => if Rlt_dec r 0 then NaN else Fin (R_sqrt.sqrt r)
  end.

(** [Math.atan2(y, x)] on two reals. *)
Definition atan2R (y x : R) : R :=
  if Rlt_dec 0 x then atan (y / x)
  else if Rlt_dec x 0 then
    (if Rlt_dec y 0 then atan (y / x) - PI else atan (y / x) + PI)
  else if Rlt_dec 0 y then PI / 2
  else if Rlt_dec y 0 then - (PI / 2)
  else 0.

(** [Math.atan2(y, x)]. *)
Definition atan2 (y x : num) : num :=
  match y, x with
  | NaN, _ | _, NaN => NaN
  | Fin a, Fin b => Fin (atan2R a b)
  | Fin a, PInf => Fin 0
  | Fin a, NInf => if Rlt_dec a 0 then Fin (- PI) else Fin PI
  | PInf, Fin _ => Fin (PI / 2)
  | NInf, Fin _ => Fin (- (PI / 2))
  | PInf, PInf => Fin (PI / 4)
  | PInf, NInf => Fin (3 * PI / 4)
  | NInf, PInf => Fin (- (PI / 4))
  | NInf, NInf => Fin (- (3 * PI / 4))
  end.

(** [Math.PI]. *)
Definition MathPI : num := Fin PI.

(** A number that came from an integer (a count, a timestamp). *)
Definition ofZ (z : Z) : num := Fin (IZR z).

End Num.

Coercion Fin : R >-> num.

Notation "x + y" := (Num.add x y) : num_scope.
Notation "x - y" := (Num.sub x y) : num_scope.
Notation "x * y" := (Num.mul x y) : num_scope.
Notation "x / y" := (Num.div x y) : num_scope.
Notation "x >? y" := (Num.gt x y) (at level 70, no associativity) : num_scope.

(** ** JSON objects with numeric properties

    [rules: any] and the weight sets are JSON objects read property by
    property.  A property that is absent reads as [undefined]; in the
    arithmetic and the comparisons of the source [undefined] converts to
    NaN. *)

Definition JsObj : Type := list (string * num).

Fixpoint get (o : JsObj) (k : string) : option num :=
  match o with
  | [] => None
  | (k', v) :: o' => if String.eqb k' k then Some v else get o' k
  end.

Definition toNumber (v : option num) : num :=
  match v with
  | Some x => x
  | None => NaN
  end.

(** [o.k] used as a number. *)
Definition prop (o : JsObj) (k : string) : num := toNumber (get o k).

Notation "o @ k" := (prop o k) (at level 9, k at level 0, format "o @ k").

(** ** GeoDistance and LogisticsEstimator *)

Record LogisticsResult : Type := mkLogistics {
  mode : string;
  eta_hours : num;
  cost_est : num;
  distance_km : num
}.

Section Geo.
Local Open Scope num_scope.

(** Haversine formula to calculate distance between two coordinates. *)
Definition haversineDistance (lat1 lon1 lat2 lon2 : num) : num :=
  let R := Fin 6371 in
  let dLat := (lat2 - lat1) * Num.MathPI / Fin 180 in
  let dLon := (lon2 - lon1) * Num.MathPI / Fin 180 in
  let a :=
    Num.sin (dLat / Fin 2) * Num.sin (dLat / Fin 2) +
    Num.cos (lat1 * Num.MathPI / Fin 180) * Num.cos (lat2 * Num.MathPI / Fin 180) *
    Num.sin (dLon / Fin 2) * Num.sin (dLon / Fin 2) in
  let c := Fin 2 * Num.atan2 (Num.sqrt a) (Num.sqrt (Fin 1 - a)) in
  R * c.

(** Coordinates are pairs [lon, lat], as in [POINT(lon lat)]. *)
Definition Coords : Type := (num * num)%type.

Definition calculateLogistics (fromCoords toCoords : Coords) (rules : JsObj)
  : LogisticsResult :=
  let distance :=
    haversineDistance (snd fromCoords) (fst fromCoords)
                      (snd toCoords) (fst toCoords) in
  let '(mode, speed_kmh, base_cost, cost_per_km) :=
    if distance >? rules@"air_threshold_km" then
      ("air"%string, rules@"air_speed_kmh", rules@"air_base_cost",
       rules@"air_cost_per_km")
    else if distance >? rules@"rail_threshold_km" then
      ("rail"%string, rules@"rail_speed_kmh", rules@"rail_base_cost",
       rules@"rail_cost_per_km")
    else
      ("car"%string, rules@"car_speed_kmh", rules@"car_base_cost",
       rules@"car_cost_per_km") in
  let eta_hours := distance / speed_kmh in
  let cost_est := base_cost + (distance * cost_per_km) in
  mkLogistics mode eta_hours cost_est distance.

End Geo.

(** [distance(pointA, pointB)] on [lon, lat] pairs, as [calculateLogistics]
    calls the formula. *)
Definition distance (pointA pointB : Coords) : num :=
  haversineDistance (snd pointA) (fst pointA) (snd pointB) (fst pointB).

(** The quantity [a] of the formula, on real coordinates in degrees; the
    facts about [haversineDistance] are stated through it. *)
Definition haversineA (lat1 lon1 lat2 lon2 : R) : R :=
  (Rtrigo_def.sin ((lat2 - lat1) * PI / 180 / 2) *
   Rtrigo_def.sin ((lat2 - lat1) * PI / 180 / 2) +
   Rtrigo_def.cos (lat1 * PI / 180) * Rtrigo_def.cos (lat2 * PI / 180) *
   Rtrigo_def.sin ((lon2 - lon1) * PI / 180 / 2) *
   Rtrigo_def.sin ((lon2 - lon1) * PI / 180 / 2))%R.

(** ** [Array.prototype.sort] and [slice]

    The language requires [sort] to be stable, and a comparator result
    that is NaN counts as 0.  For a comparator that is a consistent order
    the result is the same for every conforming engine; it is computed here
    by a stable insertion: an element moves past the elements that the
    comparator places strictly before it, and no further.  For a
    comparator that is not consistent (here: scores of which some, and not
    all, are NaN) the language leaves the order to the engine and the
    insertion is one possible outcome; the order of a ranked list is
    stated below for scores that are numbers. *)

Section ArraySort.
Context {A : Type}.
Variable compareFn : A -> A -> num.

(** [compareFn a b > 0]: [a] sorts after [b]. *)
Definition sortsAfter (a b : A) : bool := Num.gt (compareFn a b) (Fin 0).

Fixpoint insertSorted (x : A) (l : list A) : list A :=
  match l with
  | [] => [x]
  | y :: l' => if sortsAfter x y then y :: insertSorted x l' else x :: l
  end.

Definition sort (l : list A) : list A := fold_right insertSorted [] l.

(** [a] may stand before [b]: it does not sort after it. *)
Definition inOrder (a b : A) : Prop := sortsAfter a b = false.

End ArraySort.

(** [l.slice(0, n)]. *)
Definition slice0 {A : Type} (n : nat) (l : list A) : list A := firstn n l.

(** ** The store *)

Inductive request_status : Type :=
| st_open | st_matching | st_assigned | st_closed | st_canceled.

(** A [GEOGRAPHY(POINT)] column as the function reads it: a text on which
    the pattern [/POINT\(([^ ]+) ([^ ]+)\)/] either matches, and then
    [parseFloat] of the two groups gives two numbers (NaN for a group that
    is not numeric), or does not match. *)
Inductive GeoText : Type :=
| PointText (x y : num)
| OtherText.

(** [assignment_requests] joined with [branches]; the timestamps are
    [TIMESTAMPTZ NOT NULL], read through [new Date(..).getTime()] as
    milliseconds. *)
Record RequestRow : Type := mkRequest {
  id : string;
  branches_coords : GeoText;
  must_start_by : Z;
  period_start : Z;
  status : request_status
}.

Record SubstituteRow : Type := mkSubstitute {
  employee_id : string;
  base_coords : GeoText;
  active : bool
}.

(** [settings]: [value_json] is [None] for a JSON null. *)
Record SettingRow : Type := mkSetting {
  key : string;
  value_json : option JsObj
}.

Record AssignmentRow : Type := mkAssignment {
  asg_substitute_id : string;
  created_at : Z
}.

(** The breakdown stored with a candidate.  [explanation] keeps the three
    numbers the template string formats. *)
Record Details : Type := mkDetails {
  speed_score : num;
  logistics_score : num;
  load_score : num;
  details_eta_hours : num;
  travel_cost : num;
  travel_mode : string;
  details_distance_km : num;
  recent_assignments : nat;
  explanation : num * num * num;
  weights : JsObj
}.

Record Candidate : Type := mkCandidate {
  request_id : string;
  substitute_id : string;
  score : num;
  scenario_type : string;
  details_json : Details;
  logistics_json : LogisticsResult
}.

Record Store : Type := mkStore {
  assignment_requests : list RequestRow;
  substitute_profiles : list SubstituteRow;
  settings : list SettingRow;
  assignments : list AssignmentRow;
  assignment_candidates : list Candidate
}.

(** ** The environment of one run *)

(** The calls of the database client, in the order of the source. *)
Inductive Call : Type :=
| FetchRequest
| FetchSubstitutes
| FetchSettings
| CountAssignments (tick : nat)
| DeleteCandidates
| InsertCandidates
| UpdateStatus.

(** [clock k] is what the [k]-th read of the system clock returns (in
    milliseconds); [fault c] tells whether call [c] comes back with an
    error. *)
Record Env : Type := mkEnv {
  clock : nat -> Z;
  fault : Call -> bool
}.

Inductive Response : Type :=
| Ok200 (candidates_count : nat) (scenarios : list string)
| Error500 (message : string).

Record Scenario : Type := mkScenario {
  type : string;
  scenario_weights : JsObj
}.

(** ** The handler *)

Section Handler.
Local Open Scope num_scope.

Definition defaultWeightsFallback : JsObj :=
  [("speed", Fin 0.4); ("logistics", Fin 0.35); ("load", Fin 0.25)]%string.
Definition fastWeightsFallback : JsObj :=
  [("speed", Fin 0.5); ("logistics", Fin 0.35); ("load", Fin 0.15)]%string.
Definition nearWeightsFallback : JsObj :=
  [("speed", Fin 0.25); ("logistics", Fin 0.6); ("load", Fin 0.15)]%string.

(** [settings?.find(s => s.key === k)?.value_json || fallback], where
    [settings] is [None] when the fetch gave no data. *)
Definition setting (settings : option (list SettingRow)) (k : string)
    (fallback : JsObj) : JsObj :=
  match settings with
  | None => fallback
  | Some rows =>
      match find (fun s => String.eqb (key s) k) rows with
      | Some row =>
          match value_json row with
          | Some v => v
          | None => fallback
          end
      | None => fallback
      end
  end.

(** [.match(..) ? [parseFloat(m[1]), parseFloat(m[2])] : [0, 0]]. *)
Definition parseCoords (g : GeoText) : Coords :=
  match g with
  | PointText x y => (x, y)
  | OtherText => (Fin 0, Fin 0)
  end.

(** Thirty days, in milliseconds ([setDate(getDate() - 30)] on a clock in
    UTC). *)
Definition thirtyDays : Z := 30 * 24 * 60 * 60 * 1000.

(** The count query on [assignments]: rows of the substitute created at or
    after [since]. *)
Definition countAssignments (st : Store) (sid : string) (since : Z) : nat :=
  List.length (filter (fun a => String.eqb (asg_substitute_id a) sid
                           && (since <=? created_at a)%Z)
                 (assignments st)).

(** One iteration of the inner loop: the candidate of one substitute under
    one scenario.  The iteration reads the clock at ticks [t] and [t+1]. *)
Definition scoreSubstitute (env : Env) (st : Store) (request_id : string)
    (request : RequestRow) (branchCoords : Coords) (logisticsRules : JsObj)
    (scenario : Scenario) (substitute : SubstituteRow) (t : nat) : Candidate :=
  let subCoords := parseCoords (base_coords substitute) in
  let logistics := calculateLogistics subCoords branchCoords logisticsRules in
  let mustStartBy := Num.ofZ (must_start_by request) in
  let hoursUntilStart :=
    (mustStartBy - Num.ofZ (clock env t)) / (Fin 1000 * Fin 60 * Fin 60) in
  let speedScore :=
    Num.max (Fin 0)
      (Num.min (Fin 100) ((hoursUntilStart / (Fin 24 * Fin 7)) * Fin 100)) in
  let logisticsScore :=
    Num.max (Fin 0)
      (Fin 100 - (eta_hours logistics / Fin 24) * Fin 50
               - (cost_est logistics / Fin 10000) * Fin 50) in
  let thirtyDaysAgo := (clock env (t + 1) - thirtyDays)%Z in
  let recentAssignments : option nat :=
    if fault env (CountAssignments t) then None
    else Some (countAssignments st (employee_id substitute) thirtyDaysAgo) in
  let recent := match recentAssignments with Some n => n | None => O end in
  let loadScore :=
    Num.max (Fin 0) (Fin 100 - Num.ofZ (Z.of_nat recent) * Fin 25) in
  let score :=
    speedScore * (scenario_weights scenario)@"speed" +
    logisticsScore * (scenario_weights scenario)@"logistics" +
    loadScore * (scenario_weights scenario)@"load" in
  mkCandidate request_id (employee_id substitute) score (type scenario)
    (mkDetails speedScore logisticsScore loadScore
       (eta_hours logistics) (cost_est logistics) (mode logistics)
       (distance_km logistics) recent
       (speedScore, logisticsScore, loadScore)
       (scenario_weights scenario))
    logistics.

(** The inner loop over the pool; returns the candidates and the next
    tick. *)
Fixpoint scoreSubstitutes (env : Env) (st : Store) (request_id : string)
    (request : RequestRow) (branchCoords : Coords) (logisticsRules : JsObj)
    (scenario : Scenario) (substitutes : list SubstituteRow) (t : nat)
  : list Candidate * nat :=
  match substitutes with
  | [] => ([], t)
  | substitute :: rest =>
      let c := scoreSubstitute env st request_id request branchCoords
                 logisticsRules scenario substitute t in
      let '(cs, t') := scoreSubstitutes env st request_id request branchCoords
                         logisticsRules scenario rest (t + 2) in
      (c :: cs, t')
  end.

(** [(a, b) => b.score - a.score]. *)
Definition byScore (a b : Candidate) : num := score b - score a.

(** Sort and take top 5 for this scenario. *)
Definition rankScenario (env : Env) (st : Store) (request_id : string)
    (request : RequestRow) (branchCoords : Coords) (logisticsRules : JsObj)
    (substitutes : list SubstituteRow) (scenario : Scenario) (t : nat)
  : list Candidate * nat :=
  let '(candidates, t') :=
    scoreSubstitutes env st request_id request branchCoords logisticsRules
      scenario substitutes t in
  (slice0 5 (sort byScore candidates), t').

(** The outer loop: [allCandidates] after the scenarios of [scenarios]. *)
Fixpoint rankScenarios (env : Env) (st : Store) (request_id : string)
    (request : RequestRow) (branchCoords : Coords) (logisticsRules : JsObj)
    (substitutes : list SubstituteRow) (scenarios : list Scenario) (t : nat)
  : list Candidate :=
  match scenarios with
  | [] => []
  | scenario :: rest =>
      let '(top, t') :=
        rankScenario env st request_id request branchCoords logisticsRules
          substitutes scenario t in
      top ++ rankScenarios env st request_id request branchCoords
               logisticsRules substitutes rest t'
  end.

(** [.from('assignment_requests').select(..).eq('id', request_id).single()]. *)
Definition fetchRequest (env : Env) (st : Store) (request_id : string)
  : string + RequestRow :=
  if fault env FetchRequest then inl "request fetch failed"%string
  else
    match filter (fun r => String.eqb (id r) request_id)
                 (assignment_requests st) with
    | [request] => inr request
    | _ => inl "JSON object requested, multiple (or no) rows returned"%string
    end.

(** [.from('substitute_profiles').select(..).eq('active', true)]. *)
Definition fetchSubstitutes (env : Env) (st : Store)
  : string + list SubstituteRow :=
  if fault env FetchSubstitutes then inl "substitutes fetch failed"%string
  else inr (filter active (substitute_profiles st)).

Definition settingKeys : list string :=
  ["logistics_rules"; "scoring_weights"; "scoring_weights_fast";
   "scoring_weights_near"]%string.

(** [.from('settings').select('*').in('key', [..])]; the error is not
    looked at, the data is then null. *)
Definition fetchSettings (env : Env) (st : Store) : option (list SettingRow) :=
  if fault env FetchSettings then None
  else Some (filter (fun s => existsb (String.eqb (key s)) settingKeys)
                    (settings st)).

(** The three scenarios of a run. *)
Definition scenariosOf (settings : option (list SettingRow)) : list Scenario :=
  let defaultWeights := setting settings "scoring_weights" defaultWeightsFallback in
  let fastWeights := setting settings "scoring_weights_fast" fastWeightsFallback in
  let nearWeights := setting settings "scoring_weights_near" nearWeightsFallback in
  [ mkScenario "default" defaultWeights;
    mkScenario "fast" fastWeights;
    mkScenario "near" nearWeights ].

(** [allCandidates], from what the first three fetches returned. *)
Definition computeCandidates (env : Env) (st : Store) (request_id : string)
    (request : RequestRow) (substitutes : list SubstituteRow) : list Candidate :=
  let settings := fetchSettings env st in
  let logisticsRules := setting settings "logistics_rules" [] in
  let branchCoords := parseCoords (branches_coords request) in
  rankScenarios env st request_id request branchCoords logisticsRules
    substitutes (scenariosOf settings) 0.

(** Delete old candidates for this request; the result of the call is not
    looked at. *)
Definition deleteCandidates (env : Env) (rid : string) (st : Store)
  : Store :=
  if fault env DeleteCandidates then st
  else mkStore (assignment_requests st) (substitute_profiles st) (settings st)
         (assignments st)
         (filter (fun c => negb (String.eqb (request_id c) rid))
                 (assignment_candidates st)).

Definition appendCandidates (allCandidates : list Candidate) (st : Store)
  : Store :=
  mkStore (assignment_requests st) (substitute_profiles st) (settings st)
    (assignments st) (assignment_candidates st ++ allCandidates).

(** Insert new candidates. *)
Definition insertCandidates (env : Env) (allCandidates : list Candidate)
    (st : Store) : string + Store :=
  if fault env InsertCandidates then inl "insert failed"%string
  else inr (appendCandidates allCandidates st).

(** [.update({ status: 'matching' }).eq('id', request_id)] on one row. *)
Definition setMatching (request_id : string) (r : RequestRow) : RequestRow :=
  if String.eqb (id r) request_id
  then mkRequest (id r) (branches_coords r) (must_start_by r) (period_start r)
         st_matching
  else r.

(** Update request status; the result of the call is not looked at. *)
Definition updateStatus (env : Env) (request_id : string) (st : Store)
  : Store :=
  if fault env UpdateStatus then st
  else mkStore (map (setMatching request_id) (assignment_requests st))
         (substitute_profiles st) (settings st) (assignments st)
         (assignment_candidates st).

(** The request handler: the response and the store it leaves.  A [throw]
    inside the [try] block is the [Error500] response, with the store as
    it is at that point. *)
Definition serve (env : Env) (request_id : string) (st : Store)
  : Response * Store :=
  match fetchRequest env st request_id with
  | inl requestError => (Error500 requestError, st)
  | inr request =>
      match fetchSubstitutes env st with
      | inl substitutesError => (Error500 substitutesError, st)
      | inr substitutes =>
          let allCandidates :=
            computeCandidates env st request_id request substitutes in
          let st1 := deleteCandidates env request_id st in
          let respond (st' : Store) :=
            (Ok200 (List.length allCandidates)
                   (map type (scenariosOf (fetchSettings env st))),
             updateStatus env request_id st') in
          if (0 <? List.length allCandidates)%nat then
            match insertCandidates env allCandidates st1 with
            | inl insertError => (Error500 insertError, st1)
            | inr st2 => respond st2
            end
          else respond st1
      end
  end.

End Handler.

(** ** Notions the properties are stated with *)

(** A score component within [0, 100]. *)
Definition inRange (x : num) : bool :=
  Num.ge x (Fin 0) && Num.ge (Fin 100) x.

(** [a] stands before [b] in a list in descending order of score. *)
Definition descending (a b : Candidate) : Prop :=
  Num.ge (score a) (score b) = true.

(** The rows of a candidate table for one (request, scenario_type). *)
Definition scenarioSet (rid t : string) (cs : list Candidate) : list Candidate :=
  filter (fun c => String.eqb (request_id c) rid
                   && String.eqb (scenario_type c) t) cs.

(** The rows of a candidate table for one request. *)
Definition candidatesOf (rid : string) (cs : list Candidate) : list Candidate :=
  filter (fun c => String.eqb (request_id c) rid) cs.

(** The candidates of the whole pool under the [i]-th scenario of a run,
    in the order of the pool; the scenario starts at tick
    [i * 2 * pool size]. *)
Definition scoredFor (env : Env) (st : Store) (rid : string)
    (request : RequestRow) (substitutes : list SubstituteRow) (i : nat)
  : list Candidate :=
  let settings := fetchSettings env st in
  match nth_error (scenariosOf settings) i with
  | Some scenario =>
      fst (scoreSubstitutes env st rid request
             (parseCoords (branches_coords request))
             (setting settings "logistics_rules" []) scenario substitutes
             (i * (2 * List.length substitutes)))
  | None => []
  end.

(** The ranked list of the [i]-th scenario of a run. *)
Definition rankedFor (env : Env) (st : Store) (rid : string)
    (request : RequestRow) (substitutes : list SubstituteRow) (i : nat)
  : list Candidate :=
  let settings := fetchSettings env st in
  match nth_error (scenariosOf settings) i with
  | Some scenario =>
      fst (rankScenario env st rid request
             (parseCoords (branches_coords request))
             (setting settings "logistics_rules" []) substitutes scenario
             (i * (2 * List.length substitutes)))
  | None => []
  end.

(** A profile as the handler sees it: an unreadable location counts as the
    point (0, 0). *)
Definition relocated (s : SubstituteRow) : SubstituteRow :=
  match base_coords s with
  | PointText _ _ => s
  | OtherText => mkSubstitute (employee_id s) (PointText (Fin 0) (Fin 0)) (active s)
  end.

(** Two candidates carry the same breakdown, the weight set apart. *)
Definition sameBreakdown (c1 c2 : Candidate) : Prop :=
  let d1 := details_json c1 in
  let d2 := details_json c2 in
  speed_score d1 = speed_score d2 /\
  logistics_score d1 = logistics_score d2 /\
  load_score d1 = load_score d2 /\
  travel_mode d1 = travel_mode d2 /\
  details_distance_km d1 = details_distance_km d2 /\
  details_eta_hours d1 = details_eta_hours d2 /\
  travel_cost d1 = travel_cost d2 /\
  recent_assignments d1 = recent_assignments d2 /\
  explanation d1 = explanation d2 /\
  logistics_json c1 = logistics_json c2.

(** The final score is the weighted sum of the recorded sub-scores under
    the recorded weight set. *)
Definition weightedScore (c : Candidate) : num :=
  let d := details_json c in
  (speed_score d * (weights d)@"speed" +
   logistics_score d * (weights d)@"logistics" +
   load_score d * (weights d)@"load")%num.

(** ** Sample data

    A request of the Moscow office, substitutes based in Moscow, and the
    rows the schema migration seeds; the witnesses and the counterexamples
    below run the handler on them. *)

Definition moscow : GeoText := PointText (Fin 37.6173) (Fin 55.7558).

(** A clock that stands at the epoch and a client that never fails. *)
Definition quietEnv : Env := mkEnv (fun _ => 0%Z) (fun _ => false).

(** The same, with an insert that fails. *)
Definition insertFailsEnv : Env :=
  mkEnv (fun _ => 0%Z)
        (fun c => match c with InsertCandidates => true | _ => false end).

(** The request must start within four days. *)
Definition sampleRequest : RequestRow :=
  mkRequest "req-1" moscow 345600000 432000000 st_open.

Definition elena : SubstituteRow := mkSubstitute "emp-1" moscow true.
Definition olga : SubstituteRow := mkSubstitute "emp-2" moscow true.

(** A profile whose location text does not match the pattern. *)
Definition unlocated : SubstituteRow := mkSubstitute "emp-3" OtherText true.

(** The [logistics_rules] row that the schema migration seeds: the
    documented defaults. *)
Definition seededLogisticsRules : JsObj :=
  [("air_threshold_km", Fin 1500); ("rail_threshold_km", Fin 200);
   ("air_speed_kmh", Fin 700); ("rail_speed_kmh", Fin 80);
   ("car_speed_kmh", Fin 60); ("air_base_cost", Fin 5000);
   ("rail_base_cost", Fin 1500); ("car_base_cost", Fin 500);
   ("air_cost_per_km", Fin 3); ("rail_cost_per_km", Fin 1);
   ("car_cost_per_km", Fin 0.5)]%string.

Definition seededSettings : list SettingRow :=
  [ mkSetting "scoring_weights" (Some defaultWeightsFallback);
    mkSetting "scoring_weights_fast" (Some fastWeightsFallback);
    mkSetting "scoring_weights_near" (Some nearWeightsFallback);
    mkSetting "logistics_rules" (Some seededLogisticsRules) ]%string.


Definition defaultScenario : Scenario :=
  mkScenario "default" defaultWeightsFallback.
Definition nearScenario : Scenario :=
  mkScenario "near" nearWeightsFallback.

(** A candidate row left by an earlier run. *)
Definition staleCandidate : Candidate :=
  mkCandidate "req-1" "emp-9" (Fin 50) "default"
    (mkDetails (Fin 50) (Fin 50) (Fin 50) (Fin 1) (Fin 560) "car" (Fin 60) 0
       (Fin 50, Fin 50, Fin 50) defaultWeightsFallback)
    (mkLogistics "car" (Fin 1) (Fin 560) (Fin 60)).

Definition sampleStore (pool : list SubstituteRow) (rows : list SettingRow)
  : Store :=
  mkStore [sampleRequest] pool rows [] [staleCandidate].

(** Olga listed before Elena, and one assignment of Olga a day before the
    clock reading. *)
Definition busyStore : Store :=
  mkStore [sampleRequest] [olga; elena] seededSettings
    [mkAssignment "emp-2" (-86400000)] [staleCandidate].

(* ================================================================== *)
(** * Part I, continued: the location texts, the rules in use, the
      request page *)
(* ================================================================== *)

From Stdlib Require Import Ascii.

(** ** The location pattern on texts

    [/POINT\(([^ ]+) ([^ ]+)\)/], as [String.prototype.match] applies it:
    the leftmost match, each group as long as it can be.  The first group
    is a whole run of characters other than the space, since a space has to
    follow it.  The second group lies in the next such run and has to be
    followed by a closing parenthesis, so it ends before the last
    parenthesis of that run that has a character before it. *)

(** [[^ ]]. *)
Definition notSpace (c : ascii) : bool := negb (Ascii.eqb c " ").

(** The longest run of characters other than the space that [s] starts
    with, and the rest of [s]. *)
Fixpoint spanNotSpace (s : string) : string * string :=
  match s with
  | EmptyString => (EmptyString, EmptyString)
  | String c s' =>
      if notSpace c then
        let '(run, rest) := spanNotSpace s' in (String c run, rest)
      else (EmptyString, s)
  end.

(** [s] after the prefix [p], when [s] starts with [p]. *)
Fixpoint stripPrefix (p s : string) : option string :=
  match p, s with
  | EmptyString, _ => Some s
  | String _ _, EmptyString => None
  | String a p', String b s' =>
      if Ascii.eqb a b then stripPrefix p' s' else None
  end.

(** The longest non-empty prefix of the run [r] that a closing parenthesis
    follows. *)
Fixpoint upToLastParen (r : string) : option string :=
  match r with
  | EmptyString => None
  | String c r' =>
      match upToLastParen r' with
      | Some g => Some (String c g)
      | None =>
          match r' with
          | String ")" _ => Some (String c EmptyString)
          | _ => None
          end
      end
  end.

(** The pattern applied at the start of [s]: the two groups. *)
Definition matchPointHere (s : string) : option (string * string) :=
  match stripPrefix "POINT(" s with
  | None => None
  | Some rest =>
      let '(g1, rest1) := spanNotSpace rest in
      match g1, rest1 with
      | String _ _, String _ rest2 =>
          let '(r2, _) := spanNotSpace rest2 in
          match upToLastParen r2 with
          | Some g2 => Some (g1, g2)
          | None => None
          end
      | _, _ => None
      end
  end.

(** [s.match(/POINT\(([^ ]+) ([^ ]+)\)/)]: the groups of the leftmost
    match, [None] for [null]. *)
Fixpoint matchPoint (s : string) : option (string * string) :=
  match matchPointHere s with
  | Some groups => Some groups
  | None =>
      match s with
      | EmptyString => None
      | String _ s' => matchPoint s'
      end
  end.

(** [s] holds the pattern at some place, with the groups [a] and [b]. *)
Definition holdsPoint (s a b : string) : Prop :=
  exists before rest,
    s = (before ++ "POINT(" ++ a ++ " " ++ b ++ ")" ++ rest)%string.

(** A group: not empty, and no space in it. *)
Fixpoint noSpace (s : string) : bool :=
  match s with
  | EmptyString => true
  | String c s' => notSpace c && noSpace s'
  end.

Definition isGroup (s : string) : bool :=
  match s with
  | EmptyString => false
  | String _ _ => noSpace s
  end.

Section ReadLocation.

(** [parseFloat] is the language's; the two readers below apply it to the
    groups and nothing is assumed of it. *)
Variable parseFloat : string -> num.

(** The location column as the handler reads it (lines 96-99 and
    115-118). *)
Definition readGeo (text : string) : GeoText :=
  match matchPoint text with
  | Some (a, b) => PointText (parseFloat a) (parseFloat b)
  | None => OtherText
  end.

(** [{ lon, lat }] of the branches page. *)
Record LonLat : Type := mkLonLat { lon : num; lat : num }.

(** [parseCoords] of the branches page: [null] when the pattern does not
    match. *)
Definition pageParseCoords (coords : string) : option LonLat :=
  match matchPoint coords with
  | Some (a, b) => Some (mkLonLat (parseFloat a) (parseFloat b))
  | None => None
  end.

End ReadLocation.

(** ** Notions on numbers, rules and weights *)

(** A number that is neither NaN nor an infinity. *)
Definition isFinite (x : num) : bool :=
  match x with
  | Fin _ => true
  | _ => false
  end.

(** [o.k] is a finite number that satisfies [P]. *)
Definition propIs (o : JsObj) (k : string) (P : R -> Prop) : Prop :=
  exists r, o@k = Fin r /\ P r.

(** The rules of one travel mode: a positive speed, a base cost and a cost
    per kilometre that are not negative. *)
Definition modeRules (rules : JsObj) (m : string) : Prop :=
  propIs rules (m ++ "_speed_kmh") (fun v => 0 < v)%R /\
  propIs rules (m ++ "_base_cost") (fun b => 0 <= b)%R /\
  propIs rules (m ++ "_cost_per_km") (fun k => 0 <= k)%R.

(** Rules under which every mode can be priced; the thresholds are
    free. *)
Definition pricedRules (rules : JsObj) : Prop :=
  modeRules rules "car" /\ modeRules rules "rail" /\ modeRules rules "air".


(** ** The request page

    [RequestDetails.tsx]: the page that calls the handler, shows the
    stored candidates in three tabs and creates the assignment.  Its own
    calls of the client fail as told by [pageFault]; [dbNow] is the time
    the database stamps an inserted row with. *)

Inductive PageCall : Type :=
| PageSetMatching
| PageInvoke
| PageInsertAssignment
| PageSetAssigned
| PageFetchRequest.

Record PageEnv : Type := mkPageEnv {
  pageFault : PageCall -> bool;
  dbNow : Z
}.

Inductive Toast : Type :=
| MatchingComplete (found : nat)
| MatchingFailed
| AssignmentCreated
| AssignmentFailed.

(** [.update({ status }).eq("id", id)] on one row. *)
Definition setStatus (s : request_status) (rid : string) (r : RequestRow)
  : RequestRow :=
  if String.eqb (id r) rid
  then mkRequest (id r) (branches_coords r) (must_start_by r) (period_start r) s
  else r.

(** A status update of the page; the result of the call is not looked
    at. *)
Definition pageUpdateStatus (failed : bool) (s : request_status)
    (rid : string) (st : Store) : Store :=
  if failed then st
  else mkStore (map (setStatus s rid) (assignment_requests st))
         (substitute_profiles st) (settings st) (assignments st)
         (assignment_candidates st).

(** [runMatching]: the status goes to "matching", then the handler is
    invoked; an error of the invocation, or an answer that is not a
    success, is the "Matching Failed" toast. *)
Definition runMatching (page : PageEnv) (env : Env) (rid : string)
    (st : Store) : Toast * Store :=
  let st1 := pageUpdateStatus (pageFault page PageSetMatching) st_matching
               rid st in
  if pageFault page PageInvoke then (MatchingFailed, st1)
  else
    match serve env rid st1 with
    | (Ok200 candidates_count _, st2) => (MatchingComplete candidates_count, st2)
    | (Error500 _, st2) => (MatchingFailed, st2)
    end.

(** [assignCandidate(candidateId, substituteId)]: insert the assignment,
    then set the status to "assigned"; a failed insert is the "Assignment
    Failed" toast and stops there. *)
Definition assignCandidate (page : PageEnv) (rid : string)
    (candidateId substituteId : string) (st : Store) : Toast * Store :=
  if pageFault page PageInsertAssignment then (AssignmentFailed, st)
  else
    let st1 :=
      mkStore (assignment_requests st) (substitute_profiles st) (settings st)
        (assignments st ++ [mkAssignment substituteId (dbNow page)])
        (assignment_candidates st) in
    (AssignmentCreated,
     pageUpdateStatus (pageFault page PageSetAssigned) st_assigned rid st1).

(** The page keeps a copy of the request ([useState]) and its buttons read
    the status of that copy.  [fetchRequest] of the page replaces the copy
    when the query gives one row; otherwise the error is a toast and the
    copy stays. *)
Definition pageFetchRequest (page : PageEnv) (rid : string) (st : Store)
    (shown : option RequestRow) : option RequestRow :=
  if pageFault page PageFetchRequest then shown
  else
    match filter (fun r => String.eqb (id r) rid) (assignment_requests st) with
    | [data] => Some data
    | _ => shown
    end.

(** [runMatching] with the copy of the page: the request is fetched again
    after an invocation that succeeded, and not after one that failed. *)
Definition runMatchingShown (page : PageEnv) (env : Env) (rid : string)
    (shown : option RequestRow) (st : Store)
  : Toast * option RequestRow * Store :=
  match runMatching page env rid st with
  | (MatchingComplete found, st') =>
      (MatchingComplete found, pageFetchRequest page rid st' shown, st')
  | (toast, st') => (toast, shown, st')
  end.

(** What [fetchCandidates] may return: the rows of the request, in the
    order the database gives them (by score, descending). *)
Definition fetchedCandidates (st : Store) (rid : string)
    (rows : list Candidate) : Prop :=
  Permutation rows (candidatesOf rid (assignment_candidates st)).

(** The rows of one tab: [candidates.filter(c => c.scenario_type === ty)]. *)
Definition tab (ty : string) (candidates : list Candidate) : list Candidate :=
  filter (fun c => String.eqb (scenario_type c) ty) candidates.

(** The "Assign" button is enabled: [disabled] is
    [requestStatus !== "matching" && requestStatus !== "open"]. *)
Definition canAssign (requestStatus : request_status) : bool :=
  match requestStatus with
  | st_matching | st_open => true
  | _ => false
  end.

(** The "Run Matching" button is enabled: [disabled] is
    [matching || request.status === "closed"]. *)
Definition canRunMatching (matching : bool) (requestStatus : request_status)
  : bool :=
  match requestStatus with
  | st_closed => false
  | _ => negb matching
  end.

(** The two buttons as the page shows them, from its copy of the
    request. *)
Definition assignShown (shown : option RequestRow) : bool :=
  match shown with
  | Some request => canAssign (status request)
  | None => false
  end.

Definition runMatchingShownEnabled (matching : bool)
    (shown : option RequestRow) : bool :=
  match shown with
  | Some request => canRunMatching matching (status request)
  | None => false
  end.

(** The status of the request [rid] in a store, when it has one row. *)
Definition statusOf (rid : string) (st : Store) : option request_status :=
  match filter (fun r => String.eqb (id r) rid) (assignment_requests st) with
  | [r] => Some (status r)
  | _ => None
  end.

(** Two request rows that the handler cannot tell apart: it reads the
    identifier, the location of the branch and [must_start_by]. *)
Definition sameReads (r1 r2 : RequestRow) : Prop :=
  id r1 = id r2 /\ branches_coords r1 = branches_coords r2 /\
  must_start_by r1 = must_start_by r2.

(** A number that is NaN or an infinity. *)
Definition notFinite (x : num) : Prop := isFinite x = false.

(* ================================================================== *)
(** * Part II: properties *)
(* ================================================================== *)

Open Scope R_scope.

(** ** Facts about numbers *)

Module NumFacts.

Lemma Rlt_dec_true (A : Type) (a b : R) (x y : A) :
  a < b -> (if Rlt_dec a b then x else y) = x.
Proof. intros H. destruct (Rlt_dec a b); [reflexivity | contradiction]. Qed.

Lemma Rlt_dec_false (A : Type) (a b : R) (x y : A) :
  ~ a < b -> (if Rlt_dec a b then x else y) = y.
Proof. intros H. destruct (Rlt_dec a b); [contradiction | reflexivity]. Qed.


Lemma Req_dec_false (A : Type) (a b : R) (x y : A) :
  a <> b -> (if Req_dec_T a b then x else y) = y.
Proof. intros H. destruct (Req_dec_T a b); [contradiction | reflexivity]. Qed.

Lemma gt_Fin (a b : R) : Num.gt (Fin a) (Fin b) = true <-> b < a.
Proof.
  simpl. destruct (Rlt_dec b a); split; intros; try easy.
Qed.

Lemma gt_Fin_false (a b : R) : Num.gt (Fin a) (Fin b) = false <-> a <= b.
Proof.
  simpl. destruct (Rlt_dec b a); split; intros; try easy; lra.
Qed.

Lemma ge_Fin (a b : R) : Num.ge (Fin a) (Fin b) = true <-> b <= a.
Proof.
  simpl. destruct (Rlt_dec a b); split; intros; try easy; lra.
Qed.

Lemma eqb_Fin (a b : R) : Num.eqb (Fin a) (Fin b) = true <-> a = b.
Proof.
  simpl. destruct (Req_dec_T a b); split; intros; try easy.
Qed.

Lemma gt_irrefl (x : num) : Num.gt x x = false.
Proof.
  destruct x; simpl; try reflexivity.
  apply Rlt_dec_false. lra.
Qed.

Lemma gt_asym (x y : num) : Num.gt x y = true -> Num.gt y x = false.
Proof.
  destruct x as [ | | a | ], y as [ | | b | ]; simpl; try easy.
  destruct (Rlt_dec b a); [ | easy]. intros _. apply Rlt_dec_false. lra.
Qed.

Lemma div_Fin (a b : R) : b <> 0 -> Num.div (Fin a) (Fin b) = Fin (a / b).
Proof. intros H. simpl. now apply Req_dec_false. Qed.

Lemma sub_Fin (a b : R) : Num.sub (Fin a) (Fin b) = Fin (a - b).
Proof. reflexivity. Qed.

Lemma max_Fin (a b : R) : Num.max (Fin a) (Fin b) = Fin (Rmax a b).
Proof.
  simpl. unfold Rmax.
  destruct (Rlt_dec a b), (Rle_dec a b); try reflexivity; try (f_equal; lra).
Qed.

Lemma min_Fin (a b : R) : Num.min (Fin a) (Fin b) = Fin (Rmin a b).
Proof.
  simpl. unfold Rmin.
  destruct (Rlt_dec b a), (Rle_dec a b); try reflexivity; try (f_equal; lra).
Qed.


(** NaN absorbs the arithmetic. *)
Lemma add_NaN_l (x : num) : Num.add NaN x = NaN.
Proof. reflexivity. Qed.

Lemma add_NaN_r (x : num) : Num.add x NaN = NaN.
Proof. now destruct x. Qed.

Lemma sub_NaN_l (x : num) : Num.sub NaN x = NaN.
Proof. reflexivity. Qed.

Lemma sub_NaN_r (x : num) : Num.sub x NaN = NaN.
Proof. now destruct x. Qed.

Lemma mul_NaN_l (x : num) : Num.mul NaN x = NaN.
Proof. reflexivity. Qed.

Lemma mul_NaN_r (x : num) : Num.mul x NaN = NaN.
Proof. now destruct x. Qed.

Lemma div_NaN_l (x : num) : Num.div NaN x = NaN.
Proof. reflexivity. Qed.

Lemma div_NaN_r (x : num) : Num.div x NaN = NaN.
Proof. now destruct x. Qed.

Lemma max_NaN_r (x : num) : Num.max x NaN = NaN.
Proof. now destruct x. Qed.

Lemma gt_NaN_r (x : num) : Num.gt x NaN = false.
Proof. now destruct x. Qed.

(** On numbers other than NaN, the sign of [y - x] is the comparison. *)
Lemma gt_sub_0 (x y : num) :
  x <> NaN -> y <> NaN ->
  Num.gt (Num.sub y x) (Fin 0) = Num.gt y x.
Proof.
  destruct x as [ | | a | ], y as [ | | b | ]; simpl; try easy; intros _ _.
  destruct (Rlt_dec 0 (b + - a)), (Rlt_dec a b); try reflexivity; lra.
Qed.

Lemma gt_sub_asym (x y : num) :
  Num.gt (Num.sub y x) (Fin 0) = true -> Num.gt (Num.sub x y) (Fin 0) = false.
Proof.
  destruct x as [ | | a | ], y as [ | | b | ]; simpl; try easy.
  destruct (Rlt_dec 0 (b + - a)); [ | easy]. intros _.
  apply Rlt_dec_false. lra.
Qed.

Lemma ge_not_gt (x y : num) :
  x <> NaN -> y <> NaN -> Num.ge x y = negb (Num.gt y x).
Proof.
  destruct x as [ | | a | ], y as [ | | b | ]; simpl; try easy; intros _ _.
  now destruct (Rlt_dec a b).
Qed.

Lemma ge_trans (x y z : num) :
  Num.ge x y = true -> Num.ge y z = true -> Num.ge x z = true.
Proof.
  destruct x as [ | | a | ], y as [ | | b | ], z as [ | | c | ];
    simpl; try easy.
  destruct (Rlt_dec a b), (Rlt_dec b c), (Rlt_dec a c); try easy. lra.
Qed.

(** Two numbers equal to a third one tie under [b - a]. *)
Lemma eqb_sub_tie (a b v : num) :
  Num.eqb a v = true -> Num.eqb b v = true ->
  Num.gt (Num.sub b a) (Fin 0) = false.
Proof.
  destruct a as [ | | a | ], b as [ | | b | ], v as [ | | v | ];
    simpl; try easy.
  destruct (Req_dec_T a v), (Req_dec_T b v); try easy. intros _ _.
  apply Rlt_dec_false. lra.
Qed.

End NumFacts.

Create Rewrite HintDb nan.
#[global] Hint Rewrite NumFacts.add_NaN_r NumFacts.sub_NaN_r NumFacts.mul_NaN_r
  NumFacts.div_NaN_r NumFacts.max_NaN_r NumFacts.gt_NaN_r : nan.


(** ** GeoDistance *)

Module GeoFacts.
Import NumFacts.

Lemma haversineA_sym (lat1 lon1 lat2 lon2 : R) :
  haversineA lat1 lon1 lat2 lon2 = haversineA lat2 lon2 lat1 lon1.
Proof.
  unfold haversineA.
  replace ((lat1 - lat2) * PI / 180 / 2) with (- ((lat2 - lat1) * PI / 180 / 2))
    by lra.
  replace ((lon1 - lon2) * PI / 180 / 2) with (- ((lon2 - lon1) * PI / 180 / 2))
    by lra.
  rewrite !sin_neg. ring.
Qed.

Lemma sin_sqr_half (x : R) : 2 * (sin (x / 2) * sin (x / 2)) = 1 - cos x.
Proof.
  replace x with (2 * (x / 2)) at 3 by lra.
  rewrite cos_2a_sin. ring.
Qed.

Lemma sin_sqr_bounds (x : R) : 0 <= sin x * sin x <= 1.
Proof.
  pose proof (sin2_cos2 x) as H. unfold Rsqr in H.
  pose proof (Rle_0_sqr (sin x)) as Hs. pose proof (Rle_0_sqr (cos x)) as Hc.
  unfold Rsqr in Hs, Hc. lra.
Qed.

(** The quantity [a] is a haversine of the central angle: it lies in
    [0, 1] for all coordinates, so both square roots are of non-negative
    numbers. *)
Lemma haversineA_bounds (lat1 lon1 lat2 lon2 : R) :
  0 <= haversineA lat1 lon1 lat2 lon2 <= 1.
Proof.
  unfold haversineA.
  pose proof (sin_sqr_half ((lat2 - lat1) * PI / 180)) as HX.
  replace ((lat2 - lat1) * PI / 180) with (lat2 * PI / 180 - lat1 * PI / 180)
    in HX at 3 by lra.
  rewrite cos_minus in HX.
  pose proof (sin_sqr_bounds ((lon2 - lon1) * PI / 180 / 2)) as Hq.
  pose proof (sin2_cos2 (lat1 * PI / 180)) as H1.
  pose proof (sin2_cos2 (lat2 * PI / 180)) as H2.
  unfold Rsqr in H1, H2.
  set (X := sin ((lat2 - lat1) * PI / 180 / 2) * sin ((lat2 - lat1) * PI / 180 / 2)) in *.
  set (sv := sin ((lon2 - lon1) * PI / 180 / 2)) in *.
  set (s1 := sin (lat1 * PI / 180)) in *. set (c1 := cos (lat1 * PI / 180)) in *.
  set (s2 := sin (lat2 * PI / 180)) in *. set (c2 := cos (lat2 * PI / 180)) in *.
  assert (Hq' : 0 <= c2 * c2 * ((sv * sv) * (1 - sv * sv))).
  { apply Rmult_le_pos; [apply Rle_0_sqr | apply Rmult_le_pos; lra]. }
  pose proof (Rle_0_sqr (s1 - s2)) as P1.
  pose proof (Rle_0_sqr (c1 - (1 - 2 * (sv * sv)) * c2)) as P2.
  pose proof (Rle_0_sqr (s1 + s2)) as P3.
  pose proof (Rle_0_sqr (c1 + (1 - 2 * (sv * sv)) * c2)) as P4.
  unfold Rsqr in P1, P2, P3, P4.
  split; nra.
Qed.

Lemma haversine_Fin (lat1 lon1 lat2 lon2 : R) :
  haversineDistance (Fin lat1) (Fin lon1) (Fin lat2) (Fin lon2) =
  Fin (6371 * (2 * Num.atan2R (sqrt (haversineA lat1 lon1 lat2 lon2))
                              (sqrt (1 - haversineA lat1 lon1 lat2 lon2)))).
Proof.
  pose proof (haversineA_bounds lat1 lon1 lat2 lon2) as [Ha0 Ha1].
  unfold haversineDistance, Num.MathPI.
  rewrite !sub_Fin. cbn [Num.mul]. rewrite !div_Fin by lra.
  cbn [Num.sin Num.cos Num.mul Num.add].
  fold (haversineA lat1 lon1 lat2 lon2).
  rewrite sub_Fin. unfold Num.sqrt.
  rewrite !Rlt_dec_false by lra.
  reflexivity.
Qed.

Lemma atan2R_0_1 : Num.atan2R 0 1 = 0.
Proof.
  unfold Num.atan2R. rewrite Rlt_dec_true by lra.
  replace (0 / 1) with 0 by lra. apply atan_0.
Qed.

Lemma haversineA_self (lat lon : R) : haversineA lat lon lat lon = 0.
Proof.
  unfold haversineA.
  replace ((lat - lat) * PI / 180 / 2) with 0 by lra.
  replace ((lon - lon) * PI / 180 / 2) with 0 by lra.
  rewrite sin_0. ring.
Qed.

Lemma haversine_self (lat lon : R) :
  haversineDistance (Fin lat) (Fin lon) (Fin lat) (Fin lon) = Fin 0.
Proof.
  rewrite haversine_Fin, haversineA_self.
  replace (1 - 0) with 1 by lra. rewrite sqrt_0, sqrt_1, atan2R_0_1.
  f_equal. lra.
Qed.

(** [atan2] of two square roots is an angle of the first quadrant; it is 0
    only when the first square root is. *)
Lemma atan2R_nonneg (y x : R) : 0 <= y -> 0 <= x -> 0 <= Num.atan2R y x.
Proof.
  intros Hy Hx. unfold Num.atan2R.
  destruct (Rlt_dec 0 x) as [Hpos | Hnpos].
  - destruct (Req_dec_T y 0) as [-> | Hy0].
    + replace (0 / x) with 0 by (field; lra). rewrite atan_0. lra.
    + left. rewrite <- atan_0. apply atan_increasing.
      apply Rdiv_lt_0_compat; lra.
  - rewrite Rlt_dec_false by lra.
    destruct (Rlt_dec 0 y).
    + pose proof PI_RGT_0. lra.
    + rewrite Rlt_dec_false by lra. lra.
Qed.

Lemma atan2R_eq_0 (y x : R) :
  0 <= y -> 0 <= x -> Num.atan2R y x = 0 -> y = 0.
Proof.
  intros Hy Hx. unfold Num.atan2R.
  destruct (Rlt_dec 0 x) as [Hpos | Hnpos].
  - intros H. apply atan_eq0 in H.
    apply (Rmult_eq_compat_r x) in H. unfold Rdiv in H.
    rewrite Rmult_assoc, Rinv_l, Rmult_0_l in H by lra. lra.
  - rewrite Rlt_dec_false by lra.
    destruct (Rlt_dec 0 y).
    + pose proof PI_RGT_0. lra.
    + lra.
Qed.

Lemma sin_eq_0_near (x : R) : - PI < x < PI -> sin x = 0 -> x = 0.
Proof.
  intros [Hl Hu] Hs.
  destruct (Rtotal_order x 0) as [Hneg | [H0 | Hpos]]; [ | assumption | ].
  - pose proof (sin_gt_0 (- x)) as H. rewrite sin_neg in H. lra.
  - pose proof (sin_gt_0 x). lra.
Qed.


Lemma haversine_zero (lat1 lon1 lat2 lon2 : R) :
  haversineDistance (Fin lat1) (Fin lon1) (Fin lat2) (Fin lon2) = Fin 0 <->
  haversineA lat1 lon1 lat2 lon2 = 0.
Proof.
  pose proof (haversineA_bounds lat1 lon1 lat2 lon2) as [Ha0 Ha1].
  rewrite haversine_Fin. split.
  - intros H. injection H as H.
    apply sqrt_eq_0; [assumption | ].
    apply (atan2R_eq_0 _ (sqrt (1 - haversineA lat1 lon1 lat2 lon2)));
      [apply sqrt_pos | apply sqrt_pos | lra].
  - intros ->. replace (1 - 0) with 1 by lra.
    rewrite sqrt_0, sqrt_1, atan2R_0_1. f_equal. lra.
Qed.

Lemma haversineA_zero_inside (lat1 lon1 lat2 lon2 : R) :
  -90 < lat1 < 90 -> -90 < lat2 < 90 ->
  -180 < lon1 <= 180 -> -180 < lon2 <= 180 ->
  haversineA lat1 lon1 lat2 lon2 = 0 -> lat1 = lat2 /\ lon1 = lon2.
Proof.
  intros Hlat1 Hlat2 Hlon1 Hlon2. unfold haversineA.
  pose proof PI_RGT_0 as Hpi.
  assert (Hc1 : 0 < cos (lat1 * PI / 180)) by (apply cos_gt_0; nra).
  assert (Hc2 : 0 < cos (lat2 * PI / 180)) by (apply cos_gt_0; nra).
  set (u := (lat2 - lat1) * PI / 180 / 2).
  set (v := (lon2 - lon1) * PI / 180 / 2).
  intros Ha.
  pose proof (Rle_0_sqr (sin u)) as Hu. pose proof (Rle_0_sqr (sin v)) as Hv.
  unfold Rsqr in Hu, Hv.
  assert (Hcc : 0 < cos (lat1 * PI / 180) * cos (lat2 * PI / 180))
    by (apply Rmult_lt_0_compat; assumption).
  assert (Hsu : sin u * sin u = 0) by nra.
  assert (Hsv : sin v * sin v = 0) by nra.
  apply Rsqr_0_uniq in Hsu. apply Rsqr_0_uniq in Hsv.
  apply sin_eq_0_near in Hsu; [ | unfold u; split; nra].
  apply sin_eq_0_near in Hsv; [ | unfold v; split; nra].
  unfold u in Hsu. unfold v in Hsv. split; nra.
Qed.

(** Along a meridian the distance is the radius times the difference of
    latitude in radians. *)
Lemma haversine_meridian (lat1 lat2 lon : R) :
  0 <= lat2 - lat1 < 180 ->
  haversineDistance (Fin lat1) (Fin lon) (Fin lat2) (Fin lon) =
  Fin (6371 * ((lat2 - lat1) * PI / 180)).
Proof.
  intros Hd. pose proof PI_RGT_0 as Hpi.
  rewrite haversine_Fin. unfold haversineA.
  set (u := (lat2 - lat1) * PI / 180 / 2).
  assert (Hu : 0 <= u < PI / 2) by (unfold u; split; nra).
  replace ((lon - lon) * PI / 180 / 2) with 0 by lra.
  rewrite sin_0, !Rmult_0_r, Rplus_0_r.
  assert (Hs : 0 <= sin u) by (apply sin_ge_0; lra).
  assert (Hc : 0 < cos u) by (apply cos_gt_0; lra).
  rewrite (sqrt_square _ Hs).
  replace (1 - sin u * sin u) with (cos u * cos u)
    by (pose proof (sin2_cos2 u) as H; unfold Rsqr in H; lra).
  rewrite (sqrt_square (cos u)) by lra.
  unfold Num.atan2R. rewrite Rlt_dec_true by assumption.
  fold (tan u). rewrite atan_tan by lra.
  f_equal. unfold u. lra.
Qed.

Lemma distance_Fin (lonA latA lonB latB : R) :
  distance (Fin lonA, Fin latA) (Fin lonB, Fin latB) =
  haversineDistance (Fin latA) (Fin lonA) (Fin latB) (Fin lonB).
Proof. reflexivity. Qed.

Lemma calculateLogistics_distance (fromCoords toCoords : Coords) (rules : JsObj) :
  distance_km (calculateLogistics fromCoords toCoords rules) =
  distance fromCoords toCoords.
Proof.
  unfold calculateLogistics, distance.
  destruct (Num.gt _ _); [reflexivity | ].
  destruct (Num.gt _ _); reflexivity.
Qed.

End GeoFacts.

(** The range of the distance, and coordinates that are not numbers. *)
Module RangeFacts.
Import NumFacts.

Lemma atan2R_upper (y x : R) : 0 <= y -> 0 <= x -> Num.atan2R y x <= PI / 2.
Proof.
  intros Hy Hx. unfold Num.atan2R. pose proof PI_RGT_0 as Hpi.
  destruct (Rlt_dec 0 x) as [Hpos | Hnpos].
  - pose proof (atan_bound (y / x)). lra.
  - rewrite Rlt_dec_false by lra.
    destruct (Rlt_dec 0 y); [lra | ].
    rewrite Rlt_dec_false by lra. lra.
Qed.

Lemma haversine_range (lat1 lon1 lat2 lon2 : R) :
  exists d,
    haversineDistance (Fin lat1) (Fin lon1) (Fin lat2) (Fin lon2) = Fin d /\
    0 <= d <= 6371 * PI.
Proof.
  rewrite GeoFacts.haversine_Fin.
  pose proof (GeoFacts.haversineA_bounds lat1 lon1 lat2 lon2) as [Ha0 Ha1].
  set (a := haversineA lat1 lon1 lat2 lon2) in *.
  pose proof (sqrt_pos a) as Hs. pose proof (sqrt_pos (1 - a)) as Hc.
  pose proof (GeoFacts.atan2R_nonneg _ _ Hs Hc) as Hlo.
  pose proof (atan2R_upper _ _ Hs Hc) as Hhi.
  eexists. split; [reflexivity | ]. split; nra.
Qed.

(** Along a meridian, towards the north. *)
Lemma meridian_north (lat1 lat2 lon : R) :
  0 <= lat2 - lat1 <= 180 ->
  haversineDistance (Fin lat1) (Fin lon) (Fin lat2) (Fin lon) =
  Fin (6371 * ((lat2 - lat1) * PI / 180)).
Proof.
  intros [H0 H180].
  destruct (Rlt_dec (lat2 - lat1) 180) as [Hlt | Hge].
  - apply GeoFacts.haversine_meridian. lra.
  - assert (Heq : lat2 - lat1 = 180) by lra.
    rewrite GeoFacts.haversine_Fin. unfold haversineA. rewrite Heq.
    replace ((lon - lon) * PI / 180 / 2) with 0 by lra.
    replace (180 * PI / 180 / 2) with (PI / 2) by lra.
    rewrite sin_0, sin_PI2, !Rmult_0_r, Rplus_0_r, Rmult_1_r.
    replace (1 - 1) with 0 by lra. rewrite sqrt_0, sqrt_1.
    unfold Num.atan2R. rewrite Rlt_dec_false by lra.
    rewrite Rlt_dec_false by lra. rewrite Rlt_dec_true by lra.
    f_equal. lra.
Qed.

Lemma sub_notFinite_l (x y : num) :
  notFinite x -> notFinite (Num.sub x y).
Proof. unfold notFinite. destruct x, y; simpl; congruence. Qed.

Lemma sub_notFinite_r (x y : num) :
  notFinite y -> notFinite (Num.sub x y).
Proof. unfold notFinite. destruct x, y; simpl; congruence. Qed.

Lemma mul_pos_notFinite (x : num) (k : R) :
  0 < k -> notFinite x -> notFinite (Num.mul x (Fin k)).
Proof.
  unfold notFinite. intros Hk.
  destruct x; simpl; try congruence; unfold Num.signed_inf;
    now rewrite Rlt_dec_true by lra.
Qed.

Lemma div_pos_notFinite (x : num) (k : R) :
  0 < k -> notFinite x -> notFinite (Num.div x (Fin k)).
Proof.
  unfold notFinite. intros Hk.
  destruct x; simpl; try congruence; now rewrite Rlt_dec_false by lra.
Qed.

Lemma sin_notFinite (x : num) : notFinite x -> Num.sin x = NaN.
Proof. unfold notFinite. destruct x; simpl; congruence. Qed.

Lemma cos_notFinite (x : num) : notFinite x -> Num.cos x = NaN.
Proof. unfold notFinite. destruct x; simpl; congruence. Qed.

(** [sin] of the scaled half difference, [cos] of the scaled latitude. *)
Lemma sin_half_NaN (d : num) :
  notFinite d ->
  Num.sin (Num.div (Num.div (Num.mul d Num.MathPI) (Fin 180)) (Fin 2)) = NaN.
Proof.
  intros H. apply sin_notFinite. pose proof PI_RGT_0.
  apply div_pos_notFinite; [lra | ].
  apply div_pos_notFinite; [lra | ].
  now apply mul_pos_notFinite.
Qed.

Lemma cos_lat_NaN (lat : num) :
  notFinite lat ->
  Num.cos (Num.div (Num.mul lat Num.MathPI) (Fin 180)) = NaN.
Proof.
  intros H. apply cos_notFinite. pose proof PI_RGT_0.
  apply div_pos_notFinite; [lra | ]. now apply mul_pos_notFinite.
Qed.

Lemma haversine_notFinite (lat1 lon1 lat2 lon2 : num) :
  isFinite lat1 && isFinite lon1 && isFinite lat2 && isFinite lon2 = false ->
  haversineDistance lat1 lon1 lat2 lon2 = NaN.
Proof.
  intros H. unfold haversineDistance.
  assert (Ha :
    (Num.sin ((lat2 - lat1) * Num.MathPI / Fin 180 / Fin 2) *
     Num.sin ((lat2 - lat1) * Num.MathPI / Fin 180 / Fin 2) +
     Num.cos (lat1 * Num.MathPI / Fin 180) *
     Num.cos (lat2 * Num.MathPI / Fin 180) *
     Num.sin ((lon2 - lon1) * Num.MathPI / Fin 180 / Fin 2) *
     Num.sin ((lon2 - lon1) * Num.MathPI / Fin 180 / Fin 2))%num = NaN).
  { apply andb_false_iff in H. destruct H as [H | H].
    apply andb_false_iff in H. destruct H as [H | H].
    apply andb_false_iff in H. destruct H as [H | H].
    - rewrite (sin_half_NaN _ (sub_notFinite_r lat2 lat1 H)). reflexivity.
    - rewrite (sin_half_NaN _ (sub_notFinite_r lon2 lon1 H)).
      now autorewrite with nan.
    - rewrite (sin_half_NaN _ (sub_notFinite_l lat2 lat1 H)). reflexivity.
    - rewrite (sin_half_NaN _ (sub_notFinite_l lon2 lon1 H)).
      now autorewrite with nan. }
  rewrite Ha. reflexivity.
Qed.

(** The formula gives one value for the two directions, numbers or not. *)
Lemma haversine_either_way (lat1 lon1 lat2 lon2 : num) :
  haversineDistance lat1 lon1 lat2 lon2 =
  haversineDistance lat2 lon2 lat1 lon1.
Proof.
  destruct (isFinite lat1 && isFinite lon1 && isFinite lat2 && isFinite lon2)
    eqn:Hfin.
  - destruct lat1 as [ | | lat1 | ], lon1 as [ | | lon1 | ],
      lat2 as [ | | lat2 | ], lon2 as [ | | lon2 | ]; try discriminate Hfin.
    now rewrite !GeoFacts.haversine_Fin, GeoFacts.haversineA_sym.
  - rewrite (haversine_notFinite _ _ _ _ Hfin).
    symmetry. apply haversine_notFinite.
    destruct (isFinite lat1), (isFinite lon1), (isFinite lat2),
      (isFinite lon2); try reflexivity; discriminate Hfin.
Qed.

(** A distance that is a number lies between 0 and half the
    circumference. *)
Lemma haversine_number_range (lat1 lon1 lat2 lon2 : num) (d : R) :
  haversineDistance lat1 lon1 lat2 lon2 = Fin d -> 0 <= d <= 6371 * PI.
Proof.
  destruct (isFinite lat1 && isFinite lon1 && isFinite lat2 && isFinite lon2)
    eqn:Hfin.
  - destruct lat1 as [ | | lat1 | ], lon1 as [ | | lon1 | ],
      lat2 as [ | | lat2 | ], lon2 as [ | | lon2 | ]; try discriminate Hfin.
    destruct (haversine_range lat1 lon1 lat2 lon2) as [d' [Hd' Hr]].
    rewrite Hd'. intros H. injection H as <-. exact Hr.
  - rewrite (haversine_notFinite _ _ _ _ Hfin). discriminate.
Qed.

Lemma eqb_same (x : num) : x <> NaN -> Num.eqb x x = true.
Proof.
  destruct x as [ | | r | ]; intros H; try reflexivity.
  - now contradiction H.
  - now apply eqb_Fin.
Qed.

End RangeFacts.

(** C9 (as amended).  The distance is the same value in the two
    directions, for every pair of coordinates, so that
    [distance(A, B) == distance(B, A)] holds whenever the distance is a
    number (it is NaN when a coordinate is not a finite number).  The
    distance from a point with valid coordinates (longitude within
    [-180, 180], latitude within [-90, 90]) to itself is 0.  That a
    distance of 0 tells the two coordinate pairs to be the same is not
    part of the statement. *)
Theorem C9_distance_symmetric_zero (A B : Coords) :
  distance A B = distance B A /\
  (distance A B <> NaN -> Num.eqb (distance A B) (distance B A) = true) /\
  (forall lon lat : R,
     -180 <= lon <= 180 -> -90 <= lat <= 90 ->
     distance (Fin lon, Fin lat) (Fin lon, Fin lat) = Fin 0).
Proof.
  assert (Hsym : distance A B = distance B A)
    by apply RangeFacts.haversine_either_way.
  split; [exact Hsym | ]. split.
  - intros Hnum. rewrite <- Hsym. now apply RangeFacts.eqb_same.
  - intros lon lat _ _. rewrite GeoFacts.distance_Fin.
    apply GeoFacts.haversine_self.
Qed.

Lemma C9_distance_symmetric_zero_witness :
  let A : Coords := (Fin 37.6173, Fin 55.7558) in
  let B : Coords := (Fin 30.3609, Fin 59.9311) in
  (distance A B <> NaN /\
   -180 <= 37.6173 <= 180 /\ -90 <= 55.7558 <= 90) /\
  Num.eqb (distance A B) (distance B A) = true /\
  distance A A = Fin 0.
Proof.
  intros A B.
  assert (Hnum : distance A B <> NaN).
  { unfold A, B. rewrite GeoFacts.distance_Fin, GeoFacts.haversine_Fin.
    discriminate. }
  assert (Hlon : -180 <= 37.6173 <= 180) by lra.
  assert (Hlat : -90 <= 55.7558 <= 90) by lra.
  split; [now repeat split | ].
  destruct (C9_distance_symmetric_zero A B) as [_ [Heq Hself]].
  split; [exact (Heq Hnum) | exact (Hself 37.6173 55.7558 Hlon Hlat)].
Defined.

(** C9, the claim as stated fails: at the pole the two coordinate pairs
    (lon 0, lat 90) and (lon 1e-150, lat 90) are different and their
    distance is 0: the cosine of the latitude is 0 on real numbers, and in
    binary64, where that cosine is about 6e-17, the product with the
    squared sine of the half difference underflows to 0. *)
Lemma C9_zero_distance_of_different_pairs :
  let A : Coords := (Fin 0, Fin 90) in
  let B : Coords := (Fin 1e-150, Fin 90) in
  Num.eqb (distance A B) (Fin 0) = true /\ A <> B.
Proof.
  intros A B. split.
  - unfold A, B. rewrite GeoFacts.distance_Fin.
    replace (haversineDistance (Fin 90) (Fin 0) (Fin 90) (Fin 1e-150))
      with (Fin 0).
    + now apply NumFacts.eqb_Fin.
    + symmetry. apply GeoFacts.haversine_zero. unfold haversineA.
      replace ((90 - 90) * PI / 180 / 2) with 0 by lra.
      replace (90 * PI / 180) with (PI / 2) by lra.
      rewrite sin_0, cos_PI2. ring.
  - unfold A, B. intros H. injection H as H. lra.
Qed.

(** ** LogisticsEstimator *)

(** C3.  The travel mode is chosen by the fixed priority of the two
    thresholds, each compared with a strict [>]: air when the distance is
    above the air threshold, else rail when it is above the rail threshold,
    else car.  In particular a distance that is exactly the rail threshold
    (and not above the air threshold) gives car. *)
Theorem C3_mode_by_threshold_priority
    (fromCoords toCoords : Coords) (rules : JsObj) :
  let d := distance fromCoords toCoords in
  let l := calculateLogistics fromCoords toCoords rules in
  mode l =
    (if Num.gt d rules@"air_threshold_km" then "air"
     else if Num.gt d rules@"rail_threshold_km" then "rail"
     else "car")%string /\
  (d = rules@"rail_threshold_km" ->
   Num.gt d rules@"air_threshold_km" = false ->
   mode l = "car"%string).
Proof.
  intros d l.
  assert (Hmode : mode l =
    (if Num.gt d rules@"air_threshold_km" then "air"
     else if Num.gt d rules@"rail_threshold_km" then "rail"
     else "car")%string).
  { unfold l, calculateLogistics. fold (distance fromCoords toCoords). fold d.
    destruct (Num.gt d rules@"air_threshold_km"); [reflexivity | ].
    destruct (Num.gt d rules@"rail_threshold_km"); reflexivity. }
  split; [exact Hmode | ].
  intros Hrail Hair. rewrite Hmode, Hair, <- Hrail, NumFacts.gt_irrefl.
  reflexivity.
Qed.

(** A point on the meridian of the branch whose distance is exactly the
    seeded rail threshold of 200 km. *)
Lemma distance_200 :
  distance (Fin 0, Fin 0) (Fin 0, Fin (36000 / (6371 * PI))) = Fin 200.
Proof.
  pose proof PI2_3_2 as Hpi.
  rewrite GeoFacts.distance_Fin, GeoFacts.haversine_meridian.
  - f_equal. field. lra.
  - rewrite Rminus_0_r. split.
    + apply Rlt_le, Rdiv_lt_0_compat; lra.
    + apply (Rmult_lt_reg_r (6371 * PI)); [lra | ].
      unfold Rdiv. rewrite Rmult_assoc, Rinv_l by lra. lra.
Qed.

Lemma C3_mode_by_threshold_priority_witness :
  let fromCoords : Coords := (Fin 0, Fin 0) in
  let toCoords : Coords := (Fin 0, Fin (36000 / (6371 * PI))) in
  (distance fromCoords toCoords = seededLogisticsRules@"rail_threshold_km" /\
   Num.gt (distance fromCoords toCoords)
          seededLogisticsRules@"air_threshold_km" = false) /\
  mode (calculateLogistics fromCoords toCoords seededLogisticsRules) = "car"%string.
Proof.
  intros fromCoords toCoords.
  assert (H : distance fromCoords toCoords = seededLogisticsRules@"rail_threshold_km"
              /\ Num.gt (distance fromCoords toCoords)
                        seededLogisticsRules@"air_threshold_km" = false).
  { unfold fromCoords, toCoords. rewrite distance_200. split.
    - reflexivity.
    - apply NumFacts.gt_Fin_false. lra. }
  split; [exact H | ].
  apply (C3_mode_by_threshold_priority fromCoords toCoords seededLogisticsRules);
    apply H.
Defined.


(** ** [sort] and [slice] *)

Section SortFacts.
Context {A : Type}.
Variable compareFn : A -> A -> num.


Lemma insertSorted_perm (x : A) (l : list A) :
  Permutation (insertSorted compareFn x l) (x :: l).
Proof.
  induction l as [ | y l IH]; simpl.
  - apply Permutation_refl.
  - destruct (sortsAfter compareFn x y).
    + rewrite IH. apply perm_swap.
    + apply Permutation_refl.
Qed.

Lemma sort_perm (l : list A) : Permutation (sort compareFn l) l.
Proof.
  induction l as [ | x l IH].
  - apply perm_nil.
  - change (sort compareFn (x :: l))
      with (insertSorted compareFn x (sort compareFn l)).
    rewrite insertSorted_perm. now apply perm_skip.
Qed.

Lemma sort_length (l : list A) :
  List.length (sort compareFn l) = List.length l.
Proof. apply Permutation_length, sort_perm. Qed.

Lemma sort_In (x : A) (l : list A) : In x (sort compareFn l) <-> In x l.
Proof.
  split; apply Permutation_in; [ | symmetry ]; apply sort_perm.
Qed.

(** Stability.  Elements that the comparator never places strictly one
    after the other keep their order: the sorted list, filtered to such a
    class [p], is the list filtered to [p]. *)
Lemma insertSorted_stable (p : A -> bool) (x : A) (l : list A) :
  (forall y, In y l -> p x = true -> p y = true -> sortsAfter compareFn x y = false) ->
  filter p (insertSorted compareFn x l) = filter p (x :: l).
Proof.
  induction l as [ | y l IH]; intros Htie; [reflexivity | ].
  simpl. destruct (sortsAfter compareFn x y) eqn:Hxy; [ | reflexivity].
  simpl. rewrite IH by (intros z Hz; apply Htie; now right).
  simpl. destruct (p x) eqn:Hpx, (p y) eqn:Hpy; try reflexivity.
  rewrite (Htie y) in Hxy by (simpl; auto). discriminate.
Qed.

Lemma sort_stable (p : A -> bool) (l : list A) :
  (forall x y, In x l -> In y l -> p x = true -> p y = true ->
               sortsAfter compareFn x y = false) ->
  filter p (sort compareFn l) = filter p l.
Proof.
  induction l as [ | x l IH]; intros Htie; [reflexivity | ].
  change (sort compareFn (x :: l))
    with (insertSorted compareFn x (sort compareFn l)).
  rewrite insertSorted_stable.
  - simpl. rewrite IH; [reflexivity | ].
    intros y z Hy Hz. apply Htie; now right.
  - intros y Hy. apply Htie; [now left | ].
    right. exact (proj1 (sort_In y l) Hy).
Qed.

(** Order.  On a class [P] of elements where "does not sort after" is
    transitive, the result is sorted: no element sorts after a later one. *)
Variable P : A -> Prop.
Hypothesis sortsAfter_asym :
  forall x y, sortsAfter compareFn x y = true -> sortsAfter compareFn y x = false.
Hypothesis inOrder_trans :
  forall x y z, P x -> P y -> P z ->
    sortsAfter compareFn x y = false -> sortsAfter compareFn y z = false -> sortsAfter compareFn x z = false.

Lemma insertSorted_Forall (Q : A -> Prop) (x : A) (l : list A) :
  Q x -> Forall Q l -> Forall Q (insertSorted compareFn x l).
Proof.
  intros Hx Hl. rewrite Forall_forall in *. intros y Hy.
  apply (Permutation_in _ (insertSorted_perm x l)) in Hy.
  destruct Hy as [<- | Hy]; auto.
Qed.

Lemma insertSorted_sorted (x : A) (l : list A) :
  P x -> Forall P l ->
  StronglySorted (inOrder compareFn) l -> StronglySorted (inOrder compareFn) (insertSorted compareFn x l).
Proof.
  intros Px. induction l as [ | y l IH]; intros Pl Hs; simpl.
  - constructor; constructor.
  - inversion Pl as [ | ? ? Py Pl']; subst.
    inversion Hs as [ | ? ? Hs' Hy]; subst.
    destruct (sortsAfter compareFn x y) eqn:Hxy.
    + constructor; [now apply IH | ].
      apply insertSorted_Forall; [ | assumption].
      unfold inOrder. now apply sortsAfter_asym.
    + constructor; [assumption | ].
      constructor; [exact Hxy | ].
      rewrite Forall_forall in *. intros z Hz.
      unfold inOrder. apply (inOrder_trans x y z); auto.
      now apply Hy.
Qed.

Lemma sort_sorted (l : list A) :
  Forall P l -> StronglySorted (inOrder compareFn) (sort compareFn l).
Proof.
  induction l as [ | x l IH]; intros Pl.
  - constructor.
  - change (sort compareFn (x :: l))
      with (insertSorted compareFn x (sort compareFn l)).
    inversion Pl as [ | ? ? Px Pl']; subst.
    apply insertSorted_sorted; [assumption | | now apply IH].
    rewrite Forall_forall in *. intros y Hy.
    apply Pl'. exact (proj1 (sort_In y l) Hy).
Qed.

End SortFacts.

Section SliceFacts.
Context {A : Type}.

Lemma slice0_length (n : nat) (l : list A) : (List.length (slice0 n l) <= n)%nat.
Proof. apply firstn_le_length. Qed.

Lemma slice0_In (n : nat) (l : list A) (x : A) : In x (slice0 n l) -> In x l.
Proof.
  intros H. rewrite <- (firstn_skipn n l). apply in_or_app. now left.
Qed.

Lemma slice0_all (n : nat) (l : list A) :
  (List.length l <= n)%nat -> slice0 n l = l.
Proof. apply firstn_all2. Qed.

Lemma slice0_sorted (R : A -> A -> Prop) (n : nat) (l : list A) :
  StronglySorted R l -> StronglySorted R (slice0 n l).
Proof.
  unfold slice0. revert n. induction l as [ | x l IH]; intros n Hs.
  - rewrite firstn_nil. constructor.
  - destruct n; simpl; [constructor | ].
    inversion Hs as [ | ? ? Hs' Hx]; subst. constructor; [now apply IH | ].
    rewrite Forall_forall in *. intros y Hy. apply Hx.
    now apply (slice0_In n l).
Qed.

(** A slice keeps a prefix of every class of the list. *)
Lemma slice0_filter_prefix (p : A -> bool) (n : nat) (l : list A) :
  exists rest, filter p l = filter p (slice0 n l) ++ rest.
Proof.
  exists (filter p (skipn n l)). unfold slice0.
  rewrite <- filter_app, firstn_skipn. reflexivity.
Qed.

End SliceFacts.


(** ** ScoreCalculator *)

Module ScoreFacts.
Import NumFacts.

Section OneCandidate.
Variables (env : Env) (st : Store) (rid : string) (request : RequestRow)
  (branchCoords : Coords) (logisticsRules : JsObj) (scenario : Scenario)
  (substitute : SubstituteRow) (t : nat).

Let c := scoreSubstitute env st rid request branchCoords logisticsRules
           scenario substitute t.
Let logistics :=
  calculateLogistics (parseCoords (base_coords substitute)) branchCoords
    logisticsRules.

Lemma candidate_ids :
  request_id c = rid /\ substitute_id c = employee_id substitute /\
  scenario_type c = type scenario /\
  weights (details_json c) = scenario_weights scenario.
Proof. repeat split. Qed.

Lemma candidate_logistics :
  logistics_json c = logistics /\
  details_eta_hours (details_json c) = eta_hours logistics /\
  travel_cost (details_json c) = cost_est logistics /\
  travel_mode (details_json c) = mode logistics /\
  details_distance_km (details_json c) = distance_km logistics.
Proof. repeat split. Qed.

Lemma candidate_score : score c = weightedScore c.
Proof. reflexivity. Qed.

(** The speed score as a real number. *)
Lemma speed_score_eq :
  speed_score (details_json c) =
  Fin (Rmax 0 (Rmin 100
    ((IZR (must_start_by request) - IZR (clock env t)) / (1000 * 60 * 60)
      / (24 * 7) * 100))).
Proof.
  unfold c, scoreSubstitute, Num.ofZ. cbn [details_json speed_score].
  rewrite sub_Fin. cbn [Num.mul]. rewrite !div_Fin by lra. cbn [Num.mul].
  rewrite min_Fin, max_Fin. reflexivity.
Qed.

Lemma load_score_eq :
  load_score (details_json c) =
  Fin (Rmax 0 (100 - INR (recent_assignments (details_json c)) * 25)).
Proof.
  unfold c, scoreSubstitute, Num.ofZ. cbn [details_json load_score recent_assignments].
  cbn [Num.mul]. rewrite sub_Fin, max_Fin, <- INR_IZR_INZ. reflexivity.
Qed.

Lemma logistics_score_eq :
  logistics_score (details_json c) =
  Num.max (Fin 0)
    (Num.sub (Num.sub (Fin 100) (Num.mul (Num.div (eta_hours logistics) (Fin 24)) (Fin 50)))
             (Num.mul (Num.div (cost_est logistics) (Fin 10000)) (Fin 50))).
Proof. reflexivity. Qed.

Lemma recent_assignments_eq :
  recent_assignments (details_json c) =
  if fault env (CountAssignments t) then O
  else countAssignments st (employee_id substitute)
         (clock env (t + 1) - thirtyDays)%Z.
Proof.
  unfold c, scoreSubstitute. cbn [details_json recent_assignments].
  now destruct (fault env (CountAssignments t)).
Qed.

End OneCandidate.

Lemma inRange_Fin (r : R) : 0 <= r <= 100 -> inRange (Fin r) = true.
Proof.
  intros [H0 H100]. unfold inRange.
  apply andb_true_intro. split; apply ge_Fin; assumption.
Qed.


Lemma Rmax0_le (x : R) : x <= 100 -> 0 <= Rmax 0 x <= 100.
Proof. unfold Rmax. destruct (Rle_dec 0 x); lra. Qed.


End ScoreFacts.

(** Arithmetic on finite numbers, pushed under [Fin]. *)
Ltac fin_arith :=
  repeat first
    [ rewrite NumFacts.sub_Fin
    | rewrite NumFacts.div_Fin by lra
    | rewrite NumFacts.max_Fin
    | rewrite NumFacts.min_Fin
    | progress cbn [Num.mul Num.add Num.neg Num.ofZ] ].

Module LogisticsFacts.
Import NumFacts.

(** The result when the distance is above neither threshold. *)
Lemma calculateLogistics_car (fromCoords toCoords : Coords) (rules : JsObj) :
  let d := distance fromCoords toCoords in
  Num.gt d rules@"air_threshold_km" = false ->
  Num.gt d rules@"rail_threshold_km" = false ->
  calculateLogistics fromCoords toCoords rules =
  mkLogistics "car" (Num.div d rules@"car_speed_kmh")
    (Num.add rules@"car_base_cost" (Num.mul d rules@"car_cost_per_km")) d.
Proof.
  intros d Hair Hrail. unfold calculateLogistics.
  fold (distance fromCoords toCoords). fold d. rewrite Hair, Hrail. reflexivity.
Qed.

(** A substitute based at the branch itself. *)
Lemma calculateLogistics_same_point (lon lat : R) (rules : JsObj) :
  Num.gt (Fin 0) rules@"air_threshold_km" = false ->
  Num.gt (Fin 0) rules@"rail_threshold_km" = false ->
  calculateLogistics (Fin lon, Fin lat) (Fin lon, Fin lat) rules =
  mkLogistics "car" (Num.div (Fin 0) rules@"car_speed_kmh")
    (Num.add rules@"car_base_cost" (Num.mul (Fin 0) rules@"car_cost_per_km"))
    (Fin 0).
Proof.
  intros Hair Hrail.
  rewrite calculateLogistics_car;
    rewrite GeoFacts.distance_Fin, GeoFacts.haversine_self; auto.
Qed.

(** With no rules at all every threshold, speed and cost reads as
    [undefined]: the mode is car, and the ETA and the cost are NaN. *)
Lemma calculateLogistics_no_rules (fromCoords toCoords : Coords) :
  calculateLogistics fromCoords toCoords [] =
  mkLogistics "car" NaN NaN (distance fromCoords toCoords).
Proof.
  rewrite calculateLogistics_car.
  - cbn [prop get toNumber]. autorewrite with nan. reflexivity.
  - cbn [prop get toNumber]. apply gt_NaN_r.
  - cbn [prop get toNumber]. apply gt_NaN_r.
Qed.

End LogisticsFacts.


(** The logistics of Elena, based at the Moscow office, for the request of
    that office under the seeded rules: by car, no travel time, the base
    cost. *)
Lemma elena_logistics :
  calculateLogistics (parseCoords (base_coords elena)) (parseCoords moscow)
    seededLogisticsRules =
  mkLogistics "car" (Fin 0) (Fin 500) (Fin 0).
Proof.
  unfold elena, moscow. cbn [base_coords parseCoords].
  rewrite LogisticsFacts.calculateLogistics_same_point.
  - cbn [prop get toNumber String.eqb Ascii.eqb Bool.eqb seededLogisticsRules].
    fin_arith. f_equal; f_equal; lra.
  - apply NumFacts.gt_Fin_false. lra.
  - apply NumFacts.gt_Fin_false. lra.
Qed.



(** ** ScenarioRanker *)

Module RankFacts.

(** The comparator [b.score - a.score] as an order. *)
Lemma byScore_asym (x y : Candidate) :
  sortsAfter byScore x y = true -> sortsAfter byScore y x = false.
Proof. apply NumFacts.gt_sub_asym. Qed.

Lemma byScore_inOrder (x y : Candidate) :
  score x <> NaN -> score y <> NaN ->
  (inOrder byScore x y <-> Num.ge (score x) (score y) = true).
Proof.
  intros Hx Hy. unfold inOrder, sortsAfter, byScore.
  rewrite NumFacts.gt_sub_0, NumFacts.ge_not_gt by assumption.
  destruct (Num.gt (score y) (score x)); simpl; split; congruence.
Qed.

Lemma byScore_trans (x y z : Candidate) :
  score x <> NaN -> score y <> NaN -> score z <> NaN ->
  sortsAfter byScore x y = false -> sortsAfter byScore y z = false ->
  sortsAfter byScore x z = false.
Proof.
  intros Hx Hy Hz Hxy Hyz.
  apply (byScore_inOrder x y Hx Hy) in Hxy.
  apply (byScore_inOrder y z Hy Hz) in Hyz.
  apply (byScore_inOrder x z Hx Hz).
  exact (NumFacts.ge_trans _ _ _ Hxy Hyz).
Qed.

Lemma byScore_tie (v : num) (x y : Candidate) :
  Num.eqb (score x) v = true -> Num.eqb (score y) v = true ->
  sortsAfter byScore x y = false.
Proof. apply NumFacts.eqb_sub_tie. Qed.

Lemma StronglySorted_weaken {A : Type} (P : A -> Prop) (R1 R2 : A -> A -> Prop)
    (l : list A) :
  (forall a b, P a -> P b -> R1 a b -> R2 a b) ->
  Forall P l -> StronglySorted R1 l -> StronglySorted R2 l.
Proof.
  intros Himp. induction l as [ | x l IH]; intros HP Hs; [constructor | ].
  inversion HP as [ | ? ? Px Pl]; subst.
  inversion Hs as [ | ? ? Hs' Hx]; subst.
  constructor; [now apply IH | ].
  rewrite Forall_forall in *. intros y Hy. apply Himp; auto.
Qed.

(** The ranking of one scenario: at most five candidates, in descending
    order of score when every score is a number, the candidates of equal
    score in the order of the list. *)
Lemma top5_length (cs : list Candidate) :
  (List.length (slice0 5 (sort byScore cs)) <= 5)%nat.
Proof. apply slice0_length. Qed.

Lemma top5_In (cs : list Candidate) (c : Candidate) :
  In c (slice0 5 (sort byScore cs)) -> In c cs.
Proof. intros H. apply slice0_In in H. now apply sort_In in H. Qed.

Lemma top5_descending (cs : list Candidate) :
  Forall (fun c => score c <> NaN) cs ->
  StronglySorted descending (slice0 5 (sort byScore cs)).
Proof.
  intros Hnum. apply slice0_sorted.
  apply (StronglySorted_weaken (fun c => score c <> NaN) (inOrder byScore)).
  - intros a b Ha Hb. apply byScore_inOrder; assumption.
  - rewrite Forall_forall in *. intros c Hc. apply Hnum.
    now apply sort_In in Hc.
  - apply (sort_sorted byScore (fun c => score c <> NaN)).
    + apply byScore_asym.
    + apply byScore_trans.
    + assumption.
Qed.

Lemma top5_stable (cs : list Candidate) (v : num) :
  exists rest,
    filter (fun c => Num.eqb (score c) v) cs =
    filter (fun c => Num.eqb (score c) v) (slice0 5 (sort byScore cs)) ++ rest.
Proof.
  destruct (slice0_filter_prefix (fun c => Num.eqb (score c) v) 5
              (sort byScore cs)) as [rest Hrest].
  exists rest. rewrite <- Hrest. symmetry. apply sort_stable.
  intros x y _ _. apply byScore_tie.
Qed.

Lemma top5_all (cs : list Candidate) :
  (List.length cs <= 5)%nat -> Permutation (slice0 5 (sort byScore cs)) cs.
Proof.
  intros Hlen. rewrite slice0_all by (now rewrite sort_length).
  apply sort_perm.
Qed.

End RankFacts.


(** ** The loops of the handler *)

Module LoopFacts.

Section Loops.
Variables (env : Env) (st : Store) (rid : string) (request : RequestRow)
  (branchCoords : Coords) (logisticsRules : JsObj).

Let scoreOne := scoreSubstitute env st rid request branchCoords logisticsRules.
Let scoreAll := scoreSubstitutes env st rid request branchCoords logisticsRules.
Let rankOne := rankScenario env st rid request branchCoords logisticsRules.
Let rankAll := rankScenarios env st rid request branchCoords logisticsRules.

Lemma scoreSubstitutes_cons (scenario : Scenario) (s : SubstituteRow)
    (rest : list SubstituteRow) (t : nat) :
  scoreAll scenario (s :: rest) t =
  (scoreOne scenario s t :: fst (scoreAll scenario rest (t + 2)),
   snd (scoreAll scenario rest (t + 2))).
Proof.
  unfold scoreAll, scoreOne. simpl.
  now destruct (scoreSubstitutes _ _ _ _ _ _ _ rest (t + 2)).
Qed.

(** The inner loop gives one candidate per substitute, in the order of the
    pool, and uses two ticks for each. *)
Lemma scoreSubstitutes_ticks (scenario : Scenario) (subs : list SubstituteRow)
    (t : nat) :
  snd (scoreAll scenario subs t) = (t + 2 * List.length subs)%nat.
Proof.
  revert t. induction subs as [ | s rest IH]; intros t.
  - simpl. lia.
  - rewrite scoreSubstitutes_cons. simpl snd. rewrite IH. simpl. lia.
Qed.

Lemma scoreSubstitutes_each (scenario : Scenario) (subs : list SubstituteRow)
    (t : nat) :
  Forall2 (fun s c => exists k, c = scoreOne scenario s k)
          subs (fst (scoreAll scenario subs t)).
Proof.
  revert t. induction subs as [ | s rest IH]; intros t.
  - constructor.
  - rewrite scoreSubstitutes_cons. simpl fst. constructor; [ | apply IH].
    now exists t.
Qed.

Lemma scoreSubstitutes_length (scenario : Scenario) (subs : list SubstituteRow)
    (t : nat) :
  List.length (fst (scoreAll scenario subs t)) = List.length subs.
Proof.
  symmetry. eapply Forall2_length, scoreSubstitutes_each.
Qed.

Lemma scoreSubstitutes_ids (scenario : Scenario) (subs : list SubstituteRow)
    (t : nat) :
  map substitute_id (fst (scoreAll scenario subs t)) = map employee_id subs.
Proof.
  revert t. induction subs as [ | s rest IH]; intros t.
  - reflexivity.
  - rewrite scoreSubstitutes_cons. simpl. now rewrite IH.
Qed.

Lemma scoreSubstitutes_In (scenario : Scenario) (subs : list SubstituteRow)
    (t : nat) (c : Candidate) :
  In c (fst (scoreAll scenario subs t)) ->
  exists s k, In s subs /\ c = scoreOne scenario s k.
Proof.
  revert t. induction subs as [ | s rest IH]; intros t.
  - intros [].
  - rewrite scoreSubstitutes_cons. simpl fst. intros [<- | Hin].
    + exists s, t. split; [now left | reflexivity].
    + destruct (IH _ Hin) as (s' & k & Hs' & ->).
      exists s', k. split; [now right | reflexivity].
Qed.

Lemma scoreSubstitutes_covers (scenario : Scenario) (subs : list SubstituteRow)
    (t : nat) (s : SubstituteRow) :
  In s subs ->
  exists k, In (scoreOne scenario s k) (fst (scoreAll scenario subs t)).
Proof.
  revert t. induction subs as [ | s' rest IH]; intros t; [intros [] | ].
  rewrite scoreSubstitutes_cons. simpl fst. intros [-> | Hin].
  - exists t. now left.
  - destruct (IH (t + 2)%nat Hin) as [k Hk]. exists k. now right.
Qed.

Lemma rankScenario_eq (subs : list SubstituteRow) (scenario : Scenario)
    (t : nat) :
  rankOne subs scenario t =
  (slice0 5 (sort byScore (fst (scoreAll scenario subs t))),
   (t + 2 * List.length subs)%nat).
Proof.
  unfold rankOne, rankScenario.
  rewrite <- (scoreSubstitutes_ticks scenario subs t).
  unfold scoreAll. now destruct (scoreSubstitutes _ _ _ _ _ _ _ subs t).
Qed.

Lemma rankScenario_In (subs : list SubstituteRow) (scenario : Scenario)
    (t : nat) (c : Candidate) :
  In c (fst (rankOne subs scenario t)) ->
  exists s k, In s subs /\ c = scoreOne scenario s k.
Proof.
  rewrite rankScenario_eq. simpl fst. intros Hin.
  apply RankFacts.top5_In in Hin.
  exact (scoreSubstitutes_In scenario subs t c Hin).
Qed.

Lemma rankScenarios_cons (subs : list SubstituteRow) (scenario : Scenario)
    (rest : list Scenario) (t : nat) :
  rankAll subs (scenario :: rest) t =
  fst (rankOne subs scenario t)
    ++ rankAll subs rest (t + 2 * List.length subs)%nat.
Proof.
  unfold rankAll. simpl. fold rankOne. rewrite rankScenario_eq. reflexivity.
Qed.

Lemma rankScenarios_In (subs : list SubstituteRow) (scenarios : list Scenario)
    (t : nat) (c : Candidate) :
  In c (rankAll subs scenarios t) ->
  exists scenario s k,
    In scenario scenarios /\ In s subs /\ c = scoreOne scenario s k.
Proof.
  revert t. induction scenarios as [ | sc rest IH]; intros t; [intros [] | ].
  rewrite rankScenarios_cons. intros Hin. apply in_app_or in Hin.
  destruct Hin as [Hin | Hin].
  - apply rankScenario_In in Hin. destruct Hin as (s & k & Hs & ->).
    exists sc, s, k. repeat split; auto. now left.
  - destruct (IH _ Hin) as (sc' & s & k & Hsc & Hs & ->).
    exists sc', s, k. repeat split; auto. now right.
Qed.

(** An empty pool gives no candidate. *)
Lemma rankScenarios_no_pool (scenarios : list Scenario) (t : nat) :
  rankAll [] scenarios t = [].
Proof.
  revert t. induction scenarios as [ | sc rest IH]; intros t; [reflexivity | ].
  rewrite rankScenarios_cons, rankScenario_eq. simpl. apply IH.
Qed.

End Loops.

End LoopFacts.


(** ** MatchOrchestrator *)

Module ServeFacts.

Lemma filter_all {A : Type} (p : A -> bool) (l : list A) :
  Forall (fun x => p x = true) l -> filter p l = l.
Proof.
  induction 1 as [ | x l Hx Hl IH]; simpl; [reflexivity | ].
  now rewrite Hx, IH.
Qed.

Lemma filter_none {A : Type} (p : A -> bool) (l : list A) :
  Forall (fun x => p x = false) l -> filter p l = [].
Proof.
  induction 1 as [ | x l Hx Hl IH]; simpl; [reflexivity | ].
  now rewrite Hx.
Qed.

Lemma scenario_types (settings : option (list SettingRow)) :
  map type (scenariosOf settings) = ["default"; "fast"; "near"]%string.
Proof. reflexivity. Qed.

(** [allCandidates] is the three ranked lists, one after the other. *)
Lemma computeCandidates_eq (env : Env) (st : Store) (rid : string)
    (request : RequestRow) (subs : list SubstituteRow) :
  computeCandidates env st rid request subs =
  rankedFor env st rid request subs 0 ++
  rankedFor env st rid request subs 1 ++
  rankedFor env st rid request subs 2.
Proof.
  unfold computeCandidates, rankedFor, scenariosOf.
  rewrite !LoopFacts.rankScenarios_cons. cbn [nth_error rankScenarios].
  rewrite app_nil_r.
  replace (0 * (2 * List.length subs))%nat with 0%nat by lia.
  replace (1 * (2 * List.length subs))%nat
    with (0 + 2 * List.length subs)%nat by lia.
  replace (2 * (2 * List.length subs))%nat
    with (0 + 2 * List.length subs + 2 * List.length subs)%nat by lia.
  reflexivity.
Qed.

Lemma rankedFor_In (env : Env) (st : Store) (rid : string)
    (request : RequestRow) (subs : list SubstituteRow) (i : nat)
    (c : Candidate) :
  In c (rankedFor env st rid request subs i) ->
  exists scenario s k,
    nth_error (scenariosOf (fetchSettings env st)) i = Some scenario /\
    In s subs /\
    c = scoreSubstitute env st rid request
          (parseCoords (branches_coords request))
          (setting (fetchSettings env st) "logistics_rules" [])
          scenario s k.
Proof.
  unfold rankedFor.
  destruct (nth_error (scenariosOf (fetchSettings env st)) i) as [sc | ];
    [ | intros []].
  intros Hin. apply LoopFacts.rankScenario_In in Hin.
  destruct Hin as (s & k & Hs & ->). now exists sc, s, k.
Qed.

Lemma rankedFor_eq (env : Env) (st : Store) (rid : string)
    (request : RequestRow) (subs : list SubstituteRow) (i : nat) :
  rankedFor env st rid request subs i =
  slice0 5 (sort byScore (scoredFor env st rid request subs i)).
Proof.
  unfold rankedFor, scoredFor.
  destruct (nth_error (scenariosOf (fetchSettings env st)) i); [ | reflexivity].
  now rewrite LoopFacts.rankScenario_eq.
Qed.

Lemma scoredFor_ids (env : Env) (st : Store) (rid : string)
    (request : RequestRow) (subs : list SubstituteRow) (i : nat) :
  (i < 3)%nat ->
  map substitute_id (scoredFor env st rid request subs i) =
  map employee_id subs.
Proof.
  intros Hi. unfold scoredFor.
  destruct i as [ | [ | [ | i]]]; try lia; cbn [nth_error scenariosOf];
    apply LoopFacts.scoreSubstitutes_ids.
Qed.

Lemma scenarioSet_deleted (rid ty : string) (cs : list Candidate) :
  scenarioSet rid ty
    (filter (fun c => negb (String.eqb (request_id c) rid)) cs) = [].
Proof.
  unfold scenarioSet. apply filter_none, Forall_forall.
  intros c Hc. apply filter_In in Hc. destruct Hc as [_ Hc].
  apply negb_true_iff in Hc. now rewrite Hc.
Qed.

Lemma fetchSubstitutes_active (env : Env) (st : Store)
    (subs : list SubstituteRow) :
  fetchSubstitutes env st = inr subs ->
  forall s, In s subs -> In s (substitute_profiles st) /\ active s = true.
Proof.
  unfold fetchSubstitutes. destruct (fault env FetchSubstitutes);
    [discriminate | ].
  intros H s Hs. injection H as <-. now apply filter_In in Hs.
Qed.

Lemma rankedFor_length (env : Env) (st : Store) (rid : string)
    (request : RequestRow) (subs : list SubstituteRow) (i : nat) :
  (i < 3)%nat ->
  List.length (rankedFor env st rid request subs i) =
  Nat.min 5 (List.length subs).
Proof.
  intros Hi. unfold rankedFor.
  destruct i as [ | [ | [ | i]]]; try lia; cbn [nth_error scenariosOf];
    rewrite LoopFacts.rankScenario_eq; cbn [fst]; unfold slice0;
    rewrite length_firstn, sort_length, LoopFacts.scoreSubstitutes_length;
    reflexivity.
Qed.

Lemma rankedFor_type (env : Env) (st : Store) (rid : string)
    (request : RequestRow) (subs : list SubstituteRow) (i : nat) :
  Forall (fun c => request_id c = rid /\
                   Some (scenario_type c) =
                   nth_error ["default"; "fast"; "near"]%string i)
         (rankedFor env st rid request subs i).
Proof.
  apply Forall_forall. intros c Hin. apply rankedFor_In in Hin.
  destruct Hin as (sc & s & k & Hsc & _ & ->). split; [reflexivity | ].
  cbn [scenario_type scoreSubstitute].
  rewrite <- (scenario_types (fetchSettings env st)), nth_error_map, Hsc.
  reflexivity.
Qed.

Lemma computeCandidates_length (env : Env) (st : Store) (rid : string)
    (request : RequestRow) (subs : list SubstituteRow) :
  List.length (computeCandidates env st rid request subs) =
  (3 * Nat.min 5 (List.length subs))%nat.
Proof.
  rewrite computeCandidates_eq, !length_app, !rankedFor_length by lia. lia.
Qed.

Lemma computeCandidates_request (env : Env) (st : Store) (rid : string)
    (request : RequestRow) (subs : list SubstituteRow) :
  Forall (fun c => request_id c = rid)
         (computeCandidates env st rid request subs).
Proof.
  rewrite computeCandidates_eq, !Forall_app. repeat split;
    eapply Forall_impl; try apply rankedFor_type; now intros c [H _].
Qed.

(** The rows of one (request, scenario_type) in [allCandidates] are the
    ranked list of that scenario. *)
Lemma scenarioSet_computeCandidates (env : Env) (st : Store) (rid : string)
    (request : RequestRow) (subs : list SubstituteRow) (i : nat) (ty : string) :
  nth_error ["default"; "fast"; "near"]%string i = Some ty ->
  scenarioSet rid ty (computeCandidates env st rid request subs) =
  rankedFor env st rid request subs i.
Proof.
  intros Hty. rewrite computeCandidates_eq. unfold scenarioSet.
  rewrite !filter_app.
  assert (Htag : forall j ty' (keep : bool),
            (if keep then ty' = ty else ty' <> ty) ->
            nth_error ["default"; "fast"; "near"]%string j = Some ty' ->
            Forall (fun c => (String.eqb (request_id c) rid
                              && String.eqb (scenario_type c) ty) = keep)
                   (rankedFor env st rid request subs j)).
  { intros j ty' keep Hkeep Hj.
    eapply Forall_impl; [ | apply rankedFor_type].
    cbn. intros c [-> Hc]. rewrite Hj in Hc. injection Hc as ->.
    rewrite String.eqb_refl. cbn. destruct keep.
    - now apply String.eqb_eq.
    - now apply String.eqb_neq. }
  destruct i as [ | [ | [ | i]]]; cbn [nth_error] in Hty;
    [ | | | now destruct i]; injection Hty as <-.
  - rewrite (filter_all _ _ (Htag 0%nat _ true eq_refl eq_refl)),
            (filter_none _ _ (Htag 1%nat "fast"%string false ltac:(discriminate) eq_refl)),
            (filter_none _ _ (Htag 2%nat "near"%string false ltac:(discriminate) eq_refl)).
    now rewrite app_nil_r.
  - rewrite (filter_none _ _ (Htag 0%nat "default"%string false ltac:(discriminate) eq_refl)),
            (filter_all _ _ (Htag 1%nat _ true eq_refl eq_refl)),
            (filter_none _ _ (Htag 2%nat "near"%string false ltac:(discriminate) eq_refl)).
    now rewrite app_nil_r.
  - rewrite (filter_none _ _ (Htag 0%nat "default"%string false ltac:(discriminate) eq_refl)),
            (filter_none _ _ (Htag 1%nat "fast"%string false ltac:(discriminate) eq_refl)),
            (filter_all _ _ (Htag 2%nat _ true eq_refl eq_refl)).
    reflexivity.
Qed.

(** The four ways through the handler. *)
Lemma serve_request_error (env : Env) (rid : string) (st : Store) (e : string) :
  fetchRequest env st rid = inl e -> serve env rid st = (Error500 e, st).
Proof. intros H. unfold serve. now rewrite H. Qed.

Lemma serve_substitutes_error (env : Env) (rid : string) (st : Store)
    (request : RequestRow) (e : string) :
  fetchRequest env st rid = inr request ->
  fetchSubstitutes env st = inl e ->
  serve env rid st = (Error500 e, st).
Proof. intros H1 H2. unfold serve. now rewrite H1, H2. Qed.

Lemma serve_insert_error (env : Env) (rid : string) (st : Store)
    (request : RequestRow) (subs : list SubstituteRow) :
  fetchRequest env st rid = inr request ->
  fetchSubstitutes env st = inr subs ->
  computeCandidates env st rid request subs <> [] ->
  fault env InsertCandidates = true ->
  serve env rid st =
  (Error500 "insert failed", deleteCandidates env rid st).
Proof.
  intros H1 H2 Hall Hfault. unfold serve. rewrite H1, H2.
  destruct (computeCandidates env st rid request subs) as [ | c cs];
    [contradiction | ].
  cbn [List.length Nat.ltb Nat.leb]. unfold insertCandidates.
  now rewrite Hfault.
Qed.

Lemma appendCandidates_nil (st : Store) : appendCandidates [] st = st.
Proof. destruct st. unfold appendCandidates. cbn. now rewrite app_nil_r. Qed.

Lemma serve_ok (env : Env) (rid : string) (st : Store)
    (request : RequestRow) (subs : list SubstituteRow) :
  fetchRequest env st rid = inr request ->
  fetchSubstitutes env st = inr subs ->
  computeCandidates env st rid request subs = [] \/
    fault env InsertCandidates = false ->
  serve env rid st =
  (Ok200 (List.length (computeCandidates env st rid request subs))
         ["default"; "fast"; "near"]%string,
   updateStatus env rid
     (appendCandidates (computeCandidates env st rid request subs)
        (deleteCandidates env rid st))).
Proof.
  intros H1 H2 Hins. unfold serve. rewrite H1, H2.
  destruct (computeCandidates env st rid request subs) as [ | c cs] eqn:Hall.
  - cbn [List.length Nat.ltb Nat.leb]. now rewrite appendCandidates_nil.
  - destruct Hins as [Hnil | Hfault]; [discriminate | ].
    cbn [List.length Nat.ltb Nat.leb]. unfold insertCandidates.
    now rewrite Hfault.
Qed.

(** What the three writes do to the tables. *)
Lemma updateStatus_candidates (env : Env) (rid : string) (st : Store) :
  assignment_candidates (updateStatus env rid st) = assignment_candidates st.
Proof. unfold updateStatus. now destruct (fault env UpdateStatus). Qed.

Lemma deleteCandidates_requests (env : Env) (rid : string) (st : Store) :
  assignment_requests (deleteCandidates env rid st) = assignment_requests st.
Proof. unfold deleteCandidates. now destruct (fault env DeleteCandidates). Qed.

Lemma deleteCandidates_candidates (env : Env) (rid : string) (st : Store) :
  fault env DeleteCandidates = false ->
  assignment_candidates (deleteCandidates env rid st) =
  filter (fun c => negb (String.eqb (request_id c) rid))
         (assignment_candidates st).
Proof. intros H. unfold deleteCandidates. now rewrite H. Qed.

Lemma candidatesOf_deleted (rid : string) (cs : list Candidate) :
  candidatesOf rid
    (filter (fun c => negb (String.eqb (request_id c) rid)) cs) = [].
Proof.
  unfold candidatesOf. apply filter_none, Forall_forall.
  intros c Hc. apply filter_In in Hc. destruct Hc as [_ Hc].
  now apply negb_true_iff in Hc.
Qed.

Lemma candidatesOf_other_deleted (rid rid' : string) (cs : list Candidate) :
  rid' <> rid ->
  candidatesOf rid'
    (filter (fun c => negb (String.eqb (request_id c) rid)) cs) =
  candidatesOf rid' cs.
Proof.
  intros Hne. unfold candidatesOf.
  induction cs as [ | c cs IH]; [reflexivity | ]. simpl.
  destruct (String.eqb (request_id c) rid) eqn:Hc; simpl.
  - apply String.eqb_eq in Hc. rewrite Hc.
    apply not_eq_sym, String.eqb_neq in Hne. now rewrite Hne.
  - now rewrite IH.
Qed.

Lemma candidatesOf_own (rid : string) (cs : list Candidate) :
  Forall (fun c => request_id c = rid) cs -> candidatesOf rid cs = cs.
Proof.
  intros H. unfold candidatesOf. apply filter_all.
  eapply Forall_impl; [ | exact H]. cbn. intros c ->. apply String.eqb_refl.
Qed.

Lemma candidatesOf_foreign (rid rid' : string) (cs : list Candidate) :
  rid' <> rid ->
  Forall (fun c => request_id c = rid) cs -> candidatesOf rid' cs = [].
Proof.
  intros Hne H. unfold candidatesOf. apply filter_none.
  eapply Forall_impl; [ | exact H]. cbn. intros c ->.
  now apply String.eqb_neq, not_eq_sym.
Qed.

Lemma candidatesOf_app (rid : string) (cs cs' : list Candidate) :
  candidatesOf rid (cs ++ cs') = candidatesOf rid cs ++ candidatesOf rid cs'.
Proof. apply filter_app. Qed.

End ServeFacts.


(** C1 (as amended).  A failure before the replace step (the request or
    the pool cannot be fetched) answers with an error and leaves the store
    as it was.  When the delete succeeds and the insert succeeds (or there
    is nothing to insert), the run answers with success, the candidates of
    the request are exactly the newly computed set of the three scenarios,
    and the candidates of every other request are untouched.  When the
    delete succeeds and the insert fails, the run answers with an error and
    the request is left with no candidate: the prior set is gone, the rows
    of other requests and the request table are untouched. *)
Theorem C1_replace_step (env : Env) (rid : string) (st : Store) :
  let response := fst (serve env rid st) in
  let st' := snd (serve env rid st) in
  ((exists e, fetchRequest env st rid = inl e) \/
   (exists e, fetchSubstitutes env st = inl e) ->
   (exists message, response = Error500 message) /\ st' = st) /\
  (forall request subs,
     fetchRequest env st rid = inr request ->
     fetchSubstitutes env st = inr subs ->
     fault env DeleteCandidates = false ->
     let allCandidates := computeCandidates env st rid request subs in
     (allCandidates = [] \/ fault env InsertCandidates = false ->
      response = Ok200 (List.length allCandidates)
                   ["default"; "fast"; "near"]%string /\
      candidatesOf rid (assignment_candidates st') = allCandidates /\
      forall rid', rid' <> rid ->
        candidatesOf rid' (assignment_candidates st') =
        candidatesOf rid' (assignment_candidates st)) /\
     (allCandidates <> [] -> fault env InsertCandidates = true ->
      (exists message, response = Error500 message) /\
      candidatesOf rid (assignment_candidates st') = [] /\
      (forall rid', rid' <> rid ->
        candidatesOf rid' (assignment_candidates st') =
        candidatesOf rid' (assignment_candidates st)) /\
      assignment_requests st' = assignment_requests st)).
Proof.
  intros response st'. unfold response, st'. split.
  - intros [[e He] | [e He]].
    + rewrite (ServeFacts.serve_request_error _ _ _ _ He). cbn. eauto.
    + destruct (fetchRequest env st rid) as [e' | request] eqn:Hreq.
      * rewrite (ServeFacts.serve_request_error _ _ _ _ Hreq). cbn. eauto.
      * rewrite (ServeFacts.serve_substitutes_error _ _ _ _ _ Hreq He).
        cbn. eauto.
  - intros request subs Hreq Hsubs Hdel.
    pose proof (ServeFacts.computeCandidates_request env st rid request subs)
      as Hown.
    set (allCandidates := computeCandidates env st rid request subs) in *.
    split.
    + intros Hins.
      rewrite (ServeFacts.serve_ok _ _ _ _ _ Hreq Hsubs Hins).
      fold allCandidates. cbn [fst snd].
      rewrite ServeFacts.updateStatus_candidates. unfold appendCandidates.
      cbn [assignment_candidates].
      rewrite ServeFacts.deleteCandidates_candidates by assumption.
      split; [reflexivity | split].
      * rewrite ServeFacts.candidatesOf_app, ServeFacts.candidatesOf_deleted.
        now apply ServeFacts.candidatesOf_own.
      * intros rid' Hne.
        rewrite ServeFacts.candidatesOf_app,
          (ServeFacts.candidatesOf_foreign rid rid' allCandidates Hne Hown),
          app_nil_r.
        now apply ServeFacts.candidatesOf_other_deleted.
    + intros Hall Hins.
      rewrite (ServeFacts.serve_insert_error _ _ _ _ _ Hreq Hsubs Hall Hins).
      cbn [fst snd].
      rewrite ServeFacts.deleteCandidates_candidates by assumption.
      split; [eauto | split; [ | split]].
      * apply ServeFacts.candidatesOf_deleted.
      * intros rid' Hne. now apply ServeFacts.candidatesOf_other_deleted.
      * apply ServeFacts.deleteCandidates_requests.
Qed.

Lemma C1_replace_step_witness :
  let st := sampleStore [elena] seededSettings in
  let allCandidates :=
    computeCandidates quietEnv st "req-1" sampleRequest [elena] in
  (fetchRequest quietEnv st "req-1" = inr sampleRequest /\
   fetchSubstitutes quietEnv st = inr [elena] /\
   fault quietEnv DeleteCandidates = false /\
   (allCandidates = [] \/ fault quietEnv InsertCandidates = false)) /\
  fst (serve quietEnv "req-1" st) =
    Ok200 (List.length allCandidates) ["default"; "fast"; "near"]%string /\
  candidatesOf "req-1" (assignment_candidates (snd (serve quietEnv "req-1" st)))
    = allCandidates.
Proof.
  intros st allCandidates.
  assert (Hreq : fetchRequest quietEnv st "req-1" = inr sampleRequest)
    by reflexivity.
  assert (Hsubs : fetchSubstitutes quietEnv st = inr [elena]) by reflexivity.
  assert (Hdel : fault quietEnv DeleteCandidates = false) by reflexivity.
  assert (Hins : allCandidates = [] \/ fault quietEnv InsertCandidates = false)
    by (right; reflexivity).
  split; [now repeat split | ].
  destruct (C1_replace_step quietEnv "req-1" st) as [_ Hreplace].
  destruct (Hreplace sampleRequest [elena] Hreq Hsubs Hdel) as [Hok _].
  destruct (Hok Hins) as (Hresponse & Hset & _).
  split; assumption.
Defined.

(** C1, the claim as stated fails: when the insert fails, the run answers
    with an error and the candidate that an earlier run had stored for the
    request is gone. *)
Lemma C1_insert_failure_drops_prior_set :
  let st := sampleStore [elena] seededSettings in
  let st' := snd (serve insertFailsEnv "req-1" st) in
  fst (serve insertFailsEnv "req-1" st) = Error500 "insert failed" /\
  candidatesOf "req-1" (assignment_candidates st) = [staleCandidate] /\
  candidatesOf "req-1" (assignment_candidates st') = [].
Proof.
  intros st st'. unfold st'.
  rewrite (ServeFacts.serve_insert_error insertFailsEnv "req-1" st
             sampleRequest [elena]); try reflexivity.
  - repeat split.
  - intros Hnil.
    pose proof (ServeFacts.computeCandidates_length insertFailsEnv st "req-1"
                  sampleRequest [elena]) as Hlen.
    rewrite Hnil in Hlen. discriminate.
Qed.


(** C7.  A run on an existing request while no substitute is active is not
    an error: it answers with success, [candidates_count = 0] and the three
    scenarios, and (the status update going through) the request is left in
    status "matching". *)
Theorem C7_empty_pool (env : Env) (rid : string) (st : Store)
    (request : RequestRow) :
  fetchRequest env st rid = inr request ->
  fetchSubstitutes env st = inr [] ->
  fault env UpdateStatus = false ->
  let st' := snd (serve env rid st) in
  fst (serve env rid st) = Ok200 0 ["default"; "fast"; "near"]%string /\
  In (setMatching rid request) (assignment_requests st') /\
  status (setMatching rid request) = st_matching /\
  (forall r, In r (assignment_requests st') -> id r = rid ->
             status r = st_matching).
Proof.
  intros Hreq Hsubs Hupd st'. unfold st'.
  assert (Hall : computeCandidates env st rid request [] = []).
  { unfold computeCandidates. apply LoopFacts.rankScenarios_no_pool. }
  rewrite (ServeFacts.serve_ok _ _ _ _ _ Hreq Hsubs (or_introl Hall)), Hall.
  cbn [fst snd List.length]. rewrite ServeFacts.appendCandidates_nil.
  unfold updateStatus. rewrite Hupd. cbn [assignment_requests].
  rewrite ServeFacts.deleteCandidates_requests.
  assert (Hin : In request (assignment_requests st) /\ id request = rid).
  { unfold fetchRequest in Hreq.
    destruct (fault env FetchRequest); [discriminate | ].
    destruct (filter _ _) as [ | r [ | r' l]] eqn:Hf; try discriminate.
    injection Hreq as ->.
    assert (Hr : In request (filter (fun r => String.eqb (id r) rid)
                               (assignment_requests st)))
      by (rewrite Hf; now left).
    apply filter_In in Hr. destruct Hr as [Hr Hid].
    now apply String.eqb_eq in Hid. }
  destruct Hin as [Hin Hid].
  split; [reflexivity | split; [ | split]].
  - now apply in_map.
  - unfold setMatching. rewrite Hid, String.eqb_refl. reflexivity.
  - intros r Hr Hrid. apply in_map_iff in Hr.
    destruct Hr as (r0 & <- & _). unfold setMatching in *.
    destruct (String.eqb (id r0) rid) eqn:Hr0; [reflexivity | ].
    apply String.eqb_neq in Hr0. contradiction.
Qed.

Lemma C7_empty_pool_witness :
  let st := sampleStore [] seededSettings in
  (fetchRequest quietEnv st "req-1" = inr sampleRequest /\
   fetchSubstitutes quietEnv st = inr [] /\
   fault quietEnv UpdateStatus = false) /\
  fst (serve quietEnv "req-1" st) = Ok200 0 ["default"; "fast"; "near"]%string /\
  In (setMatching "req-1" sampleRequest)
     (assignment_requests (snd (serve quietEnv "req-1" st))).
Proof.
  intros st.
  assert (Hreq : fetchRequest quietEnv st "req-1" = inr sampleRequest)
    by reflexivity.
  assert (Hsubs : fetchSubstitutes quietEnv st = inr []) by reflexivity.
  assert (Hupd : fault quietEnv UpdateStatus = false) by reflexivity.
  split; [now repeat split | ].
  destruct (C7_empty_pool quietEnv "req-1" st sampleRequest Hreq Hsubs Hupd)
    as (Hresponse & Hin & _).
  split; assumption.
Defined.


Module SampleFacts.

(** A score is a number as soon as the ETA, the cost and the three weights
    are finite. *)
Lemma score_number (env : Env) (st : Store) (rid : string)
    (request : RequestRow) (branchCoords : Coords) (rules : JsObj)
    (scenario : Scenario) (s : SubstituteRow) (t : nat) (e k a b c : R) :
  eta_hours (calculateLogistics (parseCoords (base_coords s)) branchCoords rules)
    = Fin e ->
  cost_est (calculateLogistics (parseCoords (base_coords s)) branchCoords rules)
    = Fin k ->
  (scenario_weights scenario)@"speed" = Fin a ->
  (scenario_weights scenario)@"logistics" = Fin b ->
  (scenario_weights scenario)@"load" = Fin c ->
  exists r,
    score (scoreSubstitute env st rid request branchCoords rules scenario s t)
    = Fin r.
Proof.
  intros He Hk Ha Hb Hc.
  rewrite ScoreFacts.candidate_score. unfold weightedScore.
  rewrite ScoreFacts.speed_score_eq, ScoreFacts.load_score_eq,
    ScoreFacts.logistics_score_eq, He, Hk.
  rewrite (proj2 (proj2 (proj2 (ScoreFacts.candidate_ids env st rid request
             branchCoords rules scenario s t)))), Ha, Hb, Hc.
  fin_arith. eexists. reflexivity.
Qed.

Lemma olga_logistics :
  calculateLogistics (parseCoords (base_coords olga)) (parseCoords moscow)
    seededLogisticsRules =
  mkLogistics "car" (Fin 0) (Fin 500) (Fin 0).
Proof. exact elena_logistics. Qed.

(** What the handler reads from the seeded settings. *)
Lemma sample_rules (pool : list SubstituteRow) :
  setting (fetchSettings quietEnv (sampleStore pool seededSettings))
    "logistics_rules" [] = seededLogisticsRules.
Proof. reflexivity. Qed.

Lemma sample_scenarios (pool : list SubstituteRow) :
  scenariosOf (fetchSettings quietEnv (sampleStore pool seededSettings)) =
  [ mkScenario "default" defaultWeightsFallback;
    mkScenario "fast" fastWeightsFallback;
    mkScenario "near" nearWeightsFallback ].
Proof. reflexivity. Qed.

(** Under the seeded rules every candidate of a substitute based at the
    branch has a score that is a number. *)
Lemma moscow_score_number (st : Store) (scenario : Scenario)
    (s : SubstituteRow) (k : nat) (a b c : R) :
  base_coords s = moscow ->
  (scenario_weights scenario)@"speed" = Fin a ->
  (scenario_weights scenario)@"logistics" = Fin b ->
  (scenario_weights scenario)@"load" = Fin c ->
  score (scoreSubstitute quietEnv st "req-1" sampleRequest
           (parseCoords moscow) seededLogisticsRules scenario s k) <> NaN.
Proof.
  intros Hs Ha Hb Hc.
  destruct (score_number quietEnv st "req-1" sampleRequest (parseCoords moscow)
              seededLogisticsRules scenario s k 0 500 a b c) as [r Hr];
    try assumption.
  - rewrite Hs. exact (f_equal eta_hours elena_logistics).
  - rewrite Hs. exact (f_equal cost_est elena_logistics).
  - rewrite Hr. discriminate.
Qed.

Lemma sample_scores_numbers (pool : list SubstituteRow) (i : nat) :
  Forall (fun s => base_coords s = moscow) pool ->
  Forall (fun c => score c <> NaN)
    (scoredFor quietEnv (sampleStore pool seededSettings) "req-1" sampleRequest
       pool i).
Proof.
  intros Hpool. apply Forall_forall. intros c Hc.
  unfold scoredFor in Hc. rewrite sample_scenarios, sample_rules in Hc.
  rewrite Forall_forall in Hpool.
  destruct i as [ | [ | [ | i]]]; cbn [nth_error] in Hc;
    [ | | | destruct i; contradiction ];
    apply LoopFacts.scoreSubstitutes_In in Hc;
    destruct Hc as (s & k & Hs & ->);
    eapply moscow_score_number; auto; reflexivity.
Qed.

End SampleFacts.

(** C2 (as amended).  For every run and each of its three scenarios, the
    ranked list holds at most 5 candidates, each the candidate of a
    substitute of the pool (the active profiles).  When the final scores
    of the scenario are numbers, the list is in descending order of score
    and candidates of equal score keep the order of the pool, the list
    holding the first of them.  After a replace step whose delete and
    insert went through, the rows stored for (request, scenario_type) are
    exactly this one list. *)
Theorem C2_ranked_list (env : Env) (st : Store) (rid : string)
    (request : RequestRow) (subs : list SubstituteRow) (i : nat) (ty : string) :
  nth_error ["default"; "fast"; "near"]%string i = Some ty ->
  let scored := scoredFor env st rid request subs i in
  let ranked := rankedFor env st rid request subs i in
  (List.length ranked <= 5)%nat /\
  map substitute_id scored = map employee_id subs /\
  (forall c, In c ranked ->
     In c scored /\ scenario_type c = ty /\
     exists s, In s subs /\ substitute_id c = employee_id s) /\
  (fetchSubstitutes env st = inr subs ->
   forall s, In s subs -> In s (substitute_profiles st) /\ active s = true) /\
  (Forall (fun c => score c <> NaN) scored ->
   StronglySorted descending ranked /\
   forall v, exists rest,
     filter (fun c => Num.eqb (score c) v) scored =
     filter (fun c => Num.eqb (score c) v) ranked ++ rest) /\
  (fetchRequest env st rid = inr request ->
   fetchSubstitutes env st = inr subs ->
   fault env DeleteCandidates = false ->
   computeCandidates env st rid request subs = [] \/
     fault env InsertCandidates = false ->
   scenarioSet rid ty (assignment_candidates (snd (serve env rid st))) =
   ranked).
Proof.
  intros Hty scored ranked.
  assert (Hi : (i < 3)%nat).
  { destruct i as [ | [ | [ | i]]]; try lia. now destruct i. }
  assert (Hranked : ranked = slice0 5 (sort byScore scored))
    by apply ServeFacts.rankedFor_eq.
  split; [ | split; [ | split; [ | split; [ | split]]]].
  - rewrite Hranked. apply RankFacts.top5_length.
  - now apply ServeFacts.scoredFor_ids.
  - intros c Hc.
    assert (Hin : In c scored)
      by (rewrite Hranked in Hc; now apply RankFacts.top5_In in Hc).
    split; [exact Hin | split].
    + pose proof (ServeFacts.rankedFor_type env st rid request subs i) as Htag.
      rewrite Forall_forall in Htag. destruct (Htag c Hc) as [_ Hc'].
      rewrite Hty in Hc'. now injection Hc'.
    + apply ServeFacts.rankedFor_In in Hc.
      destruct Hc as (sc & s & k & _ & Hs & ->). now exists s.
  - apply ServeFacts.fetchSubstitutes_active.
  - intros Hnum. rewrite Hranked. split.
    + now apply RankFacts.top5_descending.
    + intros v. apply RankFacts.top5_stable.
  - intros Hreq Hsubs Hdel Hins.
    rewrite (ServeFacts.serve_ok _ _ _ _ _ Hreq Hsubs Hins). cbn [snd].
    rewrite ServeFacts.updateStatus_candidates. unfold appendCandidates.
    cbn [assignment_candidates].
    rewrite ServeFacts.deleteCandidates_candidates by assumption.
    unfold scenarioSet at 1. rewrite filter_app.
    fold (scenarioSet rid ty
            (filter (fun c => negb (String.eqb (request_id c) rid))
                    (assignment_candidates st))).
    rewrite ServeFacts.scenarioSet_deleted. cbn [app].
    now apply ServeFacts.scenarioSet_computeCandidates.
Qed.

Lemma C2_ranked_list_witness :
  let st := sampleStore [olga; elena] seededSettings in
  let scored := scoredFor quietEnv st "req-1" sampleRequest [olga; elena] 0 in
  let ranked := rankedFor quietEnv st "req-1" sampleRequest [olga; elena] 0 in
  (nth_error ["default"; "fast"; "near"]%string 0 = Some "default"%string /\
   Forall (fun c => score c <> NaN) scored /\
   fetchRequest quietEnv st "req-1" = inr sampleRequest /\
   fetchSubstitutes quietEnv st = inr [olga; elena] /\
   fault quietEnv DeleteCandidates = false /\
   fault quietEnv InsertCandidates = false) /\
  StronglySorted descending ranked /\
  scenarioSet "req-1" "default"
    (assignment_candidates (snd (serve quietEnv "req-1" st))) = ranked.
Proof.
  intros st scored ranked.
  assert (Hty : nth_error ["default"; "fast"; "near"]%string 0
                = Some "default"%string) by reflexivity.
  assert (Hnum : Forall (fun c => score c <> NaN) scored).
  { apply SampleFacts.sample_scores_numbers. repeat constructor. }
  assert (Hreq : fetchRequest quietEnv st "req-1" = inr sampleRequest)
    by reflexivity.
  assert (Hsubs : fetchSubstitutes quietEnv st = inr [olga; elena])
    by reflexivity.
  assert (Hdel : fault quietEnv DeleteCandidates = false) by reflexivity.
  assert (Hins : fault quietEnv InsertCandidates = false) by reflexivity.
  split; [now repeat split | ].
  destruct (C2_ranked_list quietEnv st "req-1" sampleRequest [olga; elena] 0
              "default" Hty) as (_ & _ & _ & _ & Hsorted & Hstored).
  split; [now apply Hsorted | ].
  apply Hstored; auto.
Defined.


Module FallbackFacts.

(** Under an empty rules object the logistics score and the final score of
    every candidate are NaN, whatever the scenario and the substitute. *)
Lemma no_rules_candidate (env : Env) (st : Store) (rid : string)
    (request : RequestRow) (branchCoords : Coords) (scenario : Scenario)
    (s : SubstituteRow) (t : nat) :
  let c := scoreSubstitute env st rid request branchCoords [] scenario s t in
  mode (logistics_json c) = "car"%string /\
  eta_hours (logistics_json c) = NaN /\
  cost_est (logistics_json c) = NaN /\
  logistics_score (details_json c) = NaN /\
  score c = NaN.
Proof.
  intros c.
  assert (Hl : logistics_json c =
               mkLogistics "car" NaN NaN
                 (distance (parseCoords (base_coords s)) branchCoords))
    by apply LogisticsFacts.calculateLogistics_no_rules.
  assert (Hscore : logistics_score (details_json c) = NaN).
  { unfold c. rewrite ScoreFacts.logistics_score_eq.
    rewrite LogisticsFacts.calculateLogistics_no_rules. reflexivity. }
  rewrite Hl. repeat split; try assumption.
  unfold c. rewrite ScoreFacts.candidate_score. unfold weightedScore.
  fold c. rewrite Hscore. cbn [Num.mul]. autorewrite with nan. reflexivity.
Qed.

End FallbackFacts.

(** C5, on the code: with no row in [settings] the three weight sets fall
    back to the documented defaults, but the logistics rules fall back to
    the empty object.  Every candidate the run then computes has mode car,
    an ETA and a cost that are NaN, and a logistics score and a final score
    that are NaN. *)
Theorem C5_fallback_without_settings :
  let st := sampleStore [elena] [] in
  let settings := fetchSettings quietEnv st in
  let allCandidates :=
    computeCandidates quietEnv st "req-1" sampleRequest [elena] in
  scenariosOf settings =
    [ mkScenario "default"
        [("speed", Fin 0.4); ("logistics", Fin 0.35); ("load", Fin 0.25)];
      mkScenario "fast"
        [("speed", Fin 0.5); ("logistics", Fin 0.35); ("load", Fin 0.15)];
      mkScenario "near"
        [("speed", Fin 0.25); ("logistics", Fin 0.6); ("load", Fin 0.15)] ]%string /\
  setting settings "logistics_rules" [] = [] /\
  fetchRequest quietEnv st "req-1" = inr sampleRequest /\
  fetchSubstitutes quietEnv st = inr [elena] /\
  List.length allCandidates = 3%nat /\
  Forall (fun c => mode (logistics_json c) = "car"%string /\
                   eta_hours (logistics_json c) = NaN /\
                   cost_est (logistics_json c) = NaN /\
                   logistics_score (details_json c) = NaN /\
                   score c = NaN)
         allCandidates.
Proof.
  intros st settings allCandidates.
  split; [reflexivity | split; [reflexivity | ]].
  split; [reflexivity | split; [reflexivity | split]].
  - apply ServeFacts.computeCandidates_length.
  - apply Forall_forall. intros c Hc.
    unfold allCandidates, computeCandidates in Hc.
    apply LoopFacts.rankScenarios_In in Hc.
    destruct Hc as (sc & s & k & _ & _ & ->).
    apply FallbackFacts.no_rules_candidate.
Qed.


Module LocationFacts.

Lemma relocated_coords (s : SubstituteRow) :
  parseCoords (base_coords (relocated s)) = parseCoords (base_coords s).
Proof.
  unfold relocated. destruct (base_coords s) eqn:E; [ | reflexivity].
  now rewrite E.
Qed.

Lemma relocated_id (s : SubstituteRow) :
  employee_id (relocated s) = employee_id s.
Proof. unfold relocated. now destruct (base_coords s). Qed.

Lemma scoreSubstitute_relocated (env : Env) (st : Store) (rid : string)
    (request : RequestRow) (branchCoords : Coords) (rules : JsObj)
    (scenario : Scenario) (s : SubstituteRow) (t : nat) :
  scoreSubstitute env st rid request branchCoords rules scenario (relocated s) t
  = scoreSubstitute env st rid request branchCoords rules scenario s t.
Proof.
  unfold scoreSubstitute. now rewrite relocated_coords, relocated_id.
Qed.

Lemma scoreSubstitutes_relocated (env : Env) (st : Store) (rid : string)
    (request : RequestRow) (branchCoords : Coords) (rules : JsObj)
    (scenario : Scenario) (subs : list SubstituteRow) (t : nat) :
  scoreSubstitutes env st rid request branchCoords rules scenario
    (map relocated subs) t
  = scoreSubstitutes env st rid request branchCoords rules scenario subs t.
Proof.
  revert t. induction subs as [ | s rest IH]; intros t; [reflexivity | ].
  cbn [map]. rewrite !LoopFacts.scoreSubstitutes_cons, IH.
  now rewrite scoreSubstitute_relocated.
Qed.

Lemma rankScenarios_relocated (env : Env) (st : Store) (rid : string)
    (request : RequestRow) (branchCoords : Coords) (rules : JsObj)
    (subs : list SubstituteRow) (scenarios : list Scenario) (t : nat) :
  rankScenarios env st rid request branchCoords rules (map relocated subs)
    scenarios t
  = rankScenarios env st rid request branchCoords rules subs scenarios t.
Proof.
  revert t. induction scenarios as [ | sc rest IH]; intros t; [reflexivity | ].
  rewrite !LoopFacts.rankScenarios_cons, !LoopFacts.rankScenario_eq.
  now rewrite scoreSubstitutes_relocated, length_map, IH.
Qed.

(** With a pool of at most five, every substitute is in every ranked
    list. *)
Lemma rankedFor_covers (env : Env) (st : Store) (rid : string)
    (request : RequestRow) (subs : list SubstituteRow) (i : nat)
    (s : SubstituteRow) :
  (List.length subs <= 5)%nat -> (i < 3)%nat -> In s subs ->
  exists c, In c (rankedFor env st rid request subs i) /\
            substitute_id c = employee_id s.
Proof.
  intros Hlen Hi Hs.
  assert (Hperm : Permutation (rankedFor env st rid request subs i)
                              (scoredFor env st rid request subs i)).
  { rewrite ServeFacts.rankedFor_eq. apply RankFacts.top5_all.
    unfold scoredFor.
    destruct i as [ | [ | [ | i]]]; try lia; cbn [nth_error scenariosOf];
      now rewrite LoopFacts.scoreSubstitutes_length. }
  assert (Hc : exists c, In c (scoredFor env st rid request subs i) /\
                         substitute_id c = employee_id s).
  { unfold scoredFor.
    destruct i as [ | [ | [ | i]]]; try lia; cbn [nth_error scenariosOf];
      match goal with
      | |- context [scoreSubstitutes _ _ _ _ ?bc ?rules ?sc _ ?t] =>
          destruct (LoopFacts.scoreSubstitutes_covers env st rid request bc
                      rules sc subs t s Hs) as [k Hk]
      end; eexists; (split; [exact Hk | reflexivity]). }
  destruct Hc as (c & Hc & Hid). exists c. split; [ | exact Hid].
  apply (Permutation_in c (Permutation_sym Hperm) Hc).
Qed.

End LocationFacts.

(** C6 (as amended).  An unreadable location never aborts the run and
    never removes the substitute from the pool: the substitute is scored
    as one based at the point (0, 0).  Every substitute of the pool has its
    candidate under each scenario, in the order of the pool, before the cut
    to five, so with a pool of at most five it is in the list of each
    scenario; and the answer of the run is success whatever the location
    texts are. *)
Theorem C6_unreadable_location (env : Env) (st : Store) (rid : string)
    (request : RequestRow) (subs : list SubstituteRow) :
  computeCandidates env st rid request subs =
    computeCandidates env st rid request (map relocated subs) /\
  (forall i, (i < 3)%nat ->
     map substitute_id (scoredFor env st rid request subs i) =
     map employee_id subs) /\
  ((List.length subs <= 5)%nat ->
   forall s i, In s subs -> (i < 3)%nat ->
     exists c, In c (rankedFor env st rid request subs i) /\
               substitute_id c = employee_id s) /\
  (fetchRequest env st rid = inr request ->
   fetchSubstitutes env st = inr subs ->
   fault env InsertCandidates = false ->
   fst (serve env rid st) =
   Ok200 (3 * Nat.min 5 (List.length subs)) ["default"; "fast"; "near"]%string).
Proof.
  split; [ | split; [ | split]].
  - unfold computeCandidates. now rewrite LocationFacts.rankScenarios_relocated.
  - intros i Hi. now apply ServeFacts.scoredFor_ids.
  - intros Hlen s i Hs Hi. now apply LocationFacts.rankedFor_covers.
  - intros Hreq Hsubs Hins.
    rewrite (ServeFacts.serve_ok _ _ _ _ _ Hreq Hsubs (or_intror Hins)).
    cbn [fst]. now rewrite ServeFacts.computeCandidates_length.
Qed.

Lemma C6_unreadable_location_witness :
  let st := sampleStore [unlocated; elena] seededSettings in
  ((List.length [unlocated; elena] <= 5)%nat /\
   In unlocated [unlocated; elena] /\ (0 < 3)%nat /\
   fetchRequest quietEnv st "req-1" = inr sampleRequest /\
   fetchSubstitutes quietEnv st = inr [unlocated; elena] /\
   fault quietEnv InsertCandidates = false) /\
  (exists c,
     In c (rankedFor quietEnv st "req-1" sampleRequest [unlocated; elena] 0) /\
     substitute_id c = "emp-3"%string) /\
  fst (serve quietEnv "req-1" st) = Ok200 6 ["default"; "fast"; "near"]%string.
Proof.
  intros st.
  assert (Hlen : (List.length [unlocated; elena] <= 5)%nat) by (cbn; lia).
  assert (Hin : In unlocated [unlocated; elena]) by now left.
  assert (Hi : (0 < 3)%nat) by lia.
  assert (Hreq : fetchRequest quietEnv st "req-1" = inr sampleRequest)
    by reflexivity.
  assert (Hsubs : fetchSubstitutes quietEnv st = inr [unlocated; elena])
    by reflexivity.
  assert (Hins : fault quietEnv InsertCandidates = false) by reflexivity.
  split; [now repeat split | ].
  destruct (C6_unreadable_location quietEnv st "req-1" sampleRequest
              [unlocated; elena]) as (_ & _ & Hcov & Hok).
  split.
  - exact (Hcov Hlen unlocated 0%nat Hin Hi).
  - exact (Hok Hreq Hsubs Hins).
Defined.

(** C6, the claim as stated fails: a pool whose only profile has an
    unreadable location gives three stored candidates, one per scenario,
    all of that substitute. *)
Lemma C6_unlocated_substitute_is_ranked :
  let st := sampleStore [unlocated] seededSettings in
  let st' := snd (serve quietEnv "req-1" st) in
  base_coords unlocated = OtherText /\
  fst (serve quietEnv "req-1" st) = Ok200 3 ["default"; "fast"; "near"]%string /\
  map (fun c => (substitute_id c, scenario_type c))
      (candidatesOf "req-1" (assignment_candidates st')) =
  [("emp-3", "default"); ("emp-3", "fast"); ("emp-3", "near")]%string.
Proof.
  intros st st'. split; [reflexivity | ].
  assert (Hreq : fetchRequest quietEnv st "req-1" = inr sampleRequest)
    by reflexivity.
  assert (Hsubs : fetchSubstitutes quietEnv st = inr [unlocated])
    by reflexivity.
  unfold st'.
  rewrite (ServeFacts.serve_ok _ _ _ _ _ Hreq Hsubs (or_intror eq_refl)).
  cbn [fst snd]. rewrite ServeFacts.computeCandidates_length.
  split; [reflexivity | ].
  rewrite ServeFacts.updateStatus_candidates. unfold appendCandidates.
  cbn [assignment_candidates].
  rewrite ServeFacts.deleteCandidates_candidates by reflexivity.
  rewrite ServeFacts.candidatesOf_app, ServeFacts.candidatesOf_deleted.
  rewrite ServeFacts.candidatesOf_own
    by apply ServeFacts.computeCandidates_request.
  reflexivity.
Qed.


Module BreakdownFacts.

(** With a clock that stands still and count queries that all succeed or
    all fail, the breakdown of a substitute does not depend on the scenario
    nor on the tick. *)
Lemma scoreSubstitute_sameBreakdown (env : Env) (st : Store) (rid : string)
    (request : RequestRow) (branchCoords : Coords) (rules : JsObj)
    (sc1 sc2 : Scenario) (s : SubstituteRow) (k1 k2 : nat) :
  (forall k, clock env k = clock env 0) ->
  (forall k, fault env (CountAssignments k) = fault env (CountAssignments 0)) ->
  sameBreakdown
    (scoreSubstitute env st rid request branchCoords rules sc1 s k1)
    (scoreSubstitute env st rid request branchCoords rules sc2 s k2).
Proof.
  intros Hclock Hfault. unfold sameBreakdown, scoreSubstitute.
  cbn [details_json logistics_json speed_score logistics_score load_score
       travel_mode details_distance_km details_eta_hours travel_cost
       recent_assignments explanation].
  rewrite (Hclock k1), (Hclock k2), (Hclock (k1 + 1)%nat),
    (Hclock (k2 + 1)%nat), (Hfault k1), (Hfault k2).
  repeat split.
Qed.

Lemma NoDup_map_inj {A B : Type} (f : A -> B) (l : list A) (x y : A) :
  NoDup (map f l) -> In x l -> In y l -> f x = f y -> x = y.
Proof.
  induction l as [ | a l IH]; intros Hnd Hx Hy Hf; [contradiction | ].
  cbn [map] in Hnd. inversion Hnd as [ | ? ? Hnotin Hnd']; subst.
  destruct Hx as [-> | Hx], Hy as [-> | Hy]; auto.
  - exfalso. apply Hnotin. rewrite Hf. now apply in_map.
  - exfalso. apply Hnotin. rewrite <- Hf. now apply in_map.
Qed.

End BreakdownFacts.

(** C10.  In a run whose clock reads the same time at every tick and whose
    count queries all succeed (or all fail), over a pool without duplicate
    employee ids, two candidates of the same substitute carry the same
    breakdown (the three sub-scores, the travel mode, the distance, the
    ETA, the cost, the recent-assignment count), whatever their scenarios;
    each carries the weight set of its own scenario, and its final score is
    the weighted sum of the sub-scores under that weight set. *)
Theorem C10_same_breakdown (env : Env) (st : Store) (rid : string)
    (request : RequestRow) (subs : list SubstituteRow) (c1 c2 : Candidate) :
  (forall k, clock env k = clock env 0) ->
  (forall k, fault env (CountAssignments k) = fault env (CountAssignments 0)) ->
  NoDup (map employee_id subs) ->
  In c1 (computeCandidates env st rid request subs) ->
  In c2 (computeCandidates env st rid request subs) ->
  substitute_id c1 = substitute_id c2 ->
  sameBreakdown c1 c2 /\
  score c1 = weightedScore c1 /\ score c2 = weightedScore c2 /\
  (exists sc1 sc2,
     In sc1 (scenariosOf (fetchSettings env st)) /\
     In sc2 (scenariosOf (fetchSettings env st)) /\
     scenario_type c1 = type sc1 /\ scenario_type c2 = type sc2 /\
     weights (details_json c1) = scenario_weights sc1 /\
     weights (details_json c2) = scenario_weights sc2).
Proof.
  intros Hclock Hfault Hnd H1 H2 Hid.
  unfold computeCandidates in H1, H2.
  apply LoopFacts.rankScenarios_In in H1, H2.
  destruct H1 as (sc1 & s1 & k1 & Hsc1 & Hs1 & ->).
  destruct H2 as (sc2 & s2 & k2 & Hsc2 & Hs2 & ->).
  cbn [substitute_id scoreSubstitute] in Hid.
  assert (s1 = s2) as ->
    by exact (BreakdownFacts.NoDup_map_inj employee_id subs s1 s2 Hnd Hs1 Hs2 Hid).
  split; [now apply BreakdownFacts.scoreSubstitute_sameBreakdown | ].
  split; [reflexivity | split; [reflexivity | ]].
  exists sc1, sc2. repeat split; assumption.
Qed.

Lemma C10_same_breakdown_witness :
  let st := sampleStore [elena] seededSettings in
  let c1 := scoreSubstitute quietEnv st "req-1" sampleRequest
              (parseCoords moscow) seededLogisticsRules defaultScenario elena 0 in
  let c2 := scoreSubstitute quietEnv st "req-1" sampleRequest
              (parseCoords moscow) seededLogisticsRules nearScenario elena 4 in
  ((forall k, clock quietEnv k = clock quietEnv 0) /\
   (forall k, fault quietEnv (CountAssignments k)
              = fault quietEnv (CountAssignments 0)) /\
   NoDup (map employee_id [elena]) /\
   In c1 (computeCandidates quietEnv st "req-1" sampleRequest [elena]) /\
   In c2 (computeCandidates quietEnv st "req-1" sampleRequest [elena]) /\
   substitute_id c1 = substitute_id c2) /\
  sameBreakdown c1 c2.
Proof.
  intros st c1 c2.
  assert (Hclock : forall k, clock quietEnv k = clock quietEnv 0)
    by reflexivity.
  assert (Hfault : forall k, fault quietEnv (CountAssignments k)
                             = fault quietEnv (CountAssignments 0))
    by reflexivity.
  assert (Hnd : NoDup (map employee_id [elena]))
    by (repeat constructor; intros []).
  assert (H1 : In c1 (computeCandidates quietEnv st "req-1" sampleRequest [elena]))
    by (left; reflexivity).
  assert (H2 : In c2 (computeCandidates quietEnv st "req-1" sampleRequest [elena]))
    by (right; right; left; reflexivity).
  assert (Hid : substitute_id c1 = substitute_id c2) by reflexivity.
  split; [now repeat split | ].
  apply (C10_same_breakdown quietEnv st "req-1" sampleRequest [elena] c1 c2
           Hclock Hfault Hnd H1 H2 Hid).
Defined.


Module RerunFacts.

(** What a run reads: the settings, the assignments, and of the request
    its branch location and its deadline.  Two stores and two request rows
    that agree on these give the same candidates. *)
Lemma scoreSubstitute_reads (env : Env) (st1 st2 : Store) (rid : string)
    (r1 r2 : RequestRow) (branchCoords : Coords) (rules : JsObj)
    (scenario : Scenario) (s : SubstituteRow) (t : nat) :
  assignments st1 = assignments st2 ->
  must_start_by r1 = must_start_by r2 ->
  scoreSubstitute env st1 rid r1 branchCoords rules scenario s t =
  scoreSubstitute env st2 rid r2 branchCoords rules scenario s t.
Proof.
  intros Ha Hm. unfold scoreSubstitute, countAssignments.
  now rewrite Ha, Hm.
Qed.

Lemma scoreSubstitutes_reads (env : Env) (st1 st2 : Store) (rid : string)
    (r1 r2 : RequestRow) (branchCoords : Coords) (rules : JsObj)
    (scenario : Scenario) (subs : list SubstituteRow) (t : nat) :
  assignments st1 = assignments st2 ->
  must_start_by r1 = must_start_by r2 ->
  scoreSubstitutes env st1 rid r1 branchCoords rules scenario subs t =
  scoreSubstitutes env st2 rid r2 branchCoords rules scenario subs t.
Proof.
  intros Ha Hm. revert t.
  induction subs as [ | s rest IH]; intros t; [reflexivity | ].
  rewrite !LoopFacts.scoreSubstitutes_cons, IH.
  now rewrite (scoreSubstitute_reads env st1 st2 rid r1 r2).
Qed.

Lemma rankScenarios_reads (env : Env) (st1 st2 : Store) (rid : string)
    (r1 r2 : RequestRow) (branchCoords : Coords) (rules : JsObj)
    (subs : list SubstituteRow) (scenarios : list Scenario) (t : nat) :
  assignments st1 = assignments st2 ->
  must_start_by r1 = must_start_by r2 ->
  rankScenarios env st1 rid r1 branchCoords rules subs scenarios t =
  rankScenarios env st2 rid r2 branchCoords rules subs scenarios t.
Proof.
  intros Ha Hm. revert t.
  induction scenarios as [ | sc rest IH]; intros t; [reflexivity | ].
  rewrite !LoopFacts.rankScenarios_cons, !LoopFacts.rankScenario_eq, IH.
  now rewrite (scoreSubstitutes_reads env st1 st2 rid r1 r2).
Qed.

Lemma computeCandidates_reads (env : Env) (st1 st2 : Store) (rid : string)
    (r1 r2 : RequestRow) (subs : list SubstituteRow) :
  settings st1 = settings st2 ->
  assignments st1 = assignments st2 ->
  branches_coords r1 = branches_coords r2 ->
  must_start_by r1 = must_start_by r2 ->
  computeCandidates env st1 rid r1 subs = computeCandidates env st2 rid r2 subs.
Proof.
  intros Hs Ha Hb Hm. unfold computeCandidates, fetchSettings.
  rewrite Hs, Hb. now apply rankScenarios_reads.
Qed.

(** The status update keeps the id, the location and the deadline of a
    row, and doing it twice is doing it once. *)
Lemma setMatching_id (rid : string) (r : RequestRow) :
  id (setMatching rid r) = id r.
Proof. unfold setMatching. now destruct (String.eqb (id r) rid). Qed.

Lemma setMatching_reads (rid : string) (r : RequestRow) :
  branches_coords (setMatching rid r) = branches_coords r /\
  must_start_by (setMatching rid r) = must_start_by r.
Proof. unfold setMatching. now destruct (String.eqb (id r) rid). Qed.

Lemma setMatching_twice (rid : string) (r : RequestRow) :
  setMatching rid (setMatching rid r) = setMatching rid r.
Proof.
  unfold setMatching. destruct (String.eqb (id r) rid) eqn:E.
  - cbn [id]. now rewrite E.
  - now rewrite E.
Qed.

Lemma filter_setMatching (rid : string) (rs : list RequestRow) :
  filter (fun r => String.eqb (id r) rid) (map (setMatching rid) rs) =
  map (setMatching rid) (filter (fun r => String.eqb (id r) rid) rs).
Proof.
  induction rs as [ | r rs IH]; [reflexivity | ].
  cbn [map filter]. rewrite setMatching_id.
  destruct (String.eqb (id r) rid); cbn [map]; now rewrite IH.
Qed.

(** A run that answered with success went through the two fetches, and
    left the store of [serve_ok]. *)
Lemma serve_ok_inv (env : Env) (rid : string) (st st' : Store) (n : nat)
    (scs : list string) :
  serve env rid st = (Ok200 n scs, st') ->
  exists request subs,
    fetchRequest env st rid = inr request /\
    fetchSubstitutes env st = inr subs /\
    (computeCandidates env st rid request subs = [] \/
     fault env InsertCandidates = false) /\
    n = List.length (computeCandidates env st rid request subs) /\
    scs = ["default"; "fast"; "near"]%string /\
    st' = updateStatus env rid
            (appendCandidates (computeCandidates env st rid request subs)
               (deleteCandidates env rid st)).
Proof.
  intros Hrun.
  destruct (fetchRequest env st rid) as [e | request] eqn:Hreq.
  { rewrite (ServeFacts.serve_request_error _ _ _ _ Hreq) in Hrun.
    discriminate. }
  destruct (fetchSubstitutes env st) as [e | subs] eqn:Hsubs.
  { rewrite (ServeFacts.serve_substitutes_error _ _ _ _ _ Hreq Hsubs) in Hrun.
    discriminate. }
  exists request, subs.
  assert (Hins : computeCandidates env st rid request subs = [] \/
                 fault env InsertCandidates = false).
  { destruct (computeCandidates env st rid request subs) as [ | c cs] eqn:Hall;
      [now left | right].
    destruct (fault env InsertCandidates) eqn:Hfault; [ | reflexivity].
    rewrite (ServeFacts.serve_insert_error _ _ _ _ _ Hreq Hsubs) in Hrun;
      [discriminate | now rewrite Hall | assumption]. }
  rewrite (ServeFacts.serve_ok _ _ _ _ _ Hreq Hsubs Hins) in Hrun.
  injection Hrun as <- <- <-. now repeat split.
Qed.

(** The second fetch of the request and of the pool. *)
Lemma fetchRequest_after (env : Env) (rid : string) (st : Store)
    (request : RequestRow) (cs : list Candidate) :
  fetchRequest env st rid = inr request ->
  exists request',
    fetchRequest env
      (updateStatus env rid (appendCandidates cs (deleteCandidates env rid st)))
      rid = inr request' /\
    branches_coords request' = branches_coords request /\
    must_start_by request' = must_start_by request.
Proof.
  unfold fetchRequest. destruct (fault env FetchRequest); [discriminate | ].
  intros Hreq.
  destruct (filter _ (assignment_requests st)) as [ | r [ | r' l]] eqn:Hf;
    try discriminate.
  injection Hreq as ->. unfold updateStatus.
  destruct (fault env UpdateStatus).
  - exists request. cbn [appendCandidates assignment_requests].
    rewrite ServeFacts.deleteCandidates_requests, Hf. now repeat split.
  - exists (setMatching rid request). cbn [appendCandidates assignment_requests].
    rewrite ServeFacts.deleteCandidates_requests, filter_setMatching, Hf.
    split; [reflexivity | apply setMatching_reads].
Qed.

Lemma store_tables_after (env : Env) (rid : string) (st : Store)
    (cs : list Candidate) :
  let st' := updateStatus env rid
               (appendCandidates cs (deleteCandidates env rid st)) in
  substitute_profiles st' = substitute_profiles st /\
  settings st' = settings st /\
  assignments st' = assignments st.
Proof.
  unfold updateStatus, appendCandidates, deleteCandidates.
  destruct (fault env UpdateStatus), (fault env DeleteCandidates);
    now repeat split.
Qed.

Lemma filter_twice_app (rid : string) (old cs : list Candidate) :
  Forall (fun c => request_id c = rid) cs ->
  filter (fun c => negb (String.eqb (request_id c) rid))
    (filter (fun c => negb (String.eqb (request_id c) rid)) old ++ cs) =
  filter (fun c => negb (String.eqb (request_id c) rid)) old.
Proof.
  intros Hown. rewrite filter_app.
  rewrite (ServeFacts.filter_none _ cs).
  - rewrite app_nil_r. apply ServeFacts.filter_all, Forall_forall.
    intros c Hc. now apply filter_In in Hc.
  - eapply Forall_impl; [ | exact Hown]. cbn. intros c ->.
    now rewrite String.eqb_refl.
Qed.

(** Replacing again by the same set and updating the status again leaves
    the store as the first run left it. *)
Lemma replace_twice (env : Env) (rid : string) (st : Store)
    (cs : list Candidate) :
  fault env DeleteCandidates = false ->
  Forall (fun c => request_id c = rid) cs ->
  let st' := updateStatus env rid
               (appendCandidates cs (deleteCandidates env rid st)) in
  updateStatus env rid (appendCandidates cs (deleteCandidates env rid st'))
  = st'.
Proof.
  intros Hdel Hown. unfold updateStatus, appendCandidates, deleteCandidates.
  rewrite Hdel. destruct (fault env UpdateStatus);
    cbn [assignment_requests substitute_profiles settings assignments
         assignment_candidates];
    rewrite (filter_twice_app rid _ cs Hown); [reflexivity | ].
  f_equal. rewrite map_map. apply map_ext. intros r. apply setMatching_twice.
Qed.

End RerunFacts.

(** C8.  A second run right after a successful one, with the same clock
    readings and the same answers of the client, on the store the first
    run left: it computes the same candidates (same scores, same order),
    and, the delete going through, it gives the same answer and leaves the
    same store. *)
Theorem C8_rerun_identical (env : Env) (rid : string) (st st' : Store)
    (n : nat) (scs : list string) :
  serve env rid st = (Ok200 n scs, st') ->
  (exists request subs request',
     fetchRequest env st rid = inr request /\
     fetchSubstitutes env st = inr subs /\
     fetchRequest env st' rid = inr request' /\
     fetchSubstitutes env st' = inr subs /\
     computeCandidates env st' rid request' subs =
     computeCandidates env st rid request subs) /\
  (fault env DeleteCandidates = false ->
   serve env rid st' = (Ok200 n scs, st')).
Proof.
  intros Hrun. apply RerunFacts.serve_ok_inv in Hrun.
  destruct Hrun as (request & subs & Hreq & Hsubs & Hins & -> & -> & ->).
  set (allCandidates := computeCandidates env st rid request subs) in *.
  set (st' := updateStatus env rid
                (appendCandidates allCandidates (deleteCandidates env rid st))).
  destruct (RerunFacts.fetchRequest_after env rid st request allCandidates Hreq)
    as (request' & Hreq' & Hb & Hm).
  fold st' in Hreq'.
  destruct (RerunFacts.store_tables_after env rid st allCandidates)
    as (Hp & Hs & Ha).
  fold st' in Hp, Hs, Ha.
  assert (Hsubs' : fetchSubstitutes env st' = inr subs).
  { unfold fetchSubstitutes in *. now rewrite Hp. }
  assert (Hall : computeCandidates env st' rid request' subs = allCandidates)
    by now apply RerunFacts.computeCandidates_reads.
  split.
  - now exists request, subs, request'.
  - intros Hdel.
    rewrite (ServeFacts.serve_ok env rid st' request' subs Hreq' Hsubs');
      rewrite Hall; [ | exact Hins].
    f_equal. apply RerunFacts.replace_twice; [assumption | ].
    apply ServeFacts.computeCandidates_request.
Qed.

Lemma C8_rerun_identical_witness :
  let st := sampleStore [olga; elena] seededSettings in
  let st' := snd (serve quietEnv "req-1" st) in
  (serve quietEnv "req-1" st = (Ok200 6 ["default"; "fast"; "near"]%string, st') /\
   fault quietEnv DeleteCandidates = false) /\
  serve quietEnv "req-1" st' = (Ok200 6 ["default"; "fast"; "near"]%string, st').
Proof.
  intros st st'.
  assert (Hrun : serve quietEnv "req-1" st =
                 (Ok200 6 ["default"; "fast"; "near"]%string, st')).
  { unfold st'.
    rewrite (ServeFacts.serve_ok quietEnv "req-1" st sampleRequest [olga; elena]);
      try reflexivity; [ | now right].
    now rewrite ServeFacts.computeCandidates_length. }
  assert (Hdel : fault quietEnv DeleteCandidates = false) by reflexivity.
  split; [now split | ].
  apply (C8_rerun_identical quietEnv "req-1" st st' 6 _ Hrun); exact Hdel.
Defined.


(** ** A run on the sample data *)

Module SampleRun.

(** The score of a substitute based at the branch, under the seeded rules:
    the logistics score is 97.5. *)
Lemma moscow_score (st : Store) (scenario : Scenario) (s : SubstituteRow)
    (k : nat) (a b c : R) :
  base_coords s = moscow ->
  (scenario_weights scenario)@"speed" = Fin a ->
  (scenario_weights scenario)@"logistics" = Fin b ->
  (scenario_weights scenario)@"load" = Fin c ->
  let cand := scoreSubstitute quietEnv st "req-1" sampleRequest
                (parseCoords moscow) seededLogisticsRules scenario s k in
  score cand =
  Fin (Rmax 0 (Rmin 100 (96 / 168 * 100)) * a + 97.5 * b +
       Rmax 0 (100 - INR (recent_assignments (details_json cand)) * 25) * c).
Proof.
  intros Hs Ha Hb Hc cand. unfold cand.
  rewrite ScoreFacts.candidate_score. unfold weightedScore.
  rewrite ScoreFacts.speed_score_eq, ScoreFacts.load_score_eq,
    ScoreFacts.logistics_score_eq.
  rewrite (proj2 (proj2 (proj2 (ScoreFacts.candidate_ids quietEnv st "req-1"
             sampleRequest (parseCoords moscow) seededLogisticsRules scenario
             s k)))), Ha, Hb, Hc, Hs.
  replace (calculateLogistics (parseCoords moscow) (parseCoords moscow)
             seededLogisticsRules)
    with (mkLogistics "car" (Fin 0) (Fin 500) (Fin 0))
    by (symmetry; exact elena_logistics).
  cbn [eta_hours cost_est must_start_by sampleRequest clock quietEnv].
  fin_arith. f_equal.
  replace ((345600000 - 0) / (1000 * 60 * 60) / (24 * 7) * 100)
    with (96 / 168 * 100) by lra.
  replace (Rmax 0 (100 - 0 / 24 * 50 - 500 / 10000 * 50)) with 97.5
    by (unfold Rmax; destruct (Rle_dec _ _); lra).
  reflexivity.
Qed.

(** Olga has one assignment in the last thirty days, Elena none. *)
Lemma olga_recent (scenario : Scenario) (k : nat) :
  recent_assignments (details_json
    (scoreSubstitute quietEnv busyStore "req-1" sampleRequest
       (parseCoords moscow) seededLogisticsRules scenario olga k)) = 1%nat.
Proof. rewrite ScoreFacts.recent_assignments_eq. reflexivity. Qed.

Lemma elena_recent (scenario : Scenario) (k : nat) :
  recent_assignments (details_json
    (scoreSubstitute quietEnv busyStore "req-1" sampleRequest
       (parseCoords moscow) seededLogisticsRules scenario elena k)) = 0%nat.
Proof. rewrite ScoreFacts.recent_assignments_eq. reflexivity. Qed.

(** Under the default weights Elena, second in the pool, is ranked first:
    her load score is 100, that of Olga 75, and the other two sub-scores
    are the same. *)
Example default_ranking :
  map substitute_id
    (rankedFor quietEnv busyStore "req-1" sampleRequest [olga; elena] 0)
  = ["emp-1"; "emp-2"]%string.
Proof.
  rewrite ServeFacts.rankedFor_eq. unfold scoredFor.
  change (fetchSettings quietEnv busyStore) with (Some seededSettings).
  cbn [nth_error scenariosOf List.length Nat.mul].
  change (setting (Some seededSettings) "logistics_rules" [])
    with seededLogisticsRules.
  change (setting (Some seededSettings) "scoring_weights" defaultWeightsFallback)
    with defaultWeightsFallback.
  change (parseCoords (branches_coords sampleRequest)) with (parseCoords moscow).
  rewrite !LoopFacts.scoreSubstitutes_cons. cbn [fst scoreSubstitutes].
  cbn [sort fold_right insertSorted]. unfold sortsAfter, byScore.
  rewrite (moscow_score busyStore _ olga _ 0.4 0.35 0.25),
          (moscow_score busyStore _ elena _ 0.4 0.35 0.25)
    by reflexivity.
  rewrite olga_recent, elena_recent. cbn [INR].
  rewrite NumFacts.sub_Fin.
  rewrite (proj2 (NumFacts.gt_Fin _ 0)).
  - reflexivity.
  - unfold Rmax. repeat destruct (Rle_dec _ _); try lra.
Qed.



(** With equal scores the order of the pool is kept. *)
Example tie_ranking :
  map substitute_id
    (rankedFor quietEnv (sampleStore [olga; elena] seededSettings) "req-1"
       sampleRequest [olga; elena] 0)
  = ["emp-2"; "emp-1"]%string.
Proof.
  rewrite ServeFacts.rankedFor_eq. unfold scoredFor.
  rewrite SampleFacts.sample_scenarios, SampleFacts.sample_rules.
  cbn [nth_error List.length Nat.mul].
  change (parseCoords (branches_coords sampleRequest)) with (parseCoords moscow).
  rewrite !LoopFacts.scoreSubstitutes_cons. cbn [fst scoreSubstitutes].
  cbn [sort fold_right insertSorted]. unfold sortsAfter, byScore.
  rewrite (moscow_score _ _ olga _ 0.4 0.35 0.25),
          (moscow_score _ _ elena _ 0.4 0.35 0.25)
    by reflexivity.
  rewrite !ScoreFacts.recent_assignments_eq.
  cbn [fault quietEnv countAssignments assignments sampleStore filter
       List.length INR].
  rewrite NumFacts.sub_Fin.
  rewrite (proj2 (NumFacts.gt_Fin_false _ 0)).
  - reflexivity.
  - lra.
Qed.

End SampleRun.

Module LostFacts.

(** A candidate with a coordinate that is not a finite number has the
    score NaN. *)
Lemma score_NaN (env : Env) (st : Store) (rid : string)
    (request : RequestRow) (branchCoords : Coords) (rules : JsObj)
    (scenario : Scenario) (substitute : SubstituteRow) (t : nat) :
  isFinite (snd (parseCoords (base_coords substitute)))
    && isFinite (fst (parseCoords (base_coords substitute)))
    && isFinite (snd branchCoords) && isFinite (fst branchCoords) = false ->
  score (scoreSubstitute env st rid request branchCoords rules scenario
           substitute t) = NaN.
Proof.
  intros H. rewrite ScoreFacts.candidate_score. unfold weightedScore.
  rewrite ScoreFacts.logistics_score_eq.
  unfold calculateLogistics.
  rewrite (RangeFacts.haversine_notFinite _ _ _ _ H). cbn [Num.gt].
  cbn [eta_hours cost_est Num.div Num.mul]. autorewrite with nan.
  cbn [Num.div Num.mul Num.sub Num.add Num.neg Num.max].
  now autorewrite with nan.
Qed.

End LostFacts.

(** C2, the claim as stated fails: with a profile whose longitude
    [parseFloat] does not read (NaN) standing in the pool between Olga and
    Elena, the comparator answers NaN for each pair of neighbours and the
    sort leaves the pool order: Olga, whose score is the lower one, is
    ranked first and Elena, the best candidate, last. *)
Lemma C2_best_candidate_ranked_last :
  let lost := mkSubstitute "emp-4" (PointText NaN (Fin 55.7558)) true in
  let pool := [olga; lost; elena] in
  let st := mkStore [sampleRequest] pool seededSettings
              [mkAssignment "emp-2" (-86400000)] [] in
  let ranked := rankedFor quietEnv st "req-1" sampleRequest pool 0 in
  fetchRequest quietEnv st "req-1" = inr sampleRequest /\
  fetchSubstitutes quietEnv st = inr pool /\
  map substitute_id ranked = ["emp-2"; "emp-4"; "emp-1"]%string /\
  (exists first second last,
     ranked = [first; second; last] /\
     score second = NaN /\
     Num.gt (score last) (score first) = true) /\
  ~ StronglySorted descending ranked.
Proof.
  intros lost pool st ranked.
  set (c1 := scoreSubstitute quietEnv st "req-1" sampleRequest
               (parseCoords moscow) seededLogisticsRules defaultScenario olga 0).
  set (c2 := scoreSubstitute quietEnv st "req-1" sampleRequest
               (parseCoords moscow) seededLogisticsRules defaultScenario lost 2).
  set (c3 := scoreSubstitute quietEnv st "req-1" sampleRequest
               (parseCoords moscow) seededLogisticsRules defaultScenario elena 4).
  assert (H2 : score c2 = NaN) by (apply LostFacts.score_NaN; reflexivity).
  assert (H1 : score c1 =
               Fin (Rmax 0 (Rmin 100 (96 / 168 * 100)) * 0.4 + 97.5 * 0.35 +
                    Rmax 0 (100 - 1 * 25) * 0.25)).
  { unfold c1.
    rewrite (SampleRun.moscow_score st defaultScenario olga 0 0.4 0.35 0.25)
      by reflexivity.
    rewrite ScoreFacts.recent_assignments_eq. reflexivity. }
  assert (H3 : score c3 =
               Fin (Rmax 0 (Rmin 100 (96 / 168 * 100)) * 0.4 + 97.5 * 0.35 +
                    Rmax 0 (100 - 0 * 25) * 0.25)).
  { unfold c3.
    rewrite (SampleRun.moscow_score st defaultScenario elena 4 0.4 0.35 0.25)
      by reflexivity.
    rewrite ScoreFacts.recent_assignments_eq. reflexivity. }
  assert (Hgt : Num.gt (score c3) (score c1) = true).
  { rewrite H1, H3. apply NumFacts.gt_Fin.
    rewrite (Rmax_right 0 (100 - 0 * 25)), (Rmax_right 0 (100 - 1 * 25))
      by lra.
    lra. }
  assert (Hr : ranked = [c1; c2; c3]).
  { unfold ranked, pool. rewrite ServeFacts.rankedFor_eq. unfold scoredFor.
    change (fetchSettings quietEnv st) with (Some seededSettings).
    cbn [nth_error scenariosOf List.length Nat.mul].
    change (setting (Some seededSettings) "logistics_rules" [])
      with seededLogisticsRules.
    change (setting (Some seededSettings) "scoring_weights"
              defaultWeightsFallback) with defaultWeightsFallback.
    change (parseCoords (branches_coords sampleRequest))
      with (parseCoords moscow).
    rewrite !LoopFacts.scoreSubstitutes_cons. cbn [fst scoreSubstitutes Nat.add].
    fold defaultScenario. fold c1 c2 c3.
    cbn [sort fold_right insertSorted]. unfold sortsAfter, byScore.
    rewrite H2. autorewrite with nan. cbn [Num.gt insertSorted].
    unfold sortsAfter. rewrite H2. cbn [Num.sub Num.add Num.neg Num.gt].
    reflexivity. }
  split; [reflexivity | ]. split; [reflexivity | ].
  split; [now rewrite Hr | ].
  split; [now exists c1, c2, c3 | ].
  rewrite Hr. intros Hs. apply StronglySorted_inv in Hs.
  destruct Hs as [_ Hall]. rewrite Forall_forall in Hall.
  assert (Hd : descending c1 c3) by (apply Hall; right; now left).
  unfold descending in Hd. rewrite H1, H3 in Hd. rewrite H1, H3 in Hgt.
  apply NumFacts.ge_Fin in Hd. apply NumFacts.gt_Fin in Hgt. lra.
Qed.


(* ================================================================== *)
(** * Part III: further properties of the code *)
(* ================================================================== *)

(** ** The location pattern *)

Module PatternFacts.
Local Open Scope string_scope.

Lemma spanNotSpace_app (s : string) :
  s = fst (spanNotSpace s) ++ snd (spanNotSpace s).
Proof.
  induction s as [ | c s IH]; [reflexivity | ]. simpl.
  destruct (notSpace c); [ | reflexivity].
  destruct (spanNotSpace s) as [run rest]. simpl in *. now rewrite <- IH.
Qed.

Lemma spanNotSpace_run (s : string) : noSpace (fst (spanNotSpace s)) = true.
Proof.
  induction s as [ | c s IH]; [reflexivity | ]. simpl.
  destruct (notSpace c) eqn:Hc; [ | reflexivity].
  destruct (spanNotSpace s) as [run rest]. simpl in *. now rewrite Hc.
Qed.

(** What follows the run is nothing or starts with a space. *)
Lemma spanNotSpace_rest (s : string) (c : ascii) (t : string) :
  snd (spanNotSpace s) = String c t -> c = " "%char.
Proof.
  induction s as [ | d s IH]; [discriminate | ]. simpl.
  destruct (notSpace d) eqn:Hd.
  - destruct (spanNotSpace s) as [run rest]. simpl in *. exact IH.
  - simpl. intros H. injection H as -> _. unfold notSpace in Hd.
    apply negb_false_iff in Hd. now apply Ascii.eqb_eq in Hd.
Qed.

Lemma spanNotSpace_prefix (x t : string) :
  noSpace x = true ->
  spanNotSpace (x ++ t) =
  (x ++ fst (spanNotSpace t), snd (spanNotSpace t)).
Proof.
  induction x as [ | c x IH]; intros Hx.
  - simpl. now destruct (spanNotSpace t).
  - simpl in Hx. apply andb_true_iff in Hx. destruct Hx as [Hc Hx].
    simpl. rewrite Hc, (IH Hx). reflexivity.
Qed.

Lemma spanNotSpace_space (t : string) :
  spanNotSpace (String " " t) = ("", String " " t).
Proof. reflexivity. Qed.

Lemma stripPrefix_app (p s : string) : stripPrefix p (p ++ s) = Some s.
Proof.
  induction p as [ | a p IH]; simpl; [now destruct s | ].
  now rewrite Ascii.eqb_refl.
Qed.

Lemma stripPrefix_inv (p s r : string) : stripPrefix p s = Some r -> s = p ++ r.
Proof.
  revert s. induction p as [ | a p IH]; intros s; simpl.
  - destruct s; intros H; now injection H as ->.
  - destruct s as [ | b s]; [discriminate | ].
    destruct (Ascii.eqb a b) eqn:Hab; [ | discriminate].
    apply Ascii.eqb_eq in Hab. subst b. intros H. now rewrite (IH _ H).
Qed.

Lemma upToLastParen_inv (r g : string) :
  upToLastParen r = Some g ->
  g <> "" /\ exists t, r = g ++ ")" ++ t.
Proof.
  revert g. induction r as [ | c r IH]; intros g; [discriminate | ]. simpl.
  destruct (upToLastParen r) as [g' | ].
  - intros H. injection H as <-. destruct (IH g' eq_refl) as [_ [t ->]].
    split; [discriminate | ]. now exists t.
  - destruct r as [ | d r']; [discriminate | ].
    destruct (Ascii.eqb d ")") eqn:Hd.
    + apply Ascii.eqb_eq in Hd. subst d. intros H. injection H as <-.
      split; [discriminate | ]. now exists r'.
    + intros H. exfalso. revert H.
      destruct d as [[] [] [] [] [] [] [] []]; try discriminate.
Qed.

Lemma upToLastParen_cons (c : ascii) (r : string) :
  upToLastParen (String c r) =
  match upToLastParen r with
  | Some g => Some (String c g)
  | None =>
      match r with
      | String ")" _ => Some (String c EmptyString)
      | _ => None
      end
  end.
Proof. reflexivity. Qed.

Lemma upToLastParen_some (g t : string) :
  g <> "" -> upToLastParen (g ++ ")" ++ t) <> None.
Proof.
  induction g as [ | c g IH]; intros Hg; [contradiction | ].
  change (String c g ++ ")" ++ t) with (String c (g ++ ")" ++ t)).
  rewrite upToLastParen_cons.
  destruct g as [ | d g'].
  - change ("" ++ ")" ++ t) with (String ")" t).
    destruct (upToLastParen (String ")" t)); discriminate.
  - specialize (IH ltac:(discriminate)).
    destruct (upToLastParen (String d g' ++ ")" ++ t)); [discriminate | ].
    now contradiction IH.
Qed.

(** The group before a final parenthesis is the whole of what precedes
    it. *)
Lemma upToLastParen_final (g : string) :
  g <> "" -> upToLastParen (g ++ ")") = Some g.
Proof.
  induction g as [ | c g IH]; intros Hg; [contradiction | ].
  change (String c g ++ ")") with (String c (g ++ ")")).
  rewrite upToLastParen_cons.
  destruct g as [ | d g']; [reflexivity | ].
  rewrite IH by discriminate. reflexivity.
Qed.

Lemma append_assoc (x y z : string) : (x ++ y) ++ z = x ++ y ++ z.
Proof. induction x as [ | c x IH]; simpl; [reflexivity | now rewrite IH]. Qed.

Lemma append_nil_r (x : string) : x ++ "" = x.
Proof. induction x as [ | c x IH]; simpl; [reflexivity | now rewrite IH]. Qed.

Lemma noSpace_app (x y : string) :
  noSpace (x ++ y) = noSpace x && noSpace y.
Proof.
  induction x as [ | c x IH]; simpl; [reflexivity | ].
  now rewrite IH, andb_assoc.
Qed.

Lemma isGroup_spec (g : string) :
  isGroup g = true <-> g <> "" /\ noSpace g = true.
Proof.
  destruct g as [ | c g]; simpl.
  - split; [discriminate | intros [H _]; now contradiction H].
  - split; [intros H; split; [discriminate | exact H] | now intros [_ H]].
Qed.

(** A match at the start of the text: the groups and what the text is. *)
Lemma matchPointHere_inv (s a b : string) :
  matchPointHere s = Some (a, b) ->
  isGroup a = true /\ isGroup b = true /\
  exists rest, s = "POINT(" ++ a ++ " " ++ b ++ ")" ++ rest.
Proof.
  unfold matchPointHere.
  destruct (stripPrefix "POINT(" s) as [rest0 | ] eqn:Hp; [ | discriminate].
  apply stripPrefix_inv in Hp.
  pose proof (spanNotSpace_app rest0) as Happ.
  pose proof (spanNotSpace_run rest0) as Hrun.
  pose proof (spanNotSpace_rest rest0) as Hrest.
  destruct (spanNotSpace rest0) as [g1 rest1]. simpl in Happ, Hrun, Hrest.
  destruct g1 as [ | c1 g1']; [discriminate | ].
  destruct rest1 as [ | c rest2]; [discriminate | ].
  specialize (Hrest c rest2 eq_refl). subst c.
  pose proof (spanNotSpace_app rest2) as Happ2.
  pose proof (spanNotSpace_run rest2) as Hrun2.
  destruct (spanNotSpace rest2) as [r2 r3]. simpl in Happ2, Hrun2.
  destruct (upToLastParen r2) as [g2 | ] eqn:Hg2; [ | discriminate].
  intros H. injection H as <- <-.
  apply upToLastParen_inv in Hg2. destruct Hg2 as [Hne [t Ht]].
  subst r2. rewrite noSpace_app in Hrun2.
  apply andb_true_iff in Hrun2. destruct Hrun2 as [Hg2 _].
  split; [exact Hrun | ].
  split; [apply isGroup_spec; now split | ].
  exists (t ++ r3). rewrite Hp, Happ, Happ2.
  now rewrite !append_assoc.
Qed.

Lemma matchPointHere_some (a b rest : string) :
  isGroup a = true -> isGroup b = true ->
  matchPointHere ("POINT(" ++ a ++ " " ++ b ++ ")" ++ rest) <> None.
Proof.
  intros Ha Hb. apply isGroup_spec in Ha, Hb.
  destruct Ha as [Hane Ha], Hb as [Hbne Hb].
  unfold matchPointHere. rewrite stripPrefix_app.
  rewrite (spanNotSpace_prefix a _ Ha).
  change (" " ++ b ++ ")" ++ rest) with (String " " (b ++ ")" ++ rest)).
  rewrite spanNotSpace_space. cbn [fst snd]. rewrite append_nil_r.
  destruct a as [ | c a']; [now contradiction Hane | ].
  rewrite (spanNotSpace_prefix b _ Hb).
  change (")" ++ rest) with (String ")" rest).
  cbn [spanNotSpace notSpace Ascii.eqb Bool.eqb negb].
  destruct (spanNotSpace rest) as [run rest']. cbn [fst snd].
  change (String ")" run) with (")" ++ run).
  pose proof (upToLastParen_some b run Hbne) as H.
  destruct (upToLastParen (b ++ ")" ++ run)); [discriminate | now contradiction H].
Qed.

Lemma matchPoint_here (s : string) (groups : string * string) :
  matchPointHere s = Some groups -> matchPoint s = Some groups.
Proof. intros H. destruct s; cbn [matchPoint]; now rewrite H. Qed.

Lemma matchPoint_next (c : ascii) (s : string) :
  matchPointHere (String c s) = None ->
  matchPoint (String c s) = matchPoint s.
Proof. intros H. cbn [matchPoint]. now rewrite H. Qed.

(** A match somewhere in the text. *)
Lemma matchPoint_inv (s a b : string) :
  matchPoint s = Some (a, b) ->
  isGroup a = true /\ isGroup b = true /\ holdsPoint s a b.
Proof.
  revert a b. induction s as [ | c s IH]; intros a b.
  - simpl. intros H. discriminate H.
  - destruct (matchPointHere (String c s)) as [[a' b'] | ] eqn:Hh.
    + rewrite (matchPoint_here _ _ Hh).
      intros H. injection H as <- <-.
      destruct (matchPointHere_inv _ _ _ Hh) as [Ha [Hb [rest Hs]]].
      split; [exact Ha | ]. split; [exact Hb | ].
      exists "", rest. exact Hs.
    + rewrite (matchPoint_next _ _ Hh). intros H.
      destruct (IH a b H) as [Ha [Hb [before [rest Hs]]]].
      split; [exact Ha | ]. split; [exact Hb | ].
      exists (String c before), rest. subst s. reflexivity.
Qed.

End PatternFacts.

(** X1.  The pattern matches a text exactly when the text holds
    [POINT(a b)] at some place for two groups [a], [b] (not empty, without
    a space), and the groups it returns are such a pair. *)
Theorem matchPoint_sound_complete (s : string) :
  (forall a b, matchPoint s = Some (a, b) ->
     isGroup a = true /\ isGroup b = true /\ holdsPoint s a b) /\
  ((exists a b, isGroup a = true /\ isGroup b = true /\ holdsPoint s a b) ->
   exists a b, matchPoint s = Some (a, b)).
Proof.
  split; [intros a b; apply PatternFacts.matchPoint_inv | ].
  - intros [a [b [Ha [Hb [before [rest Hs]]]]]]. subst s.
    induction before as [ | c before IH].
    + pose proof (PatternFacts.matchPointHere_some a b rest Ha Hb) as H.
      change (("" ++ "POINT(" ++ a ++ " " ++ b ++ ")" ++ rest)%string)
        with (("POINT(" ++ a ++ " " ++ b ++ ")" ++ rest)%string).
      destruct (matchPointHere ("POINT(" ++ a ++ " " ++ b ++ ")" ++ rest))
        as [[a' b'] | ] eqn:Hh; [ | now contradiction H].
      exists a', b'. now apply PatternFacts.matchPoint_here.
    + change ((String c before ++ "POINT(" ++ a ++ " " ++ b ++ ")" ++ rest)%string)
        with (String c (before ++ "POINT(" ++ a ++ " " ++ b ++ ")" ++ rest)).
      destruct (matchPointHere
                  (String c (before ++ "POINT(" ++ a ++ " " ++ b ++ ")" ++ rest)))
        as [[a' b'] | ] eqn:Hh.
      * exists a', b'. now apply PatternFacts.matchPoint_here.
      * rewrite (PatternFacts.matchPoint_next _ _ Hh). exact IH.
Qed.


Lemma matchPoint_sound_complete_witness :
  matchPoint "POINT(37.6173 55.7558)" = Some ("37.6173", "55.7558")%string /\
  holdsPoint "POINT(37.6173 55.7558)" "37.6173" "55.7558".
Proof.
  split; [reflexivity | ].
  apply (proj1 (matchPoint_sound_complete "POINT(37.6173 55.7558)")).
  reflexivity.
Defined.

(** X2.  The text [POINT(a b)] of two groups reads back as these groups:
    the handler takes the point [(parseFloat a, parseFloat b)] and the
    branches page the same pair as [lon] and [lat]. *)
Theorem canonical_text_read_back (parseFloat : string -> num) (a b : string) :
  isGroup a = true -> isGroup b = true ->
  let text := ("POINT(" ++ a ++ " " ++ b ++ ")")%string in
  matchPoint text = Some (a, b) /\
  parseCoords (readGeo parseFloat text) = (parseFloat a, parseFloat b) /\
  pageParseCoords parseFloat text =
    Some (mkLonLat (parseFloat a) (parseFloat b)).
Proof.
  intros Ha Hb text.
  assert (Hm : matchPoint text = Some (a, b)).
  { apply PatternFacts.matchPoint_here. unfold text, matchPointHere.
    rewrite PatternFacts.stripPrefix_app.
    apply PatternFacts.isGroup_spec in Ha, Hb.
    destruct Ha as [Hane Ha], Hb as [Hbne Hb].
    rewrite (PatternFacts.spanNotSpace_prefix a _ Ha).
    change ((" " ++ b ++ ")")%string) with (String " " (b ++ ")")).
    rewrite PatternFacts.spanNotSpace_space. cbn [fst snd].
    rewrite PatternFacts.append_nil_r.
    destruct a as [ | c a']; [now contradiction Hane | ].
    assert (Hrun : noSpace (b ++ ")") = true).
    { rewrite PatternFacts.noSpace_app, Hb. reflexivity. }
    pose proof (PatternFacts.spanNotSpace_prefix (b ++ ")") "" Hrun) as Hs.
    rewrite PatternFacts.append_nil_r in Hs. rewrite Hs. cbn [fst snd spanNotSpace].
    rewrite PatternFacts.append_nil_r.
    now rewrite (PatternFacts.upToLastParen_final b Hbne). }
  split; [exact Hm | ].
  unfold readGeo, pageParseCoords. rewrite Hm. split; reflexivity.
Qed.

Lemma canonical_text_read_back_witness :
  (isGroup "37.6173" = true /\ isGroup "55.7558" = true) /\
  matchPoint "POINT(37.6173 55.7558)" = Some ("37.6173", "55.7558")%string.
Proof.
  split; [split; reflexivity | ].
  apply (canonical_text_read_back (fun _ => NaN) "37.6173" "55.7558");
    reflexivity.
Defined.

(** X3.  A location text without a space never matches the pattern: the
    branches page shows no coordinates for it, and the handler goes on
    with the point (0, 0). *)
Theorem text_without_space_unread (parseFloat : string -> num) (text : string) :
  noSpace text = true ->
  matchPoint text = None /\
  pageParseCoords parseFloat text = None /\
  readGeo parseFloat text = OtherText /\
  parseCoords (readGeo parseFloat text) = (Fin 0, Fin 0).
Proof.
  intros Hn.
  assert (Hm : matchPoint text = None).
  { destruct (matchPoint text) as [[a b] | ] eqn:Hm; [ | reflexivity].
    exfalso. revert Hn.
    destruct (PatternFacts.matchPoint_inv _ _ _ Hm) as [_ [_ Hh]].
    destruct Hh as [before [rest ->]].
    rewrite !PatternFacts.noSpace_app.
    change (noSpace (" " ++ b ++ ")" ++ rest)) with false.
    rewrite !andb_false_r. discriminate. }
  unfold pageParseCoords, readGeo. rewrite Hm. repeat split; reflexivity.
Qed.

Lemma text_without_space_unread_witness :
  noSpace "0101000020E6100000AB" = true /\
  pageParseCoords (fun _ => NaN) "0101000020E6100000AB" = None.
Proof.
  split; [reflexivity | ].
  apply (text_without_space_unread (fun _ => NaN) "0101000020E6100000AB").
  reflexivity.
Defined.

(** ** The distance: its range, and coordinates that are not numbers *)

(** X4.  The distance between two coordinate pairs is NaN or a number
    between 0 and half the circumference of the sphere, 6371 * PI
    kilometres: it is never negative and never infinite. *)
Theorem distance_range (A B : Coords) :
  distance A B = NaN \/
  exists d, distance A B = Fin d /\ 0 <= d <= 6371 * PI.
Proof.
  unfold distance.
  destruct (isFinite (snd A) && isFinite (fst A)
            && isFinite (snd B) && isFinite (fst B)) eqn:Hfin.
  - right.
    destruct A as [[ | | lonA | ] [ | | latA | ]];
      destruct B as [[ | | lonB | ] [ | | latB | ]]; try discriminate Hfin.
    apply RangeFacts.haversine_range.
  - left. now apply RangeFacts.haversine_notFinite.
Qed.

(** X5.  Two points of one meridian whose latitudes differ by at most 180
    degrees are 6371 * |difference| * PI / 180 kilometres apart: the
    length of the arc of the meridian between them. *)
Theorem distance_along_meridian (lon latA latB : R) :
  Rabs (latB - latA) <= 180 ->
  distance (Fin lon, Fin latA) (Fin lon, Fin latB) =
  Fin (6371 * (Rabs (latB - latA) * PI / 180)).
Proof.
  intros H. rewrite GeoFacts.distance_Fin.
  destruct (Rle_dec 0 (latB - latA)) as [Hpos | Hneg].
  - rewrite Rabs_right in * by lra.
    apply RangeFacts.meridian_north. lra.
  - rewrite Rabs_left in * by lra.
    rewrite GeoFacts.haversine_Fin, GeoFacts.haversineA_sym,
      <- GeoFacts.haversine_Fin.
    rewrite RangeFacts.meridian_north by lra. f_equal. lra.
Qed.

Lemma distance_along_meridian_witness :
  Rabs (59.9311 - 55.7558) <= 180 /\
  distance (Fin 37.6173, Fin 55.7558) (Fin 37.6173, Fin 59.9311) =
  Fin (6371 * (Rabs (59.9311 - 55.7558) * PI / 180)).
Proof.
  assert (H : Rabs (59.9311 - 55.7558) <= 180)
    by (rewrite Rabs_right by lra; lra).
  split; [exact H | ].
  exact (distance_along_meridian 37.6173 55.7558 59.9311 H).
Defined.

(** X6.  When a coordinate of the substitute or of the branch is not a
    finite number (a group of the location text that [parseFloat] does
    not read gives NaN), the distance is NaN; the mode is then "car",
    whatever the rules, and the travel time, the cost, the logistics score
    and the final score are NaN. *)
Theorem coordinate_not_finite
    (env : Env) (st : Store) (rid : string) (request : RequestRow)
    (branchCoords : Coords) (rules : JsObj) (scenario : Scenario)
    (substitute : SubstituteRow) (t : nat) :
  let subCoords := parseCoords (base_coords substitute) in
  isFinite (snd subCoords) && isFinite (fst subCoords)
    && isFinite (snd branchCoords) && isFinite (fst branchCoords) = false ->
  let c := scoreSubstitute env st rid request branchCoords rules scenario
             substitute t in
  logistics_json c = mkLogistics "car" NaN NaN NaN /\
  logistics_score (details_json c) = NaN /\
  score c = NaN.
Proof.
  intros subCoords H c.
  assert (Hl : calculateLogistics subCoords branchCoords rules =
               mkLogistics "car" NaN NaN NaN).
  { unfold calculateLogistics.
    rewrite (RangeFacts.haversine_notFinite _ _ _ _ H). cbn [Num.gt].
    cbn [Num.div Num.mul]. now autorewrite with nan. }
  split; [exact Hl | ].
  assert (Hs : logistics_score (details_json c) = NaN).
  { unfold c. rewrite ScoreFacts.logistics_score_eq.
    fold subCoords. rewrite Hl. reflexivity. }
  split; [exact Hs | ].
  unfold c. rewrite ScoreFacts.candidate_score. unfold weightedScore.
  fold c. rewrite Hs. cbn [Num.mul]. now autorewrite with nan.
Qed.

Lemma coordinate_not_finite_witness :
  let s := mkSubstitute "emp-4" (PointText NaN (Fin 55.7558)) true in
  score (scoreSubstitute quietEnv (sampleStore [s] seededSettings) "req-1"
           sampleRequest (parseCoords moscow) seededLogisticsRules
           defaultScenario s 0) = NaN.
Proof.
  intros s.
  apply (coordinate_not_finite quietEnv (sampleStore [s] seededSettings)
           "req-1" sampleRequest (parseCoords moscow) seededLogisticsRules
           defaultScenario s 0).
  reflexivity.
Defined.

(** ** The travel mode, the travel time and the cost *)

Module ModeFacts.
Import NumFacts.

Lemma mode_cases (fromCoords toCoords : Coords) (rules : JsObj) :
  mode (calculateLogistics fromCoords toCoords rules) =
  (if Num.gt (distance fromCoords toCoords) rules@"air_threshold_km"
   then "air"
   else if Num.gt (distance fromCoords toCoords) rules@"rail_threshold_km"
        then "rail" else "car")%string.
Proof.
  unfold calculateLogistics, distance.
  destruct (Num.gt _ _); [reflexivity | ].
  destruct (Num.gt _ _); reflexivity.
Qed.

Lemma priced_mode (rules : JsObj) (m : string) (d : R) :
  modeRules rules m ->
  exists v b k,
    0 < v /\ 0 <= b /\ 0 <= k /\
    Num.div (Fin d) rules@(m ++ "_speed_kmh") = Fin (d / v) /\
    Num.add rules@(m ++ "_base_cost")
      (Num.mul (Fin d) rules@(m ++ "_cost_per_km")) = Fin (b + d * k).
Proof.
  intros [[v [Hv Hv0]] [[b [Hb Hb0]] [k [Hk Hk0]]]].
  exists v, b, k. rewrite Hv, Hb, Hk.
  split; [assumption | ]. split; [assumption | ]. split; [assumption | ].
  split; [now rewrite div_Fin by lra | reflexivity].
Qed.

(** The rules of the mode that was taken price the trip. *)
Lemma priced_trip (fromCoords toCoords : Coords) (rules : JsObj) (d : R) :
  pricedRules rules ->
  distance fromCoords toCoords = Fin d ->
  exists v b k,
    0 < v /\ 0 <= b /\ 0 <= k /\
    eta_hours (calculateLogistics fromCoords toCoords rules) = Fin (d / v) /\
    cost_est (calculateLogistics fromCoords toCoords rules) = Fin (b + d * k).
Proof.
  intros [Hcar [Hrail Hair]] Hd.
  unfold calculateLogistics. fold (distance fromCoords toCoords). rewrite Hd.
  destruct (Num.gt (Fin d) rules@"air_threshold_km").
  - exact (priced_mode rules "air" d Hair).
  - destruct (Num.gt (Fin d) rules@"rail_threshold_km").
    + exact (priced_mode rules "rail" d Hrail).
    + exact (priced_mode rules "car" d Hcar).
Qed.

End ModeFacts.

(** X7.  With two thresholds that are numbers, the mode is "air" exactly
    above the air threshold, "rail" exactly above the rail threshold and
    not above the air threshold, and "car" otherwise; when the air
    threshold is not above the rail threshold, no distance gives "rail". *)
Theorem mode_bands (fromCoords toCoords : Coords) (rules : JsObj)
    (d rail air : R) :
  distance fromCoords toCoords = Fin d ->
  rules@"rail_threshold_km" = Fin rail ->
  rules@"air_threshold_km" = Fin air ->
  let m := mode (calculateLogistics fromCoords toCoords rules) in
  (m = "air"%string <-> air < d) /\
  (m = "rail"%string <-> rail < d <= air) /\
  (m = "car"%string <-> d <= rail /\ d <= air) /\
  (air <= rail -> m <> "rail"%string).
Proof.
  intros Hd Hrail Hair m.
  assert (Hm : m = (if Rlt_dec air d then "air"
                    else if Rlt_dec rail d then "rail" else "car")%string).
  { unfold m. rewrite ModeFacts.mode_cases, Hd, Hrail, Hair.
    unfold Num.gt. destruct (Rlt_dec air d); [reflexivity | ].
    destruct (Rlt_dec rail d); reflexivity. }
  rewrite Hm.
  destruct (Rlt_dec air d) as [Ha | Ha];
    [ | destruct (Rlt_dec rail d) as [Hr | Hr] ];
    repeat split; intros; try discriminate; try reflexivity; lra.
Qed.

Lemma mode_bands_witness :
  let fromCoords : Coords := (Fin 0, Fin 0) in
  let toCoords : Coords := (Fin 0, Fin (36000 / (6371 * PI))) in
  (distance fromCoords toCoords = Fin 200 /\
   seededLogisticsRules@"rail_threshold_km" = Fin 200 /\
   seededLogisticsRules@"air_threshold_km" = Fin 1500) /\
  (mode (calculateLogistics fromCoords toCoords seededLogisticsRules)
     = "car"%string <-> 200 <= 200 /\ 200 <= 1500).
Proof.
  intros fromCoords toCoords.
  split; [split; [exact distance_200 | split; reflexivity] | ].
  apply (mode_bands fromCoords toCoords seededLogisticsRules 200 200 1500
           distance_200 eq_refl eq_refl).
Defined.

Module PricedFacts.
Import NumFacts.

(** A distance that is a number, and rules that price every mode: the
    travel time and the cost are numbers that are not negative. *)
Lemma priced_logistics (subCoords branchCoords : Coords) (rules : JsObj)
    (d : R) :
  pricedRules rules ->
  distance subCoords branchCoords = Fin d ->
  exists e k,
    eta_hours (calculateLogistics subCoords branchCoords rules) = Fin e /\
    cost_est (calculateLogistics subCoords branchCoords rules) = Fin k /\
    0 <= e /\ 0 <= k.
Proof.
  intros Hp Hd.
  destruct (RangeFacts.haversine_number_range _ _ _ _ d Hd) as [Hd0 _].
  destruct (ModeFacts.priced_trip _ _ rules d Hp Hd)
    as [v [b [k [Hv [Hb [Hk [He Hc]]]]]]].
  exists (d / v), (b + d * k). split; [exact He | ]. split; [exact Hc | ].
  split.
  - apply Rmult_le_pos; [lra | ]. left. now apply Rinv_0_lt_compat.
  - pose proof (Rmult_le_pos d k Hd0 Hk). lra.
Qed.

(** The distance a candidate records is the distance between the
    coordinates the handler read. *)
Lemma candidate_distance (env : Env) (st : Store) (rid : string)
    (request : RequestRow) (branchCoords : Coords) (rules : JsObj)
    (scenario : Scenario) (substitute : SubstituteRow) (t : nat) :
  details_distance_km (details_json
    (scoreSubstitute env st rid request branchCoords rules scenario
       substitute t)) =
  distance (parseCoords (base_coords substitute)) branchCoords.
Proof.
  destruct (ScoreFacts.candidate_logistics env st rid request branchCoords
              rules scenario substitute t) as [_ [_ [_ [_ Hd]]]].
  rewrite Hd. apply GeoFacts.calculateLogistics_distance.
Qed.

Lemma logistics_score_Fin (e k : R) :
  0 <= e -> 0 <= k ->
  exists lg,
    Num.max (Fin 0)
      (Num.sub (Num.sub (Fin 100) (Num.mul (Num.div (Fin e) (Fin 24)) (Fin 50)))
               (Num.mul (Num.div (Fin k) (Fin 10000)) (Fin 50))) = Fin lg /\
    0 <= lg <= 100.
Proof.
  intros He Hk. rewrite !div_Fin by lra. cbn [Num.mul].
  rewrite !sub_Fin, max_Fin. eexists. split; [reflexivity | ].
  apply ScoreFacts.Rmax0_le.
  assert (0 <= e / 24 * 50) by (apply Rmult_le_pos; [apply Rmult_le_pos | ]; lra).
  assert (0 <= k / 10000 * 50) by (apply Rmult_le_pos; [apply Rmult_le_pos | ]; lra).
  lra.
Qed.

End PricedFacts.

(** X8.  Under rules that give every mode a positive speed and a base
    cost and a cost per kilometre that are not negative, a candidate
    whose distance is a number has a travel time and a cost that are not
    negative, and a logistics score within [0, 100], whatever the two
    thresholds are. *)
Theorem priced_rules_logistics
    (env : Env) (st : Store) (rid : string) (request : RequestRow)
    (branchCoords : Coords) (rules : JsObj) (scenario : Scenario)
    (substitute : SubstituteRow) (t : nat) (d : R) :
  pricedRules rules ->
  let c := scoreSubstitute env st rid request branchCoords rules
             scenario substitute t in
  details_distance_km (details_json c) = Fin d ->
  Num.ge (details_eta_hours (details_json c)) (Fin 0) = true /\
  Num.ge (travel_cost (details_json c)) (Fin 0) = true /\
  inRange (logistics_score (details_json c)) = true.
Proof.
  intros Hp c Hd. unfold c in Hd. rewrite PricedFacts.candidate_distance in Hd.
  destruct (PricedFacts.priced_logistics _ _ rules d Hp Hd)
    as [e [k [He [Hk [He0 Hk0]]]]].
  destruct (ScoreFacts.candidate_logistics env st rid request branchCoords
              rules scenario substitute t) as [_ [He' [Hk' _]]].
  fold c in He', Hk'. rewrite He', Hk', He, Hk.
  split; [now apply NumFacts.ge_Fin | ].
  split; [now apply NumFacts.ge_Fin | ].
  unfold c. rewrite ScoreFacts.logistics_score_eq, He, Hk.
  destruct (PricedFacts.logistics_score_Fin e k He0 Hk0) as [lg [-> Hlg]].
  now apply ScoreFacts.inRange_Fin.
Qed.

Lemma seeded_rules_priced : pricedRules seededLogisticsRules.
Proof.
  repeat split; eexists; (split; [reflexivity | lra]).
Defined.

(** A profile based on the equator, 200 km south of the branch of the
    witnesses below. *)
Lemma equator_distance_200 (env : Env) (st : Store) (scenario : Scenario)
    (t : nat) :
  details_distance_km (details_json
    (scoreSubstitute env st "req-1" sampleRequest
       (Fin 0, Fin (36000 / (6371 * PI))) seededLogisticsRules scenario
       (mkSubstitute "emp-5" (PointText (Fin 0) (Fin 0)) true) t)) = Fin 200.
Proof. rewrite PricedFacts.candidate_distance. exact distance_200. Qed.

Lemma priced_rules_logistics_witness :
  let s := mkSubstitute "emp-5" (PointText (Fin 0) (Fin 0)) true in
  let c := scoreSubstitute quietEnv (sampleStore [s] seededSettings) "req-1"
             sampleRequest (Fin 0, Fin (36000 / (6371 * PI)))
             seededLogisticsRules defaultScenario s 0 in
  (pricedRules seededLogisticsRules /\
   details_distance_km (details_json c) = Fin 200) /\
  Num.ge (details_eta_hours (details_json c)) (Fin 0) = true /\
  Num.ge (travel_cost (details_json c)) (Fin 0) = true /\
  inRange (logistics_score (details_json c)) = true.
Proof.
  intros s c.
  assert (Hd : details_distance_km (details_json c) = Fin 200)
    by apply equator_distance_200.
  split; [split; [exact seeded_rules_priced | exact Hd] | ].
  exact (priced_rules_logistics quietEnv (sampleStore [s] seededSettings)
           "req-1" sampleRequest (Fin 0, Fin (36000 / (6371 * PI)))
           seededLogisticsRules defaultScenario s 0 200 seeded_rules_priced
           Hd).
Defined.

(** ** The speed score and the load score *)

(** X9.  The speed score depends on the time left until the request must
    start, in milliseconds: 0 when the time has passed, 100 from seven
    days (604800000 ms) on, and in between the time left divided by
    6048000, that is the share of the seven days in percent. *)
Theorem speed_score_by_time_left
    (env : Env) (st : Store) (rid : string) (request : RequestRow)
    (branchCoords : Coords) (rules : JsObj) (scenario : Scenario)
    (substitute : SubstituteRow) (t : nat) :
  let left := (must_start_by request - clock env t)%Z in
  let speed := speed_score (details_json
                 (scoreSubstitute env st rid request branchCoords rules
                    scenario substitute t)) in
  ((left <= 0)%Z -> speed = Fin 0) /\
  ((604800000 <= left)%Z -> speed = Fin 100) /\
  ((0 <= left <= 604800000)%Z -> speed = Fin (IZR left / 6048000)).
Proof.
  intros left speed. unfold speed. rewrite ScoreFacts.speed_score_eq.
  replace (IZR (must_start_by request) - IZR (clock env t)) with (IZR left)
    by (unfold left; now rewrite minus_IZR).
  replace (IZR left / (1000 * 60 * 60) / (24 * 7) * 100)
    with (IZR left / 6048000) by field.
  split; [ | split].
  - intros H. apply IZR_le in H. f_equal.
    rewrite Rmin_right by lra. apply Rmax_left. lra.
  - intros H. apply IZR_le in H. f_equal.
    rewrite Rmin_left by lra. apply Rmax_right. lra.
  - intros [H0 H7]. apply IZR_le in H0, H7. f_equal.
    rewrite Rmin_right by lra. apply Rmax_right. lra.
Qed.

Lemma speed_score_by_time_left_witness :
  (0 <= 345600000 - 0 <= 604800000)%Z /\
  speed_score (details_json
    (scoreSubstitute quietEnv (sampleStore [elena] seededSettings) "req-1"
       sampleRequest (parseCoords moscow) seededLogisticsRules
       defaultScenario elena 0)) = Fin (IZR (345600000 - 0) / 6048000).
Proof.
  assert (H : (0 <= 345600000 - 0 <= 604800000)%Z) by lia.
  split; [exact H | ].
  exact (proj2 (proj2 (speed_score_by_time_left quietEnv
           (sampleStore [elena] seededSettings) "req-1" sampleRequest
           (parseCoords moscow) seededLogisticsRules defaultScenario elena 0))
         H).
Defined.

(** X10.  The load score is read off the number n of assignments of the
    substitute created within the thirty days before the clock reading:
    100 - 25 n up to four assignments and 0 from four on.  When the count
    query fails, n is taken to be 0 and the load score is 100. *)
Theorem load_score_by_recent_assignments
    (env : Env) (st : Store) (rid : string) (request : RequestRow)
    (branchCoords : Coords) (rules : JsObj) (scenario : Scenario)
    (substitute : SubstituteRow) (t : nat) :
  let d := details_json
             (scoreSubstitute env st rid request branchCoords rules
                scenario substitute t) in
  let n := recent_assignments d in
  (fault env (CountAssignments t) = false ->
   n = List.length
         (filter (fun a => String.eqb (asg_substitute_id a)
                             (employee_id substitute)
                           && (clock env (t + 1) - 2592000000 <=? created_at a)%Z)
                 (assignments st))) /\
  (fault env (CountAssignments t) = true ->
   n = 0%nat /\ load_score d = Fin 100) /\
  ((n <= 4)%nat -> load_score d = Fin (100 - 25 * INR n)) /\
  ((4 <= n)%nat -> load_score d = Fin 0).
Proof.
  intros d n.
  pose proof (ScoreFacts.recent_assignments_eq env st rid request branchCoords
                rules scenario substitute t) as Hn.
  pose proof (ScoreFacts.load_score_eq env st rid request branchCoords
                rules scenario substitute t) as Hl.
  fold d in Hn, Hl. fold n in Hn, Hl.
  split; [ | split; [ | split]].
  - intros Hf. rewrite Hf in Hn. exact Hn.
  - intros Hf. rewrite Hf in Hn. split; [exact Hn | ].
    rewrite Hl, Hn. simpl. f_equal. rewrite Rmax_right by lra. lra.
  - intros H4. rewrite Hl. f_equal. apply le_INR in H4. simpl in H4.
    rewrite Rmax_right by lra. lra.
  - intros H4. rewrite Hl. f_equal. apply le_INR in H4. simpl in H4.
    rewrite Rmax_left by lra. reflexivity.
Qed.

Lemma load_score_by_recent_assignments_witness :
  let d := details_json
             (scoreSubstitute quietEnv busyStore "req-1" sampleRequest
                (parseCoords moscow) seededLogisticsRules defaultScenario
                olga 0) in
  (fault quietEnv (CountAssignments 0) = false /\
   (recent_assignments d <= 4)%nat) /\
  recent_assignments d = 1%nat /\
  load_score d = Fin (100 - 25 * INR (recent_assignments d)).
Proof.
  intros d.
  assert (Hf : fault quietEnv (CountAssignments 0) = false) by reflexivity.
  assert (H4 : (recent_assignments d <= 4)%nat) by (vm_compute; lia).
  split; [split; [exact Hf | exact H4] | ].
  split.
  - exact (eq_trans
             (proj1 (load_score_by_recent_assignments quietEnv busyStore
                       "req-1" sampleRequest (parseCoords moscow)
                       seededLogisticsRules defaultScenario olga 0) Hf)
             eq_refl).
  - exact (proj1 (proj2 (proj2 (load_score_by_recent_assignments quietEnv
             busyStore "req-1" sampleRequest (parseCoords moscow)
             seededLogisticsRules defaultScenario olga 0))) H4).
Defined.

(** ** The final score *)




(** ** The ranked list against the rest of the pool *)

Module TopFacts.

Lemma StronglySorted_app_cross {A : Type} (R : A -> A -> Prop)
    (l1 l2 : list A) :
  StronglySorted R (l1 ++ l2) ->
  forall x y, In x l1 -> In y l2 -> R x y.
Proof.
  induction l1 as [ | a l1 IH]; intros Hs x y Hx Hy; [contradiction | ].
  simpl in Hs. apply StronglySorted_inv in Hs. destruct Hs as [Hs Ha].
  destruct Hx as [<- | Hx].
  - rewrite Forall_forall in Ha. apply Ha, in_or_app. now right.
  - now apply IH.
Qed.

Lemma sort_descending (cs : list Candidate) :
  Forall (fun c => score c <> NaN) cs ->
  StronglySorted descending (sort byScore cs).
Proof.
  intros Hnum.
  apply (RankFacts.StronglySorted_weaken (fun c => score c <> NaN)
           (inOrder byScore)).
  - intros a b Ha Hb. now apply RankFacts.byScore_inOrder.
  - rewrite Forall_forall in *. intros c Hc. apply Hnum.
    now apply sort_In in Hc.
  - apply (sort_sorted byScore (fun c => score c <> NaN)).
    + apply RankFacts.byScore_asym.
    + apply RankFacts.byScore_trans.
    + assumption.
Qed.

Lemma NoDup_firstn {A : Type} (n : nat) (l : list A) :
  NoDup l -> NoDup (firstn n l).
Proof.
  intros H. rewrite <- (firstn_skipn n l) in H.
  now apply NoDup_app_remove_r in H.
Qed.

End TopFacts.

(** X12.  When the scores of a scenario are numbers, the ranked list
    holds the best of the pool: the candidates of the scenario are the
    ranked ones and the ones left out, and no candidate left out has a
    score above that of a ranked one. *)
Theorem ranked_list_dominates (env : Env) (st : Store) (rid : string)
    (request : RequestRow) (subs : list SubstituteRow) (i : nat) :
  let scored := scoredFor env st rid request subs i in
  let ranked := rankedFor env st rid request subs i in
  Forall (fun c => score c <> NaN) scored ->
  exists rest,
    Permutation scored (ranked ++ rest) /\
    List.length rest = (List.length scored - 5)%nat /\
    forall c c', In c ranked -> In c' rest ->
      Num.ge (score c) (score c') = true.
Proof.
  intros scored ranked Hnum.
  exists (skipn 5 (sort byScore scored)).
  assert (Hr : ranked = firstn 5 (sort byScore scored))
    by apply ServeFacts.rankedFor_eq.
  rewrite Hr, firstn_skipn. split; [ | split].
  - apply Permutation_sym, sort_perm.
  - now rewrite length_skipn, sort_length.
  - intros c c' Hc Hc'.
    apply (TopFacts.StronglySorted_app_cross descending
             (firstn 5 (sort byScore scored)) (skipn 5 (sort byScore scored)));
      [ | assumption | assumption].
    rewrite firstn_skipn. now apply TopFacts.sort_descending.
Qed.

Lemma ranked_list_dominates_witness :
  let st := sampleStore [olga; elena] seededSettings in
  let scored := scoredFor quietEnv st "req-1" sampleRequest [olga; elena] 0 in
  let ranked := rankedFor quietEnv st "req-1" sampleRequest [olga; elena] 0 in
  Forall (fun c => score c <> NaN) scored /\
  exists rest,
    Permutation scored (ranked ++ rest) /\
    List.length rest = (List.length scored - 5)%nat /\
    forall c c', In c ranked -> In c' rest ->
      Num.ge (score c) (score c') = true.
Proof.
  intros st scored ranked.
  assert (Hnum : Forall (fun c => score c <> NaN) scored).
  { apply SampleFacts.sample_scores_numbers. repeat constructor. }
  split; [exact Hnum | ].
  exact (ranked_list_dominates quietEnv st "req-1" sampleRequest [olga; elena]
           0 Hnum).
Defined.

(** X13.  When no two profiles of the pool share an employee, no
    substitute stands twice in a ranked list. *)
Theorem ranked_list_no_repeat (env : Env) (st : Store) (rid : string)
    (request : RequestRow) (subs : list SubstituteRow) (i : nat) :
  NoDup (map employee_id subs) ->
  NoDup (map substitute_id (rankedFor env st rid request subs i)).
Proof.
  intros Hnd. rewrite ServeFacts.rankedFor_eq. unfold slice0.
  rewrite <- firstn_map. apply TopFacts.NoDup_firstn.
  apply (Permutation_NoDup
           (l := map substitute_id (scoredFor env st rid request subs i))).
  - apply Permutation_map, Permutation_sym, sort_perm.
  - destruct (Nat.lt_ge_cases i 3) as [Hi | Hi].
    + now rewrite ServeFacts.scoredFor_ids.
    + unfold scoredFor.
      replace (nth_error (scenariosOf (fetchSettings env st)) i)
        with (@None Scenario); [constructor | ].
      symmetry. apply nth_error_None. simpl. lia.
Qed.

Lemma ranked_list_no_repeat_witness :
  let st := sampleStore [olga; elena] seededSettings in
  NoDup (map employee_id [olga; elena]) /\
  NoDup (map substitute_id
           (rankedFor quietEnv st "req-1" sampleRequest [olga; elena] 0)).
Proof.
  intros st.
  assert (Hnd : NoDup (map employee_id [olga; elena])).
  { repeat constructor; simpl; [ | intros []].
    intros [H | []]. discriminate H. }
  split; [exact Hnd | ].
  exact (ranked_list_no_repeat quietEnv st "req-1" sampleRequest [olga; elena]
           0 Hnd).
Defined.

(** ** What a run leaves in the store *)

Module FrameFacts.

(** The store after a run: untouched, without the rows of the request, or
    with new rows of the request in their place and the status set. *)
Lemma serve_store_cases (env : Env) (rid : string) (st : Store) :
  let st' := snd (serve env rid st) in
  st' = st \/
  st' = deleteCandidates env rid st \/
  exists cs,
    Forall (fun c => request_id c = rid) cs /\
    st' = updateStatus env rid
            (appendCandidates cs (deleteCandidates env rid st)).
Proof.
  unfold serve.
  destruct (fetchRequest env st rid) as [e | request]; [now left | ].
  destruct (fetchSubstitutes env st) as [e | subs]; [now left | ].
  pose proof (ServeFacts.computeCandidates_request env st rid request subs)
    as Hall.
  destruct (0 <? List.length (computeCandidates env st rid request subs))%nat.
  - unfold insertCandidates. destruct (fault env InsertCandidates).
    + right. now left.
    + right. right. eexists. split; [exact Hall | reflexivity].
  - right. right. exists []. split; [constructor | ].
    cbn [snd]. now rewrite ServeFacts.appendCandidates_nil.
Qed.

Lemma deleteCandidates_other (env : Env) (rid rid' : string) (st : Store) :
  rid' <> rid ->
  candidatesOf rid' (assignment_candidates (deleteCandidates env rid st)) =
  candidatesOf rid' (assignment_candidates st).
Proof.
  intros Hne. unfold deleteCandidates.
  destruct (fault env DeleteCandidates); [reflexivity | ].
  now apply ServeFacts.candidatesOf_other_deleted.
Qed.

Lemma deleteCandidates_tables (env : Env) (rid : string) (st : Store) :
  assignment_requests (deleteCandidates env rid st) = assignment_requests st /\
  substitute_profiles (deleteCandidates env rid st) = substitute_profiles st /\
  settings (deleteCandidates env rid st) = settings st /\
  assignments (deleteCandidates env rid st) = assignments st.
Proof.
  unfold deleteCandidates. now destruct (fault env DeleteCandidates).
Qed.

Lemma setMatching_other (rid : string) (r : RequestRow) :
  id r <> rid -> setMatching rid r = r.
Proof.
  intros Hne. unfold setMatching.
  now destruct (String.eqb_spec (id r) rid).
Qed.

Lemma map_setMatching_ids (rid : string) (rs : list RequestRow) :
  map id (map (setMatching rid) rs) = map id rs.
Proof.
  rewrite map_map. apply map_ext. intros r. apply RerunFacts.setMatching_id.
Qed.

Lemma updateStatus_requests (env : Env) (rid : string) (st : Store) :
  assignment_requests (updateStatus env rid st) =
  if fault env UpdateStatus then assignment_requests st
  else map (setMatching rid) (assignment_requests st).
Proof. unfold updateStatus. now destruct (fault env UpdateStatus). Qed.

End FrameFacts.

(** X14.  Whatever the outcome of a run for a request, it leaves the
    substitute profiles, the settings and the assignments as they were;
    the requests keep their rows, and every row of another request is
    unchanged; the stored candidates of every other request are
    unchanged. *)
Theorem serve_frame (env : Env) (rid : string) (st : Store) :
  let st' := snd (serve env rid st) in
  substitute_profiles st' = substitute_profiles st /\
  settings st' = settings st /\
  assignments st' = assignments st /\
  map id (assignment_requests st') = map id (assignment_requests st) /\
  (forall r, In r (assignment_requests st) -> id r <> rid ->
             In r (assignment_requests st')) /\
  (forall rid', rid' <> rid ->
     candidatesOf rid' (assignment_candidates st') =
     candidatesOf rid' (assignment_candidates st)).
Proof.
  intros st'.
  destruct (FrameFacts.deleteCandidates_tables env rid st)
    as [Hdr [Hds [Hdt Hda]]].
  destruct (FrameFacts.serve_store_cases env rid st)
    as [H | [H | [cs [Hcs H]]]]; fold st' in H; rewrite H; clear H.
  - repeat split; auto.
  - rewrite Hdr, Hds, Hdt, Hda. repeat split; auto.
    intros rid' Hne. now apply FrameFacts.deleteCandidates_other.
  - destruct (RerunFacts.store_tables_after env rid st cs) as [Hs [Ht Ha]].
    rewrite Hs, Ht, Ha. repeat split.
    + rewrite FrameFacts.updateStatus_requests.
      destruct (fault env UpdateStatus); cbn [appendCandidates assignment_requests];
        rewrite ?FrameFacts.map_setMatching_ids; now rewrite Hdr.
    + intros r Hr Hne. rewrite FrameFacts.updateStatus_requests.
      cbn [appendCandidates assignment_requests]. rewrite Hdr.
      destruct (fault env UpdateStatus); [exact Hr | ].
      rewrite <- (FrameFacts.setMatching_other rid r Hne).
      now apply in_map.
    + intros rid' Hne. rewrite ServeFacts.updateStatus_candidates.
      cbn [appendCandidates assignment_candidates].
      rewrite ServeFacts.candidatesOf_app,
        (ServeFacts.candidatesOf_foreign rid rid' cs Hne Hcs), app_nil_r.
      now apply FrameFacts.deleteCandidates_other.
Qed.

Lemma serve_frame_witness :
  let foreign :=
    mkCandidate "req-2" "emp-9" (Fin 50) "default"
      (details_json staleCandidate) (logistics_json staleCandidate) in
  let st := mkStore [sampleRequest] [elena] seededSettings []
              [staleCandidate; foreign] in
  "req-2"%string <> "req-1"%string /\
  candidatesOf "req-2"
    (assignment_candidates (snd (serve quietEnv "req-1" st))) = [foreign].
Proof.
  intros foreign st.
  assert (Hne : "req-2"%string <> "req-1"%string) by discriminate.
  split; [exact Hne | ].
  exact (eq_trans
           (proj2 (proj2 (proj2 (proj2 (proj2
              (serve_frame quietEnv "req-1" st))))) "req-2"%string Hne)
           eq_refl).
Defined.

(** X15.  A run that answers with a success sets the status of the
    request to "matching" whatever the status was before (closed,
    assigned and canceled requests included), unless the update itself
    fails, which the handler does not notice: the answer is a success and
    the status stays.  A run that answers with an error leaves every
    request row as it was. *)
Theorem status_after_run (env : Env) (rid : string) (st st' : Store) :
  (forall n scs,
     serve env rid st = (Ok200 n scs, st') ->
     assignment_requests st' =
       (if fault env UpdateStatus then assignment_requests st
        else map (setMatching rid) (assignment_requests st)) /\
     (fault env UpdateStatus = false ->
      forall r, In r (assignment_requests st') -> id r = rid ->
                status r = st_matching)) /\
  (forall message,
     serve env rid st = (Error500 message, st') ->
     assignment_requests st' = assignment_requests st).
Proof.
  split.
  - intros n scs H.
    destruct (RerunFacts.serve_ok_inv env rid st st' n scs H)
      as [request [subs [_ [_ [_ [_ [_ ->]]]]]]].
    assert (Hreq : assignment_requests
                     (updateStatus env rid
                        (appendCandidates
                           (computeCandidates env st rid request subs)
                           (deleteCandidates env rid st))) =
                   if fault env UpdateStatus then assignment_requests st
                   else map (setMatching rid) (assignment_requests st)).
    { rewrite FrameFacts.updateStatus_requests.
      cbn [appendCandidates assignment_requests].
      now rewrite ServeFacts.deleteCandidates_requests. }
    split; [exact Hreq | ].
    intros Hf r Hr Hid. rewrite Hreq, Hf in Hr.
    apply in_map_iff in Hr. destruct Hr as [r0 [<- _]].
    rewrite RerunFacts.setMatching_id in Hid.
    unfold setMatching. apply String.eqb_eq in Hid. now rewrite Hid.
  - intros message H. unfold serve in H.
    destruct (fetchRequest env st rid) as [e | request];
      [now injection H as _ <- | ].
    destruct (fetchSubstitutes env st) as [e | subs];
      [now injection H as _ <- | ].
    destruct (0 <? List.length (computeCandidates env st rid request subs))%nat;
      [ | discriminate H].
    destruct (insertCandidates env _ _); [ | discriminate H].
    injection H as _ <-. apply ServeFacts.deleteCandidates_requests.
Qed.

Lemma status_after_run_witness :
  let closed := mkRequest "req-1" moscow 345600000 432000000 st_closed in
  let st := mkStore [closed] [elena] seededSettings [] [] in
  let st' := snd (serve quietEnv "req-1" st) in
  (serve quietEnv "req-1" st = (Ok200 3 ["default"; "fast"; "near"]%string, st') /\
   fault quietEnv UpdateStatus = false) /\
  map status (assignment_requests st') = [st_matching].
Proof.
  intros closed st st'.
  assert (Hrun : serve quietEnv "req-1" st =
                 (Ok200 3 ["default"; "fast"; "near"]%string, st'))
    by reflexivity.
  split; [split; [exact Hrun | reflexivity] | ].
  rewrite (proj1 (proj1 (status_after_run quietEnv "req-1" st st') _ _ Hrun)).
  reflexivity.
Defined.

(** ** The settings *)

Module SettingFacts.

Lemma find_filter {A : Type} (p q : A -> bool) (l : list A) :
  (forall x, p x = true -> q x = true) ->
  find p (filter q l) = find p l.
Proof.
  intros Hpq. induction l as [ | x l IH]; [reflexivity | ]. simpl.
  destruct (q x) eqn:Hq; simpl.
  - destruct (p x); [reflexivity | exact IH].
  - destruct (p x) eqn:Hp; [ | exact IH].
    apply Hpq in Hp. congruence.
Qed.

Lemma find_unique (rows : list SettingRow) (row : SettingRow) :
  NoDup (map key rows) -> In row rows ->
  find (fun s => String.eqb (key s) (key row)) rows = Some row.
Proof.
  induction rows as [ | r rows IH]; intros Hnd Hin; [contradiction | ].
  simpl in Hnd. apply NoDup_cons_iff in Hnd. destruct Hnd as [Hr Hnd].
  simpl. destruct Hin as [-> | Hin].
  - now rewrite String.eqb_refl.
  - destruct (String.eqb_spec (key r) (key row)) as [Heq | Hne].
    + exfalso. apply Hr. rewrite Heq. now apply in_map.
    + now apply IH.
Qed.

Lemma find_absent (rows : list SettingRow) (k : string) :
  ~ In k (map key rows) ->
  find (fun s => String.eqb (key s) k) rows = None.
Proof.
  induction rows as [ | r rows IH]; intros Hk; [reflexivity | ].
  simpl in *. destruct (String.eqb_spec (key r) k) as [Heq | Hne].
  - exfalso. apply Hk. now left.
  - apply IH. intros H. apply Hk. now right.
Qed.

End SettingFacts.

(** X16.  When the settings query succeeds, each of the four settings is
    looked up as in the whole table: restricting the query to the four
    keys loses nothing.  With keys that are unique in the table, a
    setting is the stored object of its key, and the fallback when the
    key has no row or a null value. *)
Theorem settings_lookup (env : Env) (st : Store) (k : string)
    (fallback : JsObj) :
  fault env FetchSettings = false ->
  In k settingKeys ->
  NoDup (map key (settings st)) ->
  (forall v, In (mkSetting k (Some v)) (settings st) ->
             setting (fetchSettings env st) k fallback = v) /\
  (In (mkSetting k None) (settings st) ->
   setting (fetchSettings env st) k fallback = fallback) /\
  (~ In k (map key (settings st)) ->
   setting (fetchSettings env st) k fallback = fallback).
Proof.
  intros Hf Hk Hnd.
  assert (Hfind :
    setting (fetchSettings env st) k fallback =
    match find (fun s => String.eqb (key s) k) (settings st) with
    | Some row => match value_json row with Some v => v | None => fallback end
    | None => fallback
    end).
  { unfold fetchSettings, setting. rewrite Hf.
    rewrite SettingFacts.find_filter; [reflexivity | ].
    intros s Hs. apply String.eqb_eq in Hs. rewrite Hs.
    apply existsb_exists. exists k. split; [exact Hk | apply String.eqb_refl]. }
  rewrite Hfind. split; [ | split].
  - intros v Hin.
    pose proof (SettingFacts.find_unique _ (mkSetting k (Some v)) Hnd Hin) as H.
    cbn [key] in H. now rewrite H.
  - intros Hin.
    pose proof (SettingFacts.find_unique _ (mkSetting k None) Hnd Hin) as H.
    cbn [key] in H. now rewrite H.
  - intros Hout. now rewrite SettingFacts.find_absent.
Qed.

Lemma settings_lookup_witness :
  let st := sampleStore [elena] seededSettings in
  (fault quietEnv FetchSettings = false /\
   In "logistics_rules"%string settingKeys /\
   NoDup (map key (settings st)) /\
   In (mkSetting "logistics_rules" (Some seededLogisticsRules)) (settings st)) /\
  setting (fetchSettings quietEnv st) "logistics_rules" [] =
  seededLogisticsRules.
Proof.
  intros st.
  assert (Hf : fault quietEnv FetchSettings = false) by reflexivity.
  assert (Hk : In "logistics_rules"%string settingKeys) by (left; reflexivity).
  assert (Hnd : NoDup (map key (settings st))).
  { repeat constructor; simpl; intuition discriminate. }
  assert (Hin : In (mkSetting "logistics_rules" (Some seededLogisticsRules))
                   (settings st))
    by (right; right; right; left; reflexivity).
  split; [now repeat split | ].
  exact (proj1 (settings_lookup quietEnv st "logistics_rules" [] Hf Hk Hnd)
           seededLogisticsRules Hin).
Defined.

(** X17.  An error of the settings query is not looked at: the run goes
    on with the documented default weights and with no rules, so that
    every candidate gets the mode "car" and NaN as travel time, cost,
    logistics score and final score, whatever the settings table holds. *)
Theorem settings_error_ignored (env : Env) (st : Store) (rid : string)
    (request : RequestRow) (subs : list SubstituteRow) :
  fault env FetchSettings = true ->
  scenariosOf (fetchSettings env st) =
    [ mkScenario "default" defaultWeightsFallback;
      mkScenario "fast" fastWeightsFallback;
      mkScenario "near" nearWeightsFallback ] /\
  setting (fetchSettings env st) "logistics_rules" [] = [] /\
  List.length (computeCandidates env st rid request subs) =
    (3 * Nat.min 5 (List.length subs))%nat /\
  Forall (fun c => mode (logistics_json c) = "car"%string /\
                   eta_hours (logistics_json c) = NaN /\
                   cost_est (logistics_json c) = NaN /\
                   logistics_score (details_json c) = NaN /\
                   score c = NaN)
         (computeCandidates env st rid request subs).
Proof.
  intros Hf.
  assert (Hs : fetchSettings env st = None)
    by (unfold fetchSettings; now rewrite Hf).
  split; [now rewrite Hs | ]. split; [now rewrite Hs | ].
  split; [apply ServeFacts.computeCandidates_length | ].
  apply Forall_forall. intros c Hc. unfold computeCandidates in Hc.
  rewrite Hs in Hc. cbn [setting] in Hc.
  apply LoopFacts.rankScenarios_In in Hc.
  destruct Hc as [scenario [s [k [_ [_ ->]]]]].
  apply FallbackFacts.no_rules_candidate.
Qed.

Lemma settings_error_ignored_witness :
  let env := mkEnv (fun _ => 0%Z)
               (fun c => match c with FetchSettings => true | _ => false end) in
  let st := sampleStore [elena] seededSettings in
  fault env FetchSettings = true /\
  Forall (fun c => mode (logistics_json c) = "car"%string /\
                   eta_hours (logistics_json c) = NaN /\
                   cost_est (logistics_json c) = NaN /\
                   logistics_score (details_json c) = NaN /\
                   score c = NaN)
         (computeCandidates env st "req-1" sampleRequest [elena]).
Proof.
  intros env st. split; [reflexivity | ].
  exact (proj2 (proj2 (proj2
           (settings_error_ignored env st "req-1" sampleRequest [elena]
              eq_refl)))).
Defined.

(** ** A delete that fails *)

(** X18.  The result of the delete is not looked at: when it fails and
    the insert goes through, the answer is a success and the request
    keeps its former candidate rows next to the new ones. *)
Theorem failed_delete_keeps_old_rows (env : Env) (rid : string) (st : Store)
    (request : RequestRow) (subs : list SubstituteRow) :
  fetchRequest env st rid = inr request ->
  fetchSubstitutes env st = inr subs ->
  fault env DeleteCandidates = true ->
  fault env InsertCandidates = false ->
  let allCandidates := computeCandidates env st rid request subs in
  fst (serve env rid st) =
    Ok200 (List.length allCandidates) ["default"; "fast"; "near"]%string /\
  assignment_candidates (snd (serve env rid st)) =
    assignment_candidates st ++ allCandidates /\
  candidatesOf rid (assignment_candidates (snd (serve env rid st))) =
    candidatesOf rid (assignment_candidates st) ++ allCandidates.
Proof.
  intros Hreq Hsubs Hdel Hins allCandidates.
  rewrite (ServeFacts.serve_ok env rid st request subs Hreq Hsubs
             (or_intror Hins)).
  fold allCandidates. cbn [fst snd].
  rewrite ServeFacts.updateStatus_candidates.
  unfold deleteCandidates. rewrite Hdel.
  cbn [appendCandidates assignment_candidates].
  split; [reflexivity | ]. split; [reflexivity | ].
  rewrite ServeFacts.candidatesOf_app. f_equal.
  apply ServeFacts.candidatesOf_own.
  apply ServeFacts.computeCandidates_request.
Qed.

Lemma failed_delete_keeps_old_rows_witness :
  let env := mkEnv (fun _ => 0%Z)
               (fun c => match c with DeleteCandidates => true | _ => false end) in
  let st := sampleStore [elena] seededSettings in
  (fetchRequest env st "req-1" = inr sampleRequest /\
   fetchSubstitutes env st = inr [elena] /\
   fault env DeleteCandidates = true /\
   fault env InsertCandidates = false) /\
  assignment_candidates (snd (serve env "req-1" st)) =
    staleCandidate :: computeCandidates env st "req-1" sampleRequest [elena].
Proof.
  intros env st. split; [now repeat split | ].
  exact (proj1 (proj2
           (failed_delete_keeps_old_rows env "req-1" st sampleRequest [elena]
              eq_refl eq_refl eq_refl eq_refl))).
Defined.

(** ** The request page *)

Module PageFacts.

Lemma setStatus_matching (rid : string) (r : RequestRow) :
  setStatus st_matching rid r = setMatching rid r.
Proof. reflexivity. Qed.

Lemma setStatus_id (s : request_status) (rid : string) (r : RequestRow) :
  id (setStatus s rid r) = id r.
Proof. unfold setStatus. now destruct (String.eqb (id r) rid). Qed.

Lemma filter_setStatus (s : request_status) (rid : string)
    (rs : list RequestRow) :
  filter (fun r => String.eqb (id r) rid) (map (setStatus s rid) rs) =
  map (setStatus s rid) (filter (fun r => String.eqb (id r) rid) rs).
Proof.
  induction rs as [ | r rs IH]; [reflexivity | ]. simpl.
  rewrite setStatus_id. destruct (String.eqb (id r) rid); simpl;
    now rewrite IH.
Qed.

Lemma statusOf_requests (rid : string) (st1 st2 : Store) :
  assignment_requests st1 = assignment_requests st2 ->
  statusOf rid st1 = statusOf rid st2.
Proof. unfold statusOf. now intros ->. Qed.

(** The status after an update that went through. *)
Lemma statusOf_set (s s0 : request_status) (rid : string) (st st' : Store) :
  statusOf rid st = Some s0 ->
  assignment_requests st' = map (setStatus s rid) (assignment_requests st) ->
  statusOf rid st' = Some s.
Proof.
  unfold statusOf. intros H ->. rewrite filter_setStatus.
  destruct (filter (fun r => String.eqb (id r) rid) (assignment_requests st))
    as [ | r [ | r' rs]] eqn:Hf; try discriminate.
  simpl. unfold setStatus.
  assert (Hin : In r (filter (fun r => String.eqb (id r) rid)
                        (assignment_requests st)))
    by (rewrite Hf; now left).
  apply filter_In in Hin. destruct Hin as [_ Hid]. now rewrite Hid.
Qed.

(** The request table after a run of the handler. *)
Lemma serve_requests (env : Env) (rid : string) (st : Store) :
  assignment_requests (snd (serve env rid st)) = assignment_requests st \/
  assignment_requests (snd (serve env rid st)) =
    map (setMatching rid) (assignment_requests st).
Proof.
  destruct (FrameFacts.serve_store_cases env rid st)
    as [H | [H | [cs [_ H]]]]; rewrite H.
  - now left.
  - left. apply ServeFacts.deleteCandidates_requests.
  - rewrite FrameFacts.updateStatus_requests.
    cbn [appendCandidates assignment_requests].
    rewrite ServeFacts.deleteCandidates_requests.
    destruct (fault env UpdateStatus); [now left | now right].
Qed.

Lemma runMatching_store (page : PageEnv) (env : Env) (rid : string)
    (st : Store) :
  let st1 := pageUpdateStatus (pageFault page PageSetMatching) st_matching
               rid st in
  snd (runMatching page env rid st) =
  if pageFault page PageInvoke then st1 else snd (serve env rid st1).
Proof.
  unfold runMatching. cbn zeta.
  destruct (pageFault page PageInvoke); [reflexivity | ].
  destruct (serve env rid _) as [[n scs | message] st2]; reflexivity.
Qed.

Lemma map_setMatching_twice (rid : string) (rs : list RequestRow) :
  map (setMatching rid) (map (setMatching rid) rs) = map (setMatching rid) rs.
Proof.
  rewrite map_map. apply map_ext. intros r. apply RerunFacts.setMatching_twice.
Qed.

Lemma runMatching_requests (page : PageEnv) (env : Env) (rid : string)
    (st : Store) :
  pageFault page PageSetMatching = false ->
  assignment_requests (snd (runMatching page env rid st)) =
  map (setMatching rid) (assignment_requests st).
Proof.
  intros Hset. rewrite runMatching_store. unfold pageUpdateStatus.
  rewrite Hset. destruct (pageFault page PageInvoke); [reflexivity | ].
  match goal with
  | |- assignment_requests (snd (serve env rid ?s)) = _ =>
      destruct (serve_requests env rid s) as [H | H]; rewrite H
  end; cbn [assignment_requests]; [reflexivity | ].
  apply map_setMatching_twice.
Qed.

Lemma StronglySorted_filter {A : Type} (R : A -> A -> Prop) (p : A -> bool)
    (l : list A) :
  StronglySorted R l -> StronglySorted R (filter p l).
Proof.
  induction 1 as [ | a l Hs IH Ha]; simpl; [constructor | ].
  destruct (p a); [ | exact IH].
  constructor; [exact IH | ].
  rewrite Forall_forall in *. intros x Hx. apply filter_In in Hx.
  now apply Ha.
Qed.

Lemma Permutation_filter {A : Type} (p : A -> bool) (l l' : list A) :
  Permutation l l' -> Permutation (filter p l) (filter p l').
Proof.
  induction 1 as [ | x l l' _ IH | x y l | l l' l'' _ IH1 _ IH2]; simpl.
  - constructor.
  - destruct (p x); [now constructor | exact IH].
  - destruct (p x), (p y); try apply Permutation_refl. apply perm_swap.
  - now apply (Permutation_trans IH1).
Qed.

Lemma tab_of_request (rid ty : string) (cs : list Candidate) :
  tab ty (candidatesOf rid cs) = scenarioSet rid ty cs.
Proof.
  unfold tab, candidatesOf, scenarioSet.
  induction cs as [ | c cs IH]; [reflexivity | ]. simpl.
  destruct (String.eqb (request_id c) rid); simpl;
    [destruct (String.eqb (scenario_type c) ty) | ]; now rewrite IH.
Qed.

End PageFacts.

(** X19.  [runMatching] sets the status before it calls the handler and
    does not set it back: when its update goes through, the request is
    in "matching" afterwards whether the run succeeded or failed, and
    every other request row is as before. *)
Theorem runMatching_leaves_matching (page : PageEnv) (env : Env)
    (rid : string) (st : Store) (s0 : request_status) :
  pageFault page PageSetMatching = false ->
  let st' := snd (runMatching page env rid st) in
  assignment_requests st' = map (setMatching rid) (assignment_requests st) /\
  (statusOf rid st = Some s0 -> statusOf rid st' = Some st_matching) /\
  (fst (runMatching page env rid st) = MatchingFailed ->
   pageFault page PageInvoke = true \/
   exists message,
     fst (serve env rid (pageUpdateStatus false st_matching rid st)) =
     Error500 message).
Proof.
  intros Hset st'.
  pose proof (PageFacts.runMatching_requests page env rid st Hset) as Hreq.
  fold st' in Hreq. split; [exact Hreq | ]. split.
  - intros Hs. now apply (PageFacts.statusOf_set st_matching s0 rid st st').
  - unfold runMatching. rewrite Hset.
    destruct (pageFault page PageInvoke); [now left | ].
    destruct (serve env rid _) as [[n scs | message] st2]; cbn [fst].
    + discriminate.
    + intros _. right. now exists message.
Qed.

Lemma runMatching_leaves_matching_witness :
  let page := mkPageEnv (fun _ => false) 0 in
  let st := sampleStore [elena] seededSettings in
  (pageFault page PageSetMatching = false /\
   statusOf "req-1" st = Some st_open) /\
  fst (runMatching page insertFailsEnv "req-1" st) = MatchingFailed /\
  statusOf "req-1" (snd (runMatching page insertFailsEnv "req-1" st)) =
  Some st_matching.
Proof.
  intros page st.
  assert (Hset : pageFault page PageSetMatching = false) by reflexivity.
  assert (Hs : statusOf "req-1" st = Some st_open) by reflexivity.
  split; [split; [exact Hset | exact Hs] | ].
  split; [reflexivity | ].
  exact (proj1 (proj2 (runMatching_leaves_matching page insertFailsEnv "req-1"
                         st st_open Hset)) Hs).
Defined.

(** X20.  After a run that succeeded (with a delete that went through),
    the rows the page fetches for the request fall into its three tabs:
    the tab of a scenario holds the ranked list of that scenario, at most
    five rows, in descending order of score when the rows were fetched in
    that order, and the three tabs together hold as many rows as the
    answer counts. *)
Theorem tabs_hold_ranked_lists (env : Env) (rid : string) (st st' : Store)
    (request : RequestRow) (subs : list SubstituteRow) (n : nat)
    (scs : list string) (rows : list Candidate) :
  fetchRequest env st rid = inr request ->
  fetchSubstitutes env st = inr subs ->
  fault env DeleteCandidates = false ->
  serve env rid st = (Ok200 n scs, st') ->
  fetchedCandidates st' rid rows ->
  (forall i ty,
     nth_error ["default"; "fast"; "near"]%string i = Some ty ->
     Permutation (tab ty rows) (rankedFor env st rid request subs i) /\
     (List.length (tab ty rows) <= 5)%nat /\
     (StronglySorted descending rows ->
      StronglySorted descending (tab ty rows))) /\
  (List.length (tab "default" rows) + List.length (tab "fast" rows)
   + List.length (tab "near" rows))%nat = n /\
  List.length rows = n.
Proof.
  intros Hreq Hsubs Hdel Hrun Hrows.
  destruct (RerunFacts.serve_ok_inv env rid st st' n scs Hrun)
    as [request' [subs' [Hreq' [Hsubs' [Hok [Hn [_ Hst']]]]]]].
  rewrite Hreq in Hreq'. injection Hreq' as <-.
  rewrite Hsubs in Hsubs'. injection Hsubs' as <-.
  set (allCandidates := computeCandidates env st rid request subs) in *.
  assert (Hall : Forall (fun c => request_id c = rid) allCandidates)
    by apply ServeFacts.computeCandidates_request.
  assert (Hstored : candidatesOf rid (assignment_candidates st') = allCandidates).
  { rewrite Hst', ServeFacts.updateStatus_candidates.
    cbn [appendCandidates assignment_candidates].
    rewrite (ServeFacts.deleteCandidates_candidates env rid st Hdel).
    rewrite ServeFacts.candidatesOf_app, ServeFacts.candidatesOf_deleted.
    now apply ServeFacts.candidatesOf_own. }
  unfold fetchedCandidates in Hrows. rewrite Hstored in Hrows.
  assert (Htab : forall i ty,
            nth_error ["default"; "fast"; "near"]%string i = Some ty ->
            Permutation (tab ty rows) (rankedFor env st rid request subs i)).
  { intros i ty Hty.
    rewrite <- (ServeFacts.scenarioSet_computeCandidates env st rid request
                  subs i ty Hty).
    fold allCandidates.
    rewrite <- (PageFacts.tab_of_request rid ty allCandidates).
    rewrite (ServeFacts.candidatesOf_own rid allCandidates Hall).
    now apply PageFacts.Permutation_filter. }
  assert (Hlen : forall i ty,
            nth_error ["default"; "fast"; "near"]%string i = Some ty ->
            List.length (tab ty rows) = Nat.min 5 (List.length subs)).
  { intros i ty Hty. rewrite (Permutation_length (Htab i ty Hty)).
    apply ServeFacts.rankedFor_length.
    destruct i as [ | [ | [ | i]]]; [lia | lia | lia | ].
    simpl in Hty. destruct i; discriminate Hty. }
  split; [ | split].
  - intros i ty Hty. split; [now apply Htab | ]. split.
    + rewrite (Hlen i ty Hty). lia.
    + apply PageFacts.StronglySorted_filter.
  - rewrite (Hlen 0%nat "default"%string eq_refl),
      (Hlen 1%nat "fast"%string eq_refl), (Hlen 2%nat "near"%string eq_refl).
    rewrite Hn. unfold allCandidates.
    rewrite ServeFacts.computeCandidates_length. lia.
  - rewrite (Permutation_length Hrows). now rewrite Hn.
Qed.

Lemma tabs_hold_ranked_lists_witness :
  let st := sampleStore [olga; elena] seededSettings in
  let st' := snd (serve quietEnv "req-1" st) in
  let rows := candidatesOf "req-1" (assignment_candidates st') in
  (fetchRequest quietEnv st "req-1" = inr sampleRequest /\
   fetchSubstitutes quietEnv st = inr [olga; elena] /\
   fault quietEnv DeleteCandidates = false /\
   serve quietEnv "req-1" st =
     (Ok200 6 ["default"; "fast"; "near"]%string, st') /\
   fetchedCandidates st' "req-1" rows) /\
  Permutation (tab "fast" rows)
    (rankedFor quietEnv st "req-1" sampleRequest [olga; elena] 1) /\
  List.length rows = 6%nat.
Proof.
  intros st st' rows.
  assert (Hrun : serve quietEnv "req-1" st =
                 (Ok200 6 ["default"; "fast"; "near"]%string, st')).
  { unfold st'.
    rewrite (ServeFacts.serve_ok quietEnv "req-1" st sampleRequest [olga; elena]);
      try reflexivity; [ | now right].
    now rewrite ServeFacts.computeCandidates_length. }
  assert (Hrows : fetchedCandidates st' "req-1" rows)
    by apply Permutation_refl.
  split; [now repeat split | ].
  destruct (tabs_hold_ranked_lists quietEnv "req-1" st st' sampleRequest
              [olga; elena] 6 ["default"; "fast"; "near"]%string rows
              eq_refl eq_refl eq_refl Hrun Hrows) as [Htabs [_ Hlen]].
  split; [ | exact Hlen].
  exact (proj1 (Htabs 1%nat "fast"%string eq_refl)).
Defined.

(** X21.  [assignCandidate] inserts one assignment of the substitute,
    stamped by the database, and touches no candidate row; the count that
    the load score of a later run reads rises by one for this substitute
    when the stamp falls in the window, and is unchanged for every other
    one.  The status goes to "assigned", unless that update fails, which
    the page does not notice.  When the insert fails nothing is
    changed. *)
Theorem assignCandidate_effect (page : PageEnv) (rid : string)
    (candidateId substituteId : string) (st : Store) :
  let toast := fst (assignCandidate page rid candidateId substituteId st) in
  let st' := snd (assignCandidate page rid candidateId substituteId st) in
  (pageFault page PageInsertAssignment = true ->
   toast = AssignmentFailed /\ st' = st) /\
  (pageFault page PageInsertAssignment = false ->
   toast = AssignmentCreated /\
   assignments st' =
     assignments st ++ [mkAssignment substituteId (dbNow page)] /\
   assignment_candidates st' = assignment_candidates st /\
   (forall sid since,
      countAssignments st' sid since =
      (countAssignments st sid since +
       (if String.eqb substituteId sid && (since <=? dbNow page)%Z
        then 1 else 0))%nat) /\
   assignment_requests st' =
     (if pageFault page PageSetAssigned then assignment_requests st
      else map (setStatus st_assigned rid) (assignment_requests st))).
Proof.
  intros toast st'. unfold toast, st', assignCandidate. split; intros Hf;
    rewrite Hf; [now split | ].
  cbn [fst snd]. unfold pageUpdateStatus.
  split; [reflexivity | ].
  split; [now destruct (pageFault page PageSetAssigned) | ].
  split; [now destruct (pageFault page PageSetAssigned) | ].
  split; [ | now destruct (pageFault page PageSetAssigned)].
  intros sid since. unfold countAssignments.
  replace (assignments
             (if pageFault page PageSetAssigned
              then _ else _))
    with (assignments st ++ [mkAssignment substituteId (dbNow page)])
    by now destruct (pageFault page PageSetAssigned).
  rewrite filter_app, length_app. f_equal. simpl.
  now destruct (String.eqb substituteId sid && (since <=? dbNow page)%Z).
Qed.

Lemma assignCandidate_effect_witness :
  let page := mkPageEnv (fun _ => false) 0 in
  let st := sampleStore [elena] seededSettings in
  let st' := snd (assignCandidate page "req-1" "cand-1" "emp-1" st) in
  pageFault page PageInsertAssignment = false /\
  countAssignments st' "emp-1" (0 - thirtyDays) = 1%nat.
Proof.
  intros page st st'. split; [reflexivity | ].
  exact (eq_trans
           (proj1 (proj2 (proj2 (proj2
              (proj2 (assignCandidate_effect page "req-1" "cand-1" "emp-1" st)
                 eq_refl))))
              "emp-1"%string (0 - thirtyDays)%Z)
           eq_refl).
Defined.

Module ShownFacts.

(** The copy the page gets for a request of one stored row. *)
Lemma pageFetchRequest_status (page : PageEnv) (rid : string) (st : Store)
    (shown : option RequestRow) (s : request_status) :
  pageFault page PageFetchRequest = false ->
  statusOf rid st = Some s ->
  exists data,
    pageFetchRequest page rid st shown = Some data /\ status data = s.
Proof.
  unfold pageFetchRequest, statusOf. intros -> H.
  destruct (filter (fun r => String.eqb (id r) rid) (assignment_requests st))
    as [ | data [ | r rs]]; try discriminate H.
  exists data. split; [reflexivity | ]. now injection H.
Qed.

Lemma runMatchingShown_store (page : PageEnv) (env : Env) (rid : string)
    (shown : option RequestRow) (st : Store) :
  snd (runMatchingShown page env rid shown st) =
  snd (runMatching page env rid st).
Proof.
  unfold runMatchingShown.
  now destruct (runMatching page env rid st) as [[found | | | ] st'].
Qed.

Lemma runMatchingShown_complete (page : PageEnv) (env : Env) (rid : string)
    (shown : option RequestRow) (st : Store) (found : nat) :
  fst (fst (runMatchingShown page env rid shown st)) = MatchingComplete found ->
  snd (fst (runMatchingShown page env rid shown st)) =
  pageFetchRequest page rid (snd (runMatching page env rid st)) shown.
Proof.
  unfold runMatchingShown.
  destruct (runMatching page env rid st) as [[found' | | | ] st'];
    cbn [fst snd]; intros H; try discriminate H. reflexivity.
Qed.

Lemma runMatchingShown_failed (page : PageEnv) (env : Env) (rid : string)
    (shown : option RequestRow) (st : Store) :
  fst (fst (runMatchingShown page env rid shown st)) = MatchingFailed ->
  snd (fst (runMatchingShown page env rid shown st)) = shown.
Proof.
  unfold runMatchingShown.
  destruct (runMatching page env rid st) as [[found' | | | ] st'];
    cbn [fst snd]; intros H; try discriminate H; reflexivity.
Qed.

End ShownFacts.

(** X22.  After an assignment whose two calls went through, a page that
    loads the request shows it as "assigned": "Assign" is disabled and
    "Run Matching" enabled.  Running the matching from there leaves the
    stored status at "matching" (when the page's update goes through).
    After a run that succeeded the page fetches the request again, shows
    "matching" and enables "Assign"; after a run that failed the page
    keeps its copy: it still shows "assigned" and "Assign" stays disabled,
    although the stored status is "matching". *)
Theorem assigned_request_can_be_matched_again (page : PageEnv) (env : Env)
    (rid : string) (candidateId substituteId : string) (st : Store)
    (s0 : request_status) :
  statusOf rid st = Some s0 ->
  pageFault page PageInsertAssignment = false ->
  pageFault page PageSetAssigned = false ->
  pageFault page PageSetMatching = false ->
  pageFault page PageFetchRequest = false ->
  let st1 := snd (assignCandidate page rid candidateId substituteId st) in
  let shown1 := pageFetchRequest page rid st1 None in
  let run := runMatchingShown page env rid shown1 st1 in
  let toast := fst (fst run) in
  let shown2 := snd (fst run) in
  let st2 := snd run in
  assignShown shown1 = false /\
  runMatchingShownEnabled false shown1 = true /\
  statusOf rid st2 = Some st_matching /\
  (forall found, toast = MatchingComplete found ->
     (exists data, shown2 = Some data /\ status data = st_matching) /\
     assignShown shown2 = true) /\
  (toast = MatchingFailed ->
     shown2 = shown1 /\ assignShown shown2 = false).
Proof.
  intros Hs Hins Hset Hmat Hfetch st1 shown1 run toast shown2 st2.
  assert (H1 : statusOf rid st1 = Some st_assigned).
  { apply (PageFacts.statusOf_set st_assigned s0 rid st st1 Hs).
    unfold st1, assignCandidate, pageUpdateStatus. now rewrite Hins, Hset. }
  destruct (ShownFacts.pageFetchRequest_status page rid st1 None st_assigned
              Hfetch H1) as [data1 [Hshown1 Hdata1]].
  fold shown1 in Hshown1.
  assert (Hoff : assignShown shown1 = false)
    by (rewrite Hshown1; cbn [assignShown]; now rewrite Hdata1).
  assert (H2 : statusOf rid st2 = Some st_matching).
  { unfold st2, run. rewrite ShownFacts.runMatchingShown_store.
    apply (PageFacts.statusOf_set st_matching st_assigned rid st1 _ H1).
    now apply PageFacts.runMatching_requests. }
  split; [exact Hoff | ].
  split; [rewrite Hshown1; cbn [runMatchingShownEnabled]; now rewrite Hdata1 | ].
  split; [exact H2 | ]. split.
  - intros found Hdone.
    assert (Hshown2 : shown2 = pageFetchRequest page rid st2 shown1).
    { unfold shown2, st2, run.
      rewrite (ShownFacts.runMatchingShown_complete _ _ _ _ _ found Hdone).
      now rewrite ShownFacts.runMatchingShown_store. }
    destruct (ShownFacts.pageFetchRequest_status page rid st2 shown1
                st_matching Hfetch H2) as [data2 [Hd2 Hs2]].
    rewrite Hshown2, Hd2. split; [now exists data2 | ].
    cbn [assignShown]. now rewrite Hs2.
  - intros Hfailed.
    assert (Hshown2 : shown2 = shown1)
      by now apply ShownFacts.runMatchingShown_failed.
    split; [exact Hshown2 | now rewrite Hshown2].
Qed.

Lemma assigned_request_can_be_matched_again_witness :
  let page := mkPageEnv (fun _ => false) 0 in
  let st := sampleStore [elena] seededSettings in
  let st1 := snd (assignCandidate page "req-1" "cand-1" "emp-1" st) in
  let shown1 := pageFetchRequest page "req-1" st1 None in
  let run := runMatchingShown page insertFailsEnv "req-1" shown1 st1 in
  (statusOf "req-1" st = Some st_open /\
   pageFault page PageInsertAssignment = false /\
   pageFault page PageSetAssigned = false /\
   pageFault page PageSetMatching = false /\
   pageFault page PageFetchRequest = false /\
   fst (fst run) = MatchingFailed) /\
  statusOf "req-1" (snd run) = Some st_matching /\
  assignShown (snd (fst run)) = false.
Proof.
  intros page st st1 shown1 run.
  assert (Hfailed : fst (fst run) = MatchingFailed) by reflexivity.
  split; [now repeat split | ].
  destruct (assigned_request_can_be_matched_again page insertFailsEnv "req-1"
              "cand-1" "emp-1" st st_open eq_refl eq_refl eq_refl eq_refl
              eq_refl)
    as [_ [_ [H2 [_ Hstale]]]].
  split; [exact H2 | exact (proj2 (Hstale Hfailed))].
Defined.

(** ** What a run reads *)

Module ReadFacts.

Lemma filter_sameReads (rid : string) (rs1 rs2 : list RequestRow) :
  Forall2 sameReads rs1 rs2 ->
  Forall2 sameReads
    (filter (fun r => String.eqb (id r) rid) rs1)
    (filter (fun r => String.eqb (id r) rid) rs2).
Proof.
  induction 1 as [ | r1 r2 rs1 rs2 Hr _ IH]; simpl; [constructor | ].
  destruct Hr as [Hid Hr]. rewrite <- Hid.
  destruct (String.eqb (id r1) rid); [ | exact IH].
  constructor; [now split | exact IH].
Qed.

Lemma fetchRequest_sameReads (env : Env) (rid : string) (st1 st2 : Store) :
  Forall2 sameReads (assignment_requests st1) (assignment_requests st2) ->
  (exists e, fetchRequest env st1 rid = inl e /\
             fetchRequest env st2 rid = inl e) \/
  (exists r1 r2, fetchRequest env st1 rid = inr r1 /\
                 fetchRequest env st2 rid = inr r2 /\ sameReads r1 r2).
Proof.
  intros H. apply (filter_sameReads rid) in H. unfold fetchRequest.
  destruct (fault env FetchRequest); [left; now eexists | ].
  destruct H as [ | r1 r2 l1 l2 Hr Hl]; [left; now eexists | ].
  destruct Hl as [ | r1' r2' l1 l2 _ _].
  - right. now exists r1, r2.
  - left. now eexists.
Qed.

Lemma list_eq_dec_nil {A : Type} (l : list A) : {l = []} + {l <> []}.
Proof. destruct l; [now left | now right]. Qed.

End ReadFacts.

(** X23.  A run reads the settings, the assignments, the active profiles
    and, of the request rows, the identifier, the branch location and
    [must_start_by].  Two stores that agree on these get the same answer
    and, with a delete that goes through, the same candidate rows for the
    request: the status of the request, its period, the profiles that are
    not active and the candidates stored before have no influence. *)
Theorem run_reads (env : Env) (rid : string) (st1 st2 : Store) :
  settings st1 = settings st2 ->
  assignments st1 = assignments st2 ->
  filter active (substitute_profiles st1) =
    filter active (substitute_profiles st2) ->
  Forall2 sameReads (assignment_requests st1) (assignment_requests st2) ->
  fst (serve env rid st1) = fst (serve env rid st2) /\
  (fault env DeleteCandidates = false ->
   (exists n scs, fst (serve env rid st1) = Ok200 n scs) ->
   candidatesOf rid (assignment_candidates (snd (serve env rid st1))) =
   candidatesOf rid (assignment_candidates (snd (serve env rid st2)))).
Proof.
  intros Hset Hasg Hact Hreqs.
  assert (Hsubs : fetchSubstitutes env st1 = fetchSubstitutes env st2)
    by (unfold fetchSubstitutes; now rewrite Hact).
  destruct (ReadFacts.fetchRequest_sameReads env rid st1 st2 Hreqs)
    as [[e [H1 H2]] | [r1 [r2 [H1 [H2 [_ [Hc Hm]]]]]]].
  - rewrite (ServeFacts.serve_request_error env rid st1 e H1),
      (ServeFacts.serve_request_error env rid st2 e H2).
    split; [reflexivity | ]. intros _ [n [scs H]]. discriminate H.
  - destruct (fetchSubstitutes env st2) as [e | subs] eqn:Hs2.
    + rewrite (ServeFacts.serve_substitutes_error env rid st1 r1 e H1 Hsubs),
        (ServeFacts.serve_substitutes_error env rid st2 r2 e H2 Hs2).
      split; [reflexivity | ]. intros _ [n [scs H]]. discriminate H.
    + pose proof (RerunFacts.computeCandidates_reads env st1 st2 rid r1 r2
                    subs Hset Hasg Hc Hm) as Hall.
      pose proof (ServeFacts.computeCandidates_request env st2 rid r2 subs)
        as Hown.
      destruct (ReadFacts.list_eq_dec_nil (computeCandidates env st2 rid r2 subs))
        as [Hnil | Hne];
        [ | destruct (fault env InsertCandidates) eqn:Hins ].
      * rewrite (ServeFacts.serve_ok env rid st1 r1 subs H1 Hsubs)
          by (left; now rewrite Hall).
        rewrite (ServeFacts.serve_ok env rid st2 r2 subs H2 Hs2)
          by now left.
        rewrite Hall. split; [reflexivity | ]. intros Hdel _. cbn [snd].
        rewrite !ServeFacts.updateStatus_candidates.
        cbn [appendCandidates assignment_candidates].
        rewrite !(ServeFacts.deleteCandidates_candidates env rid _ Hdel).
        now rewrite !ServeFacts.candidatesOf_app,
          !ServeFacts.candidatesOf_deleted.
      * rewrite (ServeFacts.serve_insert_error env rid st1 r1 subs H1 Hsubs)
          by (try rewrite Hall; assumption).
        rewrite (ServeFacts.serve_insert_error env rid st2 r2 subs H2 Hs2)
          by assumption.
        split; [reflexivity | ]. intros _ [n [scs H]]. discriminate H.
      * rewrite (ServeFacts.serve_ok env rid st1 r1 subs H1 Hsubs)
          by now right.
        rewrite (ServeFacts.serve_ok env rid st2 r2 subs H2 Hs2)
          by now right.
        rewrite Hall. split; [reflexivity | ]. intros Hdel _. cbn [snd].
        rewrite !ServeFacts.updateStatus_candidates.
        cbn [appendCandidates assignment_candidates].
        rewrite !(ServeFacts.deleteCandidates_candidates env rid _ Hdel).
        now rewrite !ServeFacts.candidatesOf_app,
          !ServeFacts.candidatesOf_deleted.
Qed.

Lemma run_reads_witness :
  let st1 := sampleStore [elena] seededSettings in
  let st2 :=
    mkStore [mkRequest "req-1" moscow 345600000 0 st_closed]
      [mkSubstitute "emp-7" OtherText false; elena] seededSettings [] [] in
  (settings st1 = settings st2 /\
   assignments st1 = assignments st2 /\
   filter active (substitute_profiles st1) =
     filter active (substitute_profiles st2) /\
   Forall2 sameReads (assignment_requests st1) (assignment_requests st2)) /\
  fst (serve quietEnv "req-1" st1) = fst (serve quietEnv "req-1" st2).
Proof.
  intros st1 st2.
  assert (Hreqs : Forall2 sameReads (assignment_requests st1)
                    (assignment_requests st2))
    by (repeat constructor).
  split; [now repeat split | ].
  exact (proj1 (run_reads quietEnv "req-1" st1 st2 eq_refl eq_refl eq_refl
                  Hreqs)).
Defined.

(** ** The direction of travel *)

(** X24.  The logistics estimate does not depend on the direction: from
    the substitute to the branch or from the branch to the substitute,
    the distance, the mode, the travel time and the cost are the same,
    for every pair of coordinates (numbers or not) and every set of
    rules. *)
Theorem calculateLogistics_either_direction (A B : Coords) (rules : JsObj) :
  calculateLogistics A B rules = calculateLogistics B A rules.
Proof.
  assert (Hd : haversineDistance (snd A) (fst A) (snd B) (fst B) =
               haversineDistance (snd B) (fst B) (snd A) (fst A)).
  { destruct (isFinite (snd A) && isFinite (fst A)
              && isFinite (snd B) && isFinite (fst B)) eqn:Hfin.
    - destruct A as [[ | | lonA | ] [ | | latA | ]];
        destruct B as [[ | | lonB | ] [ | | latB | ]]; try discriminate Hfin.
      cbn [fst snd].
      rewrite (GeoFacts.haversine_Fin latA lonA latB lonB),
        (GeoFacts.haversine_Fin latB lonB latA lonA),
        (GeoFacts.haversineA_sym latA lonA latB lonB).
      reflexivity.
    - rewrite (RangeFacts.haversine_notFinite _ _ _ _ Hfin).
      symmetry. apply RangeFacts.haversine_notFinite.
      destruct (isFinite (snd A)), (isFinite (fst A)), (isFinite (snd B)),
        (isFinite (fst B)); try reflexivity; discriminate Hfin. }
  unfold calculateLogistics. now rewrite Hd.
Qed.
